(** * Clos versus full-mesh fabric sizing

    A shallow embedding of [src/utils/networkMath.ts] (the two sizing
    functions [calculateClos] and [calculateFullMesh]) together with the
    records of [src/types.ts] and the callers of the sizers (the
    application, the chart and the drawing of a topology), and the
    properties of the sizing algorithms proved over that embedding.

    Numbers.  Every quantity of the source is a JavaScript [number],
    an IEEE binary64 double.  The integer-valued ones (port, switch and
    cable counts) are modelled in [Z]: sums, differences and products
    of integers are exact in doubles, and so are the floors and
    ceilings of their quotients, as long as the values stay below
    [2^53].  The real-valued ones (powers, ratios, hop counts,
    coordinates) are modelled by the rational in [Q] that the double
    denotes, and every arithmetic operation on them rounds its exact
    result to the nearest double, ties to even ([Binary64.round]).  The
    exponent range of doubles is not modelled: no result overflows to
    an infinity or underflows to a subnormal, which is the behaviour of
    doubles for results of magnitude between [2^-1022] and [2^1024].
    The non-finite values [NaN] and [±Infinity] are modelled where the
    source can meet them: as the optional argument of
    [calculateFullMesh] and as the result of a division whose divisor
    may vanish. *)

From Stdlib Require Import ZArith QArith Qround Qabs Qpower String Bool Lia Lqa DecimalString.

Open Scope Z_scope.

(** ** IEEE binary64 rounding *)

Module Binary64.

Definition pow2 (e : Z) : Q := (2 ^ e)%Q.

(** The exponent of a positive [a]: the [e] with [2^e <= a < 2^(e+1)]. *)
Definition ilog2 (a : Q) : Z :=
  let k := Z.log2 (Qnum a) - Z.log2 (Zpos (Qden a)) in
  if Qle_bool (pow2 k) a then k else k - 1.

(** The nearest integer, the even one on a tie. *)
Definition nearestEven (q : Q) : Z :=
  let f := Qfloor q in
  match (q - inject_Z f ?= 1 # 2)%Q with
  | Lt => f
  | Gt => f + 1
  | Eq => if Z.even f then f else f + 1
  end.

(** A positive [a] rounded to 53 significant bits. *)
Definition roundPos (a : Q) : Q :=
  let ulp := pow2 (ilog2 a - 52) in
  (inject_Z (nearestEven (a / ulp)) * ulp)%Q.

(** The double nearest to [x], ties to even. *)
Definition round (x : Q) : Q :=
  match (x ?= 0)%Q with
  | Eq => 0%Q
  | Gt => roundPos x
  | Lt => (- roundPos (- x))%Q
  end.

(** The unit roundoff, [2^-53]. *)
Definition eps : Q := pow2 (-53).

End Binary64.

Arguments Binary64.round : simpl never.
Arguments Binary64.pow2 : simpl never.

(** ** JavaScript primitives used by the source *)

Module JS.

(** A finite value or one of the three non-finite doubles. *)
Inductive ext (A : Type) : Type :=
| NaN
| NegInfinity
| Infinity
| Fin (a : A).

Arguments NaN {A}.
Arguments NegInfinity {A}.
Arguments Infinity {A}.
Arguments Fin {A} a.

Definition number := ext Q.

Definition ofZ (z : Z) : number := Fin (inject_Z z).

(** [a < b] on finite values. *)
Definition Qltb (a b : Q) : bool := negb (Qle_bool b a).

(** [ToBoolean]: [NaN] and zero are falsy, everything else truthy. *)
Definition truthy (x : number) : bool :=
  match x with
  | NaN => false
  | Fin q => negb (Qeq_bool q 0)
  | NegInfinity | Infinity => true
  end.

(** [a || b] on numbers. *)
Definition or_else (a : option number) (b : number) : number :=
  match a with
  | Some x => if truthy x then x else b
  | None => b
  end.

(** The arithmetic operators on finite doubles: the exact result,
    rounded.  [fdiv] is for a divisor that is not zero. *)
Definition fadd (a b : Q) : Q := Binary64.round (a + b).
Definition fsub (a b : Q) : Q := Binary64.round (a - b).
Definition fmul (a b : Q) : Q := Binary64.round (a * b).
Definition fdiv (a b : Q) : Q := Binary64.round (a / b).

(** A decimal literal of the source: the double nearest to it. *)
Definition literal (q : Q) : Q := Binary64.round q.

(** [a / b] for finite [a], [b]; a zero divisor is taken to be [+0]. *)
Definition div (a b : Q) : number :=
  if Qeq_bool b 0 then
    match (a ?= 0)%Q with
    | Eq => NaN
    | Lt => NegInfinity
    | Gt => Infinity
    end
  else Fin (fdiv a b).

(** [Math.ceil]. *)
Definition Math_ceil (x : number) : ext Z :=
  match x with
  | Fin q => Fin (Qceiling q)
  | NaN => NaN
  | NegInfinity => NegInfinity
  | Infinity => Infinity
  end.

(** [a >= b] for a finite [a]; any comparison with [NaN] is false. *)
Definition geb (a : Q) (b : number) : bool :=
  match b with
  | Fin q => Qle_bool q a
  | NegInfinity => true
  | Infinity | NaN => false
  end.

(** [parseFloat(x.toFixed(2))]: [toFixed] prints the sign and then
    the integer [n] for which [n / 100] is closest to [|x|], the
    larger one on a tie, and [parseFloat] reads the double nearest to
    that decimal; from [10^21] on [toFixed] prints [x] itself. *)
Definition toFixed2 (x : Q) : Q :=
  if Qle_bool (inject_Z (10 ^ 21)) (Qabs x) then x
  else
    let n := Qfloor (Qabs x * 100 + (1 # 2)) in
    if Qltb x 0 then (- literal (inject_Z n / 100))%Q
    else literal (inject_Z n / 100).

End JS.

Import JS.

(** ** The records of [src/types.ts] *)

Record SwitchConfig : Type := mkSwitchConfig {
  leafs : option Z;
  spines : option Z;
  core : option Z;
  meshSwitches : option Z;
  userPortsPerSwitch : option Z
}.

(** The object literal [{}]. *)
Definition emptySwitchConfig : SwitchConfig :=
  mkSwitchConfig None None None None None.

Record TopologyMetrics : Type := mkTopologyMetrics {
  name : string;
  totalSwitches : Z;
  totalCables : Z;
  avgHops : Q;
  maxHops : Z;
  totalPower : Q;
  userCapacity : Z;
  details : string;
  possible : bool;
  switchConfig : SwitchConfig
}.

Record NetworkConfig : Type := mkNetworkConfig {
  numUsers : Z;
  radix : Z;
  powerPerSwitch : Q;
  cablePowerClos : Q;
  cablePowerMesh : Q;
  meshFabricRatio : Q;
  meshOneHopTraffic : Q
}.

(** ** [src/utils/networkMath.ts] *)

Section NetworkMath.

(** [Number::toString], used by the template literals that build
    [name] and [details]; its digits play no role in the sizing. *)
Variable toString : number -> string.

Let str (z : Z) : string := toString (ofZ z).

(** *** calculateClos *)

(** [Math.floor(radix / 2)] *)
Definition userPortsPerLeaf (config : NetworkConfig) : Z :=
  Qfloor (inject_Z (radix config) / 2).

(** [Math.ceil(numUsers / userPortsPerLeaf)] *)
Definition numLeafs (config : NetworkConfig) : Z :=
  Qceiling (inject_Z (numUsers config) / inject_Z (userPortsPerLeaf config)).

(** [(radix / 2) * (radix / 2) * radix]: halves of integers and their
    products, exact in doubles below [2^53]. *)
Definition maxUsers3Tier (config : NetworkConfig) : Q :=
  (inject_Z (radix config) / 2) * (inject_Z (radix config) / 2)
  * inject_Z (radix config).

(** [Math.ceil(totalUplinks / radix)], the spine count of the 2-tier
    design and the core count of the 3-tier one. *)
Definition upperTier (config : NetworkConfig) (uplinks : Z) : Z :=
  Qceiling (inject_Z uplinks / inject_Z (radix config)).

(** The hop model, lines 107-137. *)
Definition closAvgHops (config : NetworkConfig) (tiers : Z) : Q :=
  if tiers =? 2 then 2%Q
  else
    let leavesPerPod := Qfloor (inject_Z (radix config) / 2) in
    let numLeafs := numLeafs config in
    if 1 <? numLeafs then
      let totalRemoteLeaves := numLeafs - 1 in
      let intraPodLeaves := Z.max 0 (Z.min leavesPerPod numLeafs - 1) in
      let interPodLeaves := Z.max 0 (numLeafs - leavesPerPod) in
      let pIntraPod := fdiv (inject_Z intraPodLeaves) (inject_Z totalRemoteLeaves) in
      let pInterPod := fdiv (inject_Z interPodLeaves) (inject_Z totalRemoteLeaves) in
      fadd (fmul pIntraPod 2) (fmul pInterPod 4)
    else 0%Q.

(** The common tail of both tiers, lines 98-150. *)
Definition closResult (config : NetworkConfig) (tiers totalSwitches fabricCables : Z)
    (details : string) (switchConfig : SwitchConfig) : TopologyMetrics :=
  let totalPower :=
    fadd (fmul (inject_Z totalSwitches) (powerPerSwitch config))
         (fmul (fmul (inject_Z fabricCables) (cablePowerClos config)) 2) in
  let avgHops := closAvgHops config tiers in
  {| name := "Folded Clos (" ++ str tiers ++ "-Tier)";
     totalSwitches := totalSwitches;
     totalCables := fabricCables;
     avgHops := toFixed2 avgHops;
     maxHops := if tiers =? 2 then 2 else 4;
     totalPower := totalPower;
     userCapacity := numLeafs config * userPortsPerLeaf config;
     details := details;
     possible := true;
     switchConfig := switchConfig |}.

Definition calculateClos (config : NetworkConfig) : TopologyMetrics :=
  let userPortsPerLeaf := userPortsPerLeaf config in
  if userPortsPerLeaf =? 0 then
    {| name := "Folded Clos";
       totalSwitches := 0;
       totalCables := 0;
       avgHops := 0;
       maxHops := 0;
       totalPower := 0;
       userCapacity := 0;
       details := "Radix too small.";
       possible := false;
       switchConfig := emptySwitchConfig |}
  else
    let numLeafs := numLeafs config in
    if numLeafs <=? radix config then
      let totalUplinks := numLeafs * userPortsPerLeaf in
      let numSpines := upperTier config totalUplinks in
      closResult config 2 (numLeafs + numSpines) totalUplinks
        ("2-Tier: " ++ str numLeafs ++ " Leafs, " ++ str numSpines ++ " Spines")
        {| leafs := Some numLeafs;
           spines := Some numSpines;
           core := None;
           meshSwitches := None;
           userPortsPerSwitch := Some userPortsPerLeaf |}
    else
      let numAgg := numLeafs in
      let totalAggUplinks := numAgg * Qfloor (inject_Z (radix config) / 2) in
      let numCore := upperTier config totalAggUplinks in
      let maxUsers3Tier := maxUsers3Tier config in
      if Qltb maxUsers3Tier (inject_Z (numUsers config)) then
        {| name := "Folded Clos (3-Tier)";
           totalSwitches := 0;
           totalCables := 0;
           avgHops := 0;
           maxHops := 0;
           totalPower := 0;
           userCapacity := 0;
           details := "Requires >3 Tiers. Max users "
                      ++ toString (Fin maxUsers3Tier) ++ ".";
           possible := false;
           switchConfig := emptySwitchConfig |}
      else
        let cablesT1T2 := numLeafs * userPortsPerLeaf in
        let cablesT2T3 := totalAggUplinks in
        closResult config 3 (numLeafs + numAgg + numCore) (cablesT1T2 + cablesT2T3)
          ("3-Tier: " ++ str numLeafs ++ " Leafs, " ++ str numAgg ++ " Agg, "
           ++ str numCore ++ " Core")
          {| leafs := Some numLeafs;
             spines := Some numAgg;
             core := Some numCore;
             meshSwitches := None;
             userPortsPerSwitch := Some userPortsPerLeaf |}.

(** *** calculateFullMesh *)

(** [requiredUserPorts || numUsers] *)
Definition targetUsers (config : NetworkConfig) (requiredUserPorts : option number)
    : number :=
  or_else requiredUserPorts (ofZ (numUsers config)).

(** [Math.ceil((meshFabricRatio * radix) / (1 + meshFabricRatio))] *)
Definition minFabricPorts (config : NetworkConfig) : ext Z :=
  Math_ceil (div (fmul (meshFabricRatio config) (inject_Z (radix config)))
                 (fadd 1 (meshFabricRatio config))).

(** Lines 172-173, for [s >= 2]: [Math.ceil(minFabricPorts / (s - 1))]
    raised to 1 when it is below 1.  Dividing an infinity by the
    positive [s - 1] leaves it unchanged, and [NaN < 1] is false. *)
Definition linksPerPeer (minFabricPorts : ext Z) (s : Z) : ext Z :=
  match minFabricPorts with
  | Fin m =>
      let l := Qceiling (inject_Z m / inject_Z (s - 1)) in
      Fin (if l <? 1 then 1 else l)
  | NegInfinity => Fin 1
  | Infinity => Infinity
  | NaN => NaN
  end.

(** How one pass through the loop body ends. *)
Inductive outcome : Type :=
| Break
| Continue
| Found (bestMetrics : TopologyMetrics).

(** The loop body, lines 170-213, at switch count [s]. *)
Definition meshIteration (config : NetworkConfig) (targetUsers : number)
    (minFabricPorts : ext Z) (s : Z) : outcome :=
  match linksPerPeer minFabricPorts s with
  | Fin linksPerPeer =>
      let actualFabricPorts := linksPerPeer * (s - 1) in
      let actualUserPorts := radix config - actualFabricPorts in
      if actualUserPorts <=? 0 then
        if linksPerPeer =? 1 then Break else Continue
      else
        let totalCapacity := s * actualUserPorts in
        if geb (inject_Z totalCapacity) targetUsers then
          let fabricCables := s * (s - 1) / 2 * linksPerPeer in
          let totalPower :=
            fadd (fmul (inject_Z s) (powerPerSwitch config))
                 (fmul (fmul (inject_Z fabricCables) (cablePowerMesh config)) 2) in
          let oneHopRatio := fdiv (meshOneHopTraffic config) 100 in
          let avgHops := fadd (fmul oneHopRatio 1) (fmul (fsub 1 oneHopRatio) 2) in
          Found
            {| name := "Full Mesh";
               totalSwitches := s;
               totalCables := fabricCables;
               avgHops := toFixed2 avgHops;
               maxHops := 2;
               totalPower := totalPower;
               userCapacity := totalCapacity;
               details := str s ++ " Switches, " ++ str linksPerPeer
                          ++ "x LAG. (U:" ++ str actualUserPorts ++ "/F:"
                          ++ str actualFabricPorts ++ ")";
               possible := true;
               switchConfig :=
                 {| leafs := None;
                    spines := None;
                    core := None;
                    meshSwitches := Some s;
                    userPortsPerSwitch := Some actualUserPorts |} |}
        else Continue
  (* actualUserPorts is -Infinity: not positive, and linksPerPeer is not 1 *)
  | Infinity => Continue
  (* every comparison with NaN is false: the body falls through *)
  | NaN => Continue
  (* excluded by the clamp of line 173 *)
  | NegInfinity => Continue
  end.

(** [for (let s = ...; s <= 500; s++)] with [n] passes left. *)
Fixpoint meshSearch (config : NetworkConfig) (targetUsers : number)
    (minFabricPorts : ext Z) (n : nat) (s : Z) : option TopologyMetrics :=
  match n with
  | O => None
  | S n' =>
      match meshIteration config targetUsers minFabricPorts s with
      | Break => None
      | Continue => meshSearch config targetUsers minFabricPorts n' (s + 1)
      | Found bestMetrics => Some bestMetrics
      end
  end.

Definition calculateFullMesh (config : NetworkConfig)
    (requiredUserPorts : option number) : TopologyMetrics :=
  let targetUsers := targetUsers config requiredUserPorts in
  let minFabricPorts := minFabricPorts config in
  match meshSearch config targetUsers minFabricPorts 499 2 with
  | Some bestMetrics => bestMetrics
  | None =>
      {| name := "Full Mesh";
         totalSwitches := 0;
         totalCables := 0;
         avgHops := 0;
         maxHops := 0;
         totalPower := 0;
         userCapacity := 0;
         details := "Cannot support " ++ toString targetUsers
                    ++ " users with Radix " ++ str (radix config)
                    ++ " & Ratio " ++ toString (Fin (meshFabricRatio config)) ++ ".";
         possible := false;
         switchConfig := emptySwitchConfig |}
  end.

End NetworkMath.


(** A concrete [Number::toString] on which the functions can be run:
    integers in decimal, other rationals as numerator/denominator in
    lowest terms. *)
Definition showNumber (x : number) : string :=
  match x with
  | NaN => "NaN"
  | NegInfinity => "-Infinity"
  | Infinity => "Infinity"
  | Fin q =>
      let q := Qred q in
      let n := NilZero.string_of_int (Z.to_int (Qnum q)) in
      if (Qden q =? 1)%positive then n
      else n ++ "/" ++ NilZero.string_of_uint (Pos.to_uint (Qden q))
  end.

(** The initial configuration of [src/clos-vs.-mesh-compare-2/App.tsx]
    with its size, radix and ratio left open. *)
Definition sampleConfig (numUsers radix : Z) (meshFabricRatio : Q) : NetworkConfig :=
  {| numUsers := numUsers;
     radix := radix;
     powerPerSwitch := 1700;
     cablePowerClos := 25;
     cablePowerMesh := 55 # 2;
     meshFabricRatio := meshFabricRatio;
     meshOneHopTraffic := 80 |}.

(** [config] with [numUsers] replaced, as in [{ ...config, numUsers: u }]. *)
Definition withNumUsers (config : NetworkConfig) (u : Z) : NetworkConfig :=
  {| numUsers := u;
     radix := radix config;
     powerPerSwitch := powerPerSwitch config;
     cablePowerClos := cablePowerClos config;
     cablePowerMesh := cablePowerMesh config;
     meshFabricRatio := meshFabricRatio config;
     meshOneHopTraffic := meshOneHopTraffic config |}.

(** A result in the shape every infeasible return has. *)
Definition zeroed (r : TopologyMetrics) : Prop :=
  totalSwitches r = 0 /\ totalCables r = 0 /\ avgHops r = 0%Q /\ maxHops r = 0
  /\ totalPower r = 0%Q /\ userCapacity r = 0
  /\ switchConfig r = emptySwitchConfig /\ details r <> EmptyString.

(** Ceiling of [a / b] on integers. *)
Definition ceilDiv (a b : Z) : Z := - ((- a) / b).

(** ** Derived notions used by the statements *)

(** The hop model of the 3-tier branch when the test [numLeafs > 1]
    of line 124 succeeds. *)
Definition remoteLeafHops (config : NetworkConfig) : Q :=
  let leavesPerPod := Qfloor (inject_Z (radix config) / 2) in
  let totalRemoteLeaves := numLeafs config - 1 in
  let intraPodLeaves := Z.max 0 (Z.min leavesPerPod (numLeafs config) - 1) in
  let interPodLeaves := Z.max 0 (numLeafs config - leavesPerPod) in
  fadd (fmul (fdiv (inject_Z intraPodLeaves) (inject_Z totalRemoteLeaves)) 2)
       (fmul (fdiv (inject_Z interPodLeaves) (inject_Z totalRemoteLeaves)) 4).

(** The quotient of the 3-tier hop model as the design states it, in
    exact arithmetic. *)
Definition statedHops (config : NetworkConfig) : Q :=
  let leavesPerPod := Qfloor (inject_Z (radix config) / 2) in
  ((inject_Z (Z.max 0 (leavesPerPod - 1)) * 2
    + inject_Z (Z.max 0 (numLeafs config - leavesPerPod)) * 4)
   / inject_Z (numLeafs config - 1))%Q.

(** A non-negative [x] rounded to two decimals, a tie going up. *)
Definition hundredths (x : Q) : Q :=
  (inject_Z (Qfloor (x * 100 + (1 # 2))) / 100)%Q.

(** The 3-tier hop count as the design states it: the double that
    reads as the exact quotient rounded to two decimals. *)
Definition closHopsAsStated (toString : number -> string) (config : NetworkConfig)
    : Prop :=
  let r := calculateClos toString config in
  0 <= radix config -> possible r = true -> core (switchConfig r) <> None ->
  (avgHops r == literal (hundredths (statedHops config)))%Q.

(** At [s] switches with [l] links per peer the loop body accepts. *)
Definition meshFits (config : NetworkConfig) (target : number) (mfp : ext Z)
    (s l : Z) : Prop :=
  linksPerPeer mfp s = Fin l
  /\ 0 < radix config - l * (s - 1)
  /\ geb (inject_Z (s * (radix config - l * (s - 1)))) target = true.

(** The fabric-port budget that line 166 computes for a positive
    ratio: the ceiling of the quotient evaluated in doubles. *)
Definition ratioFabricPorts (config : NetworkConfig) : Z :=
  Qceiling (fdiv (fmul (meshFabricRatio config) (inject_Z (radix config)))
                 (fadd 1 (meshFabricRatio config))).

(** The budget as the design states it: the ceiling of the exact
    quotient. *)
Definition exactFabricPorts (config : NetworkConfig) : Z :=
  Qceiling (meshFabricRatio config * inject_Z (radix config)
            / (1 + meshFabricRatio config)).

(** The quantities of one candidate switch count [S] as the mesh
    design states them, for a fabric-port budget [minFabricPorts]:
    [linksPerPeer] and [actualUserPorts]. *)
Definition peerLinks (minFabricPorts S : Z) : Z :=
  Z.max 1 (Qceiling (inject_Z minFabricPorts / inject_Z (S - 1))).

Definition meshUserPorts (config : NetworkConfig) (minFabricPorts S : Z) : Z :=
  radix config - peerLinks minFabricPorts S * (S - 1).

(** [S] switches leave user ports and reach the capacity [T]. *)
Definition meshAdmits (config : NetworkConfig) (minFabricPorts : Z) (T : Q) (S : Z)
    : Prop :=
  0 < meshUserPorts config minFabricPorts S
  /\ (T <= inject_Z (S * meshUserPorts config minFabricPorts S))%Q.

(** [r] reports the least admissible switch count for [T]. *)
Definition meshMinimalFor (config : NetworkConfig) (minFabricPorts : Z) (T : Q)
    (r : TopologyMetrics) : Prop :=
  let S := totalSwitches r in
  2 <= S <= 500
  /\ meshAdmits config minFabricPorts T S
  /\ (forall S', 2 <= S' < S -> ~ meshAdmits config minFabricPorts T S')
  /\ userCapacity r = S * meshUserPorts config minFabricPorts S.

(** The target read off the call: the argument when one is supplied,
    [numUsers] otherwise. *)
Definition suppliedTarget (config : NetworkConfig) (requiredUserPorts : option number)
    : number :=
  match requiredUserPorts with
  | Some x => x
  | None => ofZ (numUsers config)
  end.

(** Mesh minimality as the design states it: with the target read off
    the call and the budget of exact arithmetic. *)
Definition meshMinimalAsStated (toString : number -> string)
    (config : NetworkConfig) (requiredUserPorts : option number) : Prop :=
  forall T : Q,
    suppliedTarget config requiredUserPorts = Fin T ->
    2 <= radix config -> (0 < meshFabricRatio config)%Q ->
    possible (calculateFullMesh toString config requiredUserPorts) = true ->
    meshMinimalFor config (exactFabricPorts config) T
      (calculateFullMesh toString config requiredUserPorts).

(** The ratio bound without slack, on the reported partition. *)
Definition meshRatioAsStated (toString : number -> string)
    (config : NetworkConfig) (requiredUserPorts : option number) : Prop :=
  let r := calculateFullMesh toString config requiredUserPorts in
  forall U : Z,
    (0 < meshFabricRatio config)%Q -> possible r = true ->
    userPortsPerSwitch (switchConfig r) = Some U ->
    (meshFabricRatio config <= inject_Z (radix config - U) / inject_Z U)%Q.

(** ** The callers of the sizers *)

From Stdlib Require Import List Sorted Qminmax DecimalNat.
Import ListNotations.

(** [Math.round]: the nearest integer, the larger one on a tie. *)
Definition Math_round (x : Q) : Z := Qfloor (x + (1 # 2)).

(** *** [src/clos-vs.-mesh-compare-2/App.tsx], lines 33-41 *)

Module App.

Record Derived : Type := mkDerived {
  closMetrics : TopologyMetrics;
  meshMetrics : TopologyMetrics;
  closPowerPerPort : Q;
  meshPowerPerPort : Q
}.

(** [m.userCapacity > 0 ? (m.totalPower / m.userCapacity) : 0] *)
Definition powerPerPort (m : TopologyMetrics) : Q :=
  if 0 <? userCapacity m then fdiv (totalPower m) (inject_Z (userCapacity m))
  else 0%Q.

Definition derived (toString : number -> string) (config : NetworkConfig)
    : Derived :=
  let closMetrics := calculateClos toString config in
  let meshMetrics :=
    calculateFullMesh toString config (Some (ofZ (userCapacity closMetrics))) in
  {| closMetrics := closMetrics;
     meshMetrics := meshMetrics;
     closPowerPerPort := powerPerPort closMetrics;
     meshPowerPerPort := powerPerPort meshMetrics |}.

End App.

(** *** [src/components/MetricsChart.tsx], lines 14-63 *)

Module MetricsChart.

Record Point : Type := mkPoint {
  x : Z;
  closSwitches : Z;
  meshSwitches : Z;
  closCables : Z;
  meshCables : Z;
  closPower : Q;
  meshPower : Q;
  closPowerPerPort : Z;
  meshPowerPerPort : Z
}.

Definition minUsers : Z := 128.
Definition maxUsers : Z := 1024.
Definition step : Z := 128.

(** [m.userCapacity > 0 ? Math.round(m.totalPower / m.userCapacity) : 0] *)
Definition powerPerPort (m : TopologyMetrics) : Z :=
  if 0 <? userCapacity m
  then Math_round (fdiv (totalPower m) (inject_Z (userCapacity m)))
  else 0.

(** [clos.possible ? clos.userCapacity : u] *)
Definition targetCapacity (clos : TopologyMetrics) (u : Z) : Z :=
  if possible clos then userCapacity clos else u.

(** The body of the sweep at [u]: the points it pushes. *)
Definition pointsAt (toString : number -> string) (currentConfig : NetworkConfig)
    (u : Z) : list Point :=
  let tempConfig := withNumUsers currentConfig u in
  let clos := calculateClos toString tempConfig in
  let targetCapacity := targetCapacity clos u in
  let mesh := calculateFullMesh toString tempConfig (Some (ofZ targetCapacity)) in
  if possible clos && possible mesh then
    [ {| x := u;
         closSwitches := totalSwitches clos;
         meshSwitches := totalSwitches mesh;
         closCables := totalCables clos;
         meshCables := totalCables mesh;
         closPower := totalPower clos;
         meshPower := totalPower mesh;
         closPowerPerPort := powerPerPort clos;
         meshPowerPerPort := powerPerPort mesh |} ]
  else [].

(** [for (let u = ...; u <= maxUsers; u += step)] with [n] passes left. *)
Fixpoint sweep (toString : number -> string) (currentConfig : NetworkConfig)
    (n : nat) (u : Z) : list Point :=
  match n with
  | O => []
  | S n' =>
      if u <=? maxUsers then
        pointsAt toString currentConfig u
        ++ sweep toString currentConfig n' (u + step)
      else []
  end.

(** The sweep makes 8 passes; the ninth test of [u <= maxUsers] ends it. *)
Definition data (toString : number -> string) (currentConfig : NetworkConfig)
    : list Point :=
  sweep toString currentConfig 9 minUsers.

Module Highlight.

Record Values : Type := mkValues {
  closSwitches : Z;
  meshSwitches : Z;
  closCables : Z;
  meshCables : Z;
  closPower : Q;
  meshPower : Q;
  closPowerPerPort : Z;
  meshPowerPerPort : Z;
  possible : bool
}.

End Highlight.

Definition highlightValues (toString : number -> string)
    (currentConfig : NetworkConfig) : Highlight.Values :=
  let clos := calculateClos toString currentConfig in
  let targetCapacity := targetCapacity clos (numUsers currentConfig) in
  let mesh := calculateFullMesh toString currentConfig (Some (ofZ targetCapacity)) in
  {| Highlight.closSwitches := totalSwitches clos;
     Highlight.meshSwitches := totalSwitches mesh;
     Highlight.closCables := totalCables clos;
     Highlight.meshCables := totalCables mesh;
     Highlight.closPower := totalPower clos;
     Highlight.meshPower := totalPower mesh;
     Highlight.closPowerPerPort := powerPerPort clos;
     Highlight.meshPowerPerPort := powerPerPort mesh;
     Highlight.possible := possible clos && possible mesh |}.

End MetricsChart.

(** *** [src/types.ts]: the nodes and links of a drawing *)

Module Node.

(** ['core' | 'spine' | 'leaf' | 'mesh' | 'user'] *)
Inductive kind : Type := core | spine | leaf | mesh | user.

Record t : Type := mk {
  id : string;
  type : kind;
  x : Q;
  y : Q
}.

End Node.

Module Link.

(** ['uplink' | 'downlink' | 'peer'] *)
Inductive kind : Type := uplink | downlink | peer.

Record t : Type := mk {
  source : string;
  target : string;
  type : kind
}.

End Link.

(** *** More JavaScript arithmetic, for the drawing *)

Module JSMath.

(** [Math.min] and [Math.max] of two numbers. *)
Definition Math_min (a b : number) : number :=
  match a, b with
  | NaN, _ | _, NaN => NaN
  | NegInfinity, _ | _, NegInfinity => NegInfinity
  | Infinity, other | other, Infinity => other
  | Fin p, Fin q => Fin (Qmin p q)
  end.

Definition Math_max (a b : number) : number :=
  match a, b with
  | NaN, _ | _, NaN => NaN
  | Infinity, _ | _, Infinity => Infinity
  | NegInfinity, other | other, NegInfinity => other
  | Fin p, Fin q => Fin (Qmax p q)
  end.

(** [a * q] for a finite [q]. *)
Definition times (a : number) (q : Q) : number :=
  match a with
  | Fin p => Fin (fmul p q)
  | NaN => NaN
  | Infinity =>
      match (q ?= 0)%Q with Gt => Infinity | Lt => NegInfinity | Eq => NaN end
  | NegInfinity =>
      match (q ?= 0)%Q with Gt => NegInfinity | Lt => Infinity | Eq => NaN end
  end.

(** The double [Math.PI]. *)
Definition Math_PI : Q := 884279719003555 # 281474976710656.

(** [`${i}`] for a loop counter: its decimal digits. *)
Definition decimal (i : nat) : string := NilZero.string_of_uint (Nat.to_uint i).

(** The values of [i] in [for (let i = from; i < bound; i++)] for an
    integer bound. *)
Definition upTo (from : nat) (bound : Z) : list nat :=
  seq from (Z.to_nat bound - from).

End JSMath.

(** *** The drawing of a topology ([TopologyVisualizer], in
    [src/unnamed/part_000]) *)

Module TopologyVisualizer.

Import JSMath.

(** The [type] property: ['clos' | 'mesh']. *)
Inductive kind : Type := clos | mesh.

Record Data : Type := mkData {
  nodes : list Node.t;
  links : list Link.t;
  nodeSize : option number
}.

Definition width : Q := 400%Q.
Definition height : Q := 300%Q.

(** A destructuring default: [const { leafs = 0 } = ...]. *)
Definition orZero (field : option Z) : Z :=
  match field with
  | Some z => z
  | None => 0
  end.

Definition availableWidth : Q := fmul width (literal (9 # 10)).
Definition xOffset : Q := fmul width (literal (5 # 100)).

(** Lines 37-41. *)
Definition getX (index : nat) (total : Z) : Q :=
  if total =? 1 then fdiv width 2
  else
    let step := fdiv availableWidth (inject_Z (total - 1)) in
    fadd xOffset (fmul step (inject_Z (Z.of_nat index))).

Section Drawing.

(** [Math.cos] and [Math.sin]. *)
Variables Math_cos Math_sin : Q -> Q.

(** The Clos branch, lines 20-103. *)
Definition closData (metrics : TopologyMetrics) : Data :=
  let leafs := orZero (leafs (switchConfig metrics)) in
  let spines := orZero (spines (switchConfig metrics)) in
  let core := orZero (core (switchConfig metrics)) in
  let hasCore := 0 <? core in
  let maxRowItems := Z.max (Z.max leafs spines) core in
  let nodeSize :=
    Math_max (Fin 2%Q)
      (Math_min (Fin 16%Q)
         (times (JS.div availableWidth (inject_Z maxRowItems))
            (literal (6 # 10)))) in
  let yLeaf : Q := 260%Q in
  let ySpine : Q := if hasCore then 160%Q else 100%Q in
  let yCore : Q := 50%Q in
  let leafNodes :=
    map (fun i => Node.mk ("leaf-" ++ decimal i) Node.leaf (getX i leafs) yLeaf)
      (upTo 0 leafs) in
  let spineNodes :=
    map (fun i => Node.mk ("spine-" ++ decimal i) Node.spine (getX i spines) ySpine)
      (upTo 0 spines) in
  let coreNodes :=
    if hasCore then
      map (fun i => Node.mk ("core-" ++ decimal i) Node.core (getX i core) yCore)
        (upTo 0 core)
    else [] in
  let leafLinks :=
    flat_map (fun i =>
      map (fun j => Link.mk ("leaf-" ++ decimal i) ("spine-" ++ decimal j)
                      Link.uplink)
        (upTo 0 spines))
      (upTo 0 leafs) in
  let spineLinks :=
    if hasCore then
      flat_map (fun i =>
        map (fun j => Link.mk ("spine-" ++ decimal i) ("core-" ++ decimal j)
                        Link.uplink)
          (upTo 0 core))
        (upTo 0 spines)
    else [] in
  {| nodes := leafNodes ++ spineNodes ++ coreNodes;
     links := leafLinks ++ spineLinks;
     nodeSize := Some nodeSize |}.

(** The mesh branch, lines 107-138.  [angleStep] is only used inside
    the loop, where [meshSwitches] is positive. *)
Definition meshData (metrics : TopologyMetrics) : Data :=
  let meshSwitches := orZero (meshSwitches (switchConfig metrics)) in
  let cx := fdiv width 2 in
  let cy := fdiv height 2 in
  let radius := fmul (Qmin width height) (literal (35 # 100)) in
  let angleStep := fdiv (fmul 2 Math_PI) (inject_Z meshSwitches) in
  let nodeSize :=
    Math_max (Fin 2%Q)
      (Math_min (Fin 12%Q)
         (times (JS.div (fmul (fmul 2 Math_PI) radius) (inject_Z meshSwitches))
            (literal (6 # 10)))) in
  {| nodes :=
       map (fun i =>
              let angle :=
                fsub (fmul (inject_Z (Z.of_nat i)) angleStep) (fdiv Math_PI 2) in
              Node.mk ("sw-" ++ decimal i) Node.mesh
                (fadd cx (fmul radius (Math_cos angle)))
                (fadd cy (fmul radius (Math_sin angle))))
         (upTo 0 meshSwitches);
     links :=
       flat_map (fun i =>
         map (fun j => Link.mk ("sw-" ++ decimal i) ("sw-" ++ decimal j) Link.peer)
           (upTo (i + 1) meshSwitches))
         (upTo 0 meshSwitches);
     nodeSize := Some nodeSize |}.

(** The memoized [data], lines 13-140. *)
Definition data (metrics : TopologyMetrics) (type : kind) : Data :=
  if negb (possible metrics) then {| nodes := []; links := []; nodeSize := None |}
  else
    match type with
    | clos => closData metrics
    | mesh => meshData metrics
    end.

End Drawing.

(** [Math.max(0.2, 100 / data.links.length)], line 152. *)
Definition strokeWidth (data : Data) : number :=
  Math_max (Fin (literal (2 # 10)))
    (JS.div 100%Q (inject_Z (Z.of_nat (length (links data))))).

(** [data.nodes.find(n => n.id === id)], lines 160-161. *)
Definition findNode (data : Data) (id : string) : option Node.t :=
  find (fun n => String.eqb (Node.id n) id) (nodes data).

End TopologyVisualizer.

(** The lookups of lines 160-161 succeed for [link]: both of its ends
    are found among the nodes, under different ids. *)
Definition resolves (d : TopologyVisualizer.Data) (link : Link.t)
    (src trg : Node.t) : Prop :=
  TopologyVisualizer.findNode d (Link.source link) = Some src
  /\ TopologyVisualizer.findNode d (Link.target link) = Some trg
  /\ Node.id src = Link.source link /\ Node.id trg = Link.target link
  /\ Node.id src <> Node.id trg.

(** * Rounding to the nearest double *)

Import Binary64.

Lemma pow2_pos e : (0 < pow2 e)%Q.
Proof. apply Qpower_0_lt. reflexivity. Qed.

Lemma pow2_add a b : (pow2 (a + b) == pow2 a * pow2 b)%Q.
Proof. apply Qpower_plus. discriminate. Qed.

Lemma pow2_le a b : a <= b -> (pow2 a <= pow2 b)%Q.
Proof. intros. apply Qpower_le_compat_l; [lia | discriminate]. Qed.

Lemma pow2_lt a b : a < b -> (pow2 a < pow2 b)%Q.
Proof. intros. apply Qpower_lt_compat_l; [lia | reflexivity]. Qed.

Lemma pow2_Z n : 0 <= n -> (pow2 n == inject_Z (2 ^ n))%Q.
Proof. intros. unfold pow2. rewrite Zpower_Qpower by lia. reflexivity. Qed.

Lemma pow2_succ e : (pow2 (e + 1) == 2 * pow2 e)%Q.
Proof. rewrite pow2_add. change (pow2 1) with 2%Q. ring. Qed.

Lemma ilog2_spec a : (0 < a)%Q -> (pow2 (ilog2 a) <= a < pow2 (ilog2 a + 1))%Q.
Proof.
  intros Ha. unfold ilog2. destruct a as [n d]. cbn [Qnum Qden].
  unfold Qlt in Ha; simpl in Ha.
  assert (Hn : 0 < n) by lia.
  destruct (Z.log2_spec n Hn) as [Hn1 Hn2].
  destruct (Z.log2_spec (Zpos d) eq_refl) as [Hd1 Hd2].
  pose proof (Z.log2_nonneg n). pose proof (Z.log2_nonneg (Zpos d)).
  set (ln := Z.log2 n) in *. set (ld := Z.log2 (Zpos d)) in *.
  assert (Dpos : (0 < inject_Z (Zpos d))%Q) by reflexivity.
  rewrite Zle_Qle, <- pow2_Z in Hn1, Hd1 by lia.
  rewrite Zlt_Qlt, <- pow2_Z in Hn2, Hd2 by lia.
  assert (Hk : (pow2 (ln - ld - 1) <= n # d < pow2 (ln - ld + 1))%Q).
  { rewrite (Qmake_Qdiv n d). split.
    - apply Qle_shift_div_l; trivial.
      apply Qle_trans with (pow2 (ln - ld - 1) * pow2 (Z.succ ld))%Q.
      + apply Qmult_le_l; [apply pow2_pos | apply Qlt_le_weak, Hd2].
      + rewrite <- pow2_add. replace (ln - ld - 1 + Z.succ ld) with ln by lia.
        exact Hn1.
    - apply Qlt_shift_div_r; trivial.
      apply Qlt_le_trans with (pow2 (ln - ld + 1) * pow2 ld)%Q.
      + rewrite <- pow2_add. replace (ln - ld + 1 + ld) with (Z.succ ln) by lia.
        exact Hn2.
      + apply Qmult_le_l; [apply pow2_pos | exact Hd1]. }
  destruct (Qle_bool (pow2 (ln - ld)) (n # d)) eqn:E.
  - apply Qle_bool_iff in E. tauto.
  - replace (ln - ld - 1 + 1) with (ln - ld) by lia. split; [tauto|].
    apply Qnot_le_lt. intros C. apply Qle_bool_iff in C. congruence.
Qed.

Lemma ilog2_unique a e :
  (pow2 e <= a < pow2 (e + 1))%Q -> ilog2 a = e.
Proof.
  intros [H1 H2].
  assert (Ha : (0 < a)%Q) by (eapply Qlt_le_trans; [apply (pow2_pos e) | exact H1]).
  destruct (ilog2_spec a Ha) as [G1 G2].
  destruct (Z.lt_trichotomy (ilog2 a) e) as [L | [L | L]]; trivial; exfalso.
  - assert (pow2 (ilog2 a + 1) <= pow2 e)%Q by (apply pow2_le; lia). lra.
  - assert (pow2 (e + 1) <= pow2 (ilog2 a))%Q by (apply pow2_le; lia). lra.
Qed.

Lemma nearestEven_cases q :
  let f := Qfloor q in
  (inject_Z f <= q < inject_Z f + 1)%Q /\
  ((q - inject_Z f < 1 # 2)%Q /\ nearestEven q = f
   \/ (1 # 2 < q - inject_Z f)%Q /\ nearestEven q = f + 1
   \/ (q - inject_Z f == 1 # 2)%Q /\ Z.even (nearestEven q) = true
      /\ (nearestEven q = f \/ nearestEven q = f + 1)).
Proof.
  intros f. split.
  - pose proof (Qfloor_le q). pose proof (Qlt_floor q).
    rewrite inject_Z_plus in *. split; trivial.
  - unfold nearestEven. fold f.
    destruct (Qcompare_spec (q - inject_Z f) (1 # 2)) as [E | L | G]; auto.
    right; right. split; trivial.
    destruct (Z.even f) eqn:Ev; [auto|].
    split; [|auto]. rewrite Z.even_add, Ev. reflexivity.
Qed.

Lemma nearestEven_bounds q :
  (q - (1 # 2) <= inject_Z (nearestEven q) <= q + (1 # 2))%Q.
Proof.
  destruct (nearestEven_cases q) as [[F1 F2] C]. cbv zeta in *.
  destruct C as [[L E] | [[L E] | [L [_ [E | E]]]]];
    rewrite E, ?inject_Z_plus; change (inject_Z 1) with 1%Q; split; lra.
Qed.

Lemma nearestEven_comp q q' : (q == q')%Q -> nearestEven q = nearestEven q'.
Proof.
  intros E. unfold nearestEven.
  rewrite (Qfloor_comp _ _ E).
  assert (C : (q - inject_Z (Qfloor q') ?= 1 # 2)%Q
              = (q' - inject_Z (Qfloor q') ?= 1 # 2)%Q) by (rewrite E; reflexivity).
  rewrite C. reflexivity.
Qed.

Lemma nearestEven_Z z : nearestEven (inject_Z z) = z.
Proof.
  unfold nearestEven. rewrite Qfloor_Z.
  destruct (Qcompare_spec (inject_Z z - inject_Z z) (1 # 2)); trivial; exfalso; lra.
Qed.

Lemma nearestEven_mono q q' : (q <= q')%Q -> nearestEven q <= nearestEven q'.
Proof.
  intros L.
  pose proof (Qfloor_resp_le _ _ L) as Hf.
  destruct (nearestEven_cases q) as [[F1 F2] C].
  destruct (nearestEven_cases q') as [[F1' F2'] C'].
  cbv zeta in *.
  destruct (Z.eq_dec (Qfloor q) (Qfloor q')) as [E | N].
  - rewrite E in *.
    destruct C as [[A B] | [[A B] | [A [Ev [B | B]]]]];
    destruct C' as [[A' B'] | [[A' B'] | [A' [Ev' [B' | B']]]]];
    rewrite ?B, ?B'; try lia; try (exfalso; lra).
    rewrite B in Ev. rewrite B' in Ev'. rewrite Z.even_add in Ev.
    rewrite Ev' in Ev. discriminate.
  - assert (nearestEven q <= Qfloor q + 1) by
      (destruct C as [[A B] | [[A B] | [A [Ev [B | B]]]]]; lia).
    assert (Qfloor q' <= nearestEven q') by
      (destruct C' as [[A B] | [[A B] | [A [Ev [B | B]]]]]; lia).
    lia.
Qed.

Lemma nearestEven_int q z : (q == inject_Z z)%Q -> nearestEven q = z.
Proof. intros E. rewrite (nearestEven_comp _ _ E). apply nearestEven_Z. Qed.

Lemma mantissa_range a e :
  (pow2 e <= a < pow2 (e + 1))%Q ->
  (pow2 52 <= a / pow2 (e - 52) < pow2 53)%Q.
Proof.
  intros [H1 H2]. pose proof (pow2_pos (e - 52)).
  split.
  - apply Qle_shift_div_l; trivial. rewrite <- pow2_add.
    replace (52 + (e - 52)) with e by lia. trivial.
  - apply Qlt_shift_div_r; trivial. rewrite <- pow2_add.
    replace (53 + (e - 52)) with (e + 1) by lia. trivial.
Qed.

Lemma roundPos_eq a e :
  (pow2 e <= a < pow2 (e + 1))%Q ->
  roundPos a = (inject_Z (nearestEven (a / pow2 (e - 52))) * pow2 (e - 52))%Q.
Proof. intros H. unfold roundPos. rewrite (ilog2_unique a e H). reflexivity. Qed.

Lemma roundPos_mantissa a e :
  (pow2 e <= a < pow2 (e + 1))%Q ->
  2 ^ 52 <= nearestEven (a / pow2 (e - 52)) <= 2 ^ 53.
Proof.
  intros H. destruct (mantissa_range a e H) as [M1 M2].
  rewrite (pow2_Z 52) in M1 by lia. rewrite (pow2_Z 53) in M2 by lia.
  apply nearestEven_mono in M1. apply Qlt_le_weak, nearestEven_mono in M2.
  rewrite nearestEven_Z in M1, M2. lia.
Qed.

Lemma roundPos_error a e :
  (pow2 e <= a < pow2 (e + 1))%Q ->
  (a - pow2 (e - 53) <= roundPos a <= a + pow2 (e - 53))%Q.
Proof.
  intros H. rewrite (roundPos_eq a e H).
  destruct (nearestEven_bounds (a / pow2 (e - 52))) as [B1 B2].
  pose proof (pow2_pos (e - 52)) as P.
  assert (E : (pow2 (e - 52) == 2 * pow2 (e - 53))%Q).
  { rewrite <- pow2_succ. replace (e - 53 + 1) with (e - 52) by lia. reflexivity. }
  set (u := pow2 (e - 52)) in *. set (z := inject_Z (nearestEven (a / u))) in *.
  assert (L1 : ((a / u - (1 # 2)) * u <= z * u)%Q) by (apply Qmult_le_compat_r; lra).
  assert (L2 : (z * u <= (a / u + (1 # 2)) * u)%Q) by (apply Qmult_le_compat_r; lra).
  assert (E1 : ((a / u - (1 # 2)) * u == a - (1 # 2) * u)%Q) by (field; lra).
  assert (E2 : ((a / u + (1 # 2)) * u == a + (1 # 2) * u)%Q) by (field; lra).
  rewrite E1 in L1. rewrite E2 in L2. lra.
Qed.

Lemma roundPos_binade a e :
  (pow2 e <= a < pow2 (e + 1))%Q -> (pow2 e <= roundPos a <= pow2 (e + 1))%Q.
Proof.
  intros H. rewrite (roundPos_eq a e H).
  destruct (roundPos_mantissa a e H) as [M1 M2].
  rewrite Zle_Qle, <- pow2_Z in M1, M2 by lia.
  pose proof (pow2_pos (e - 52)) as P.
  split.
  - replace e with (52 + (e - 52)) at 1 by lia. rewrite pow2_add.
    apply Qmult_le_compat_r; lra.
  - replace (e + 1) with (53 + (e - 52)) by lia. rewrite pow2_add.
    apply Qmult_le_compat_r; lra.
Qed.

Lemma roundPos_comp a a' : (0 < a)%Q -> (a == a')%Q -> (roundPos a == roundPos a')%Q.
Proof.
  intros Ha E. pose proof (ilog2_spec a Ha) as H.
  rewrite (roundPos_eq a _ H).
  assert (H' : (pow2 (ilog2 a) <= a' < pow2 (ilog2 a + 1))%Q) by (rewrite <- E; exact H).
  rewrite (roundPos_eq a' _ H').
  rewrite (nearestEven_comp (a / pow2 (ilog2 a - 52)) (a' / pow2 (ilog2 a - 52))).
  - reflexivity.
  - apply Qdiv_comp; [exact E | reflexivity].
Qed.

Lemma roundPos_mono a b : (0 < a)%Q -> (a <= b)%Q -> (roundPos a <= roundPos b)%Q.
Proof.
  intros Ha L. assert (Hb : (0 < b)%Q) by lra.
  pose proof (ilog2_spec a Ha) as Sa. pose proof (ilog2_spec b Hb) as Sb.
  destruct (Z.lt_trichotomy (ilog2 a) (ilog2 b)) as [C | [C | C]].
  - destruct (roundPos_binade a _ Sa) as [_ A]. destruct (roundPos_binade b _ Sb) as [B _].
    assert (pow2 (ilog2 a + 1) <= pow2 (ilog2 b))%Q by (apply pow2_le; lia). lra.
  - rewrite (roundPos_eq a _ Sa), (roundPos_eq b _ Sb), C.
    apply Qmult_le_compat_r; [|apply Qlt_le_weak, pow2_pos].
    rewrite <- Zle_Qle. apply nearestEven_mono.
    apply Qmult_le_compat_r; [exact L|].
    apply Qlt_le_weak, Qinv_lt_0_compat, pow2_pos.
  - exfalso. assert (pow2 (ilog2 b + 1) <= pow2 (ilog2 a))%Q by (apply pow2_le; lia). lra.
Qed.

Lemma roundPos_pos a : (0 < a)%Q -> (0 < roundPos a)%Q.
Proof.
  intros Ha. destruct (roundPos_binade a _ (ilog2_spec a Ha)) as [B _].
  pose proof (pow2_pos (ilog2 a)). lra.
Qed.

Lemma round_pos x : (0 < x)%Q -> round x = roundPos x.
Proof.
  intros H. unfold round. destruct (Qcompare_spec x 0); trivial; exfalso; lra.
Qed.

Lemma round_neg x : (x < 0)%Q -> round x = (- roundPos (- x))%Q.
Proof.
  intros H. unfold round. destruct (Qcompare_spec x 0); trivial; exfalso; lra.
Qed.

Lemma round_zero x : (x == 0)%Q -> round x = 0%Q.
Proof.
  intros H. unfold round. destruct (Qcompare_spec x 0); trivial; exfalso; lra.
Qed.

Lemma round_comp x y : (x == y)%Q -> (round x == round y)%Q.
Proof.
  intros E. destruct (Qlt_le_dec 0 x) as [P | N].
  - rewrite (round_pos x P), (round_pos y) by lra. apply roundPos_comp; trivial.
  - destruct (Qlt_le_dec x 0) as [P' | N'].
    + rewrite (round_neg x P'), (round_neg y) by lra.
      apply Qopp_comp, roundPos_comp; lra.
    + rewrite (round_zero x), (round_zero y) by lra. reflexivity.
Qed.

#[global] Instance round_Proper : Proper (Qeq ==> Qeq) round.
Proof. exact round_comp. Qed.

Lemma round_opp x : (round (- x) == - round x)%Q.
Proof.
  destruct (Qlt_le_dec 0 x) as [P | N].
  - rewrite (round_pos x P), (round_neg (- x)) by lra.
    apply Qopp_comp, roundPos_comp; lra.
  - destruct (Qlt_le_dec x 0) as [P' | N'].
    + rewrite (round_neg x P'), (round_pos (- x)) by lra. ring.
    + rewrite (round_zero x), (round_zero (- x)) by lra. reflexivity.
Qed.

Lemma round_mono x y : (x <= y)%Q -> (round x <= round y)%Q.
Proof.
  intros L. destruct (Qlt_le_dec 0 x) as [P | N].
  - rewrite (round_pos x P), (round_pos y) by lra. apply roundPos_mono; trivial.
  - destruct (Qlt_le_dec x 0) as [P' | N'].
    + rewrite (round_neg x P').
      pose proof (roundPos_pos (- x)) as Px.
      destruct (Qlt_le_dec 0 y) as [Q | Q].
      * rewrite (round_pos y Q). pose proof (roundPos_pos y Q). lra.
      * destruct (Qlt_le_dec y 0) as [Q' | Q'].
        -- rewrite (round_neg y Q').
           assert (roundPos (- y) <= roundPos (- x))%Q by (apply roundPos_mono; lra). lra.
        -- rewrite (round_zero y) by lra. lra.
    + rewrite (round_zero x) by lra.
      destruct (Qlt_le_dec 0 y) as [Q | Q].
      * rewrite (round_pos y Q). pose proof (roundPos_pos y Q). lra.
      * rewrite (round_zero y) by lra. lra.
Qed.

Lemma round_nonneg x : (0 <= x)%Q -> (0 <= round x)%Q.
Proof. intros H. apply round_mono in H. rewrite (round_zero 0) in H; lra. Qed.

(** Relative error: half a unit in the last place. *)
Lemma roundPos_relative a :
  (0 < a)%Q -> (a - a * eps <= roundPos a <= a + a * eps)%Q.
Proof.
  intros Ha. pose proof (ilog2_spec a Ha) as S.
  pose proof (roundPos_error a _ S) as [E1 E2].
  assert (E : (pow2 (ilog2 a - 53) == pow2 (ilog2 a) * eps)%Q).
  { unfold eps. rewrite <- pow2_add. reflexivity. }
  assert (pow2 (ilog2 a) * eps <= a * eps)%Q
    by (apply Qmult_le_compat_r; [tauto | apply Qlt_le_weak, pow2_pos]).
  rewrite E in *. lra.
Qed.

Lemma round_relative x :
  (0 <= x)%Q -> (x - x * eps <= round x <= x + x * eps)%Q.
Proof.
  intros H. destruct (Qlt_le_dec 0 x) as [P | N].
  - rewrite (round_pos x P). apply roundPos_relative, P.
  - rewrite (round_zero x) by lra. assert (x == 0)%Q by lra.
    assert (x * eps == 0)%Q by (rewrite H0; ring). lra.
Qed.

Lemma round_relative_abs x : (Qabs (round x - x) <= eps * Qabs x)%Q.
Proof.
  apply Qabs_Qle_condition.
  destruct (Qlt_le_dec x 0) as [N | P].
  - assert (Hn : (0 <= - x)%Q) by lra.
    pose proof (round_relative (- x) Hn) as R.
    rewrite round_opp in R. rewrite (Qabs_neg x) by lra. lra.
  - pose proof (round_relative x P) as R. rewrite (Qabs_pos x P). lra.
Qed.

(** Absolute error below a bound. *)
Lemma round_within x M :
  (0 <= x <= M)%Q -> (x - M * eps <= round x <= x + M * eps)%Q.
Proof.
  intros [H1 H2]. pose proof (round_relative x H1).
  assert (x * eps <= M * eps)%Q
    by (apply Qmult_le_compat_r; [trivial | apply Qlt_le_weak, pow2_pos]).
  lra.
Qed.

(** Values with a 53-bit mantissa are reproduced. *)
Lemma roundPos_exact_lt m t :
  0 < m < 2 ^ 53 -> (roundPos (inject_Z m * pow2 t) == inject_Z m * pow2 t)%Q.
Proof.
  intros [Hm1 Hm2].
  destruct (Z.log2_spec m Hm1) as [L1 L2].
  pose proof (Z.log2_nonneg m) as L0.
  set (lm := Z.log2 m) in *.
  assert (Hlm : lm < 53) by (apply (Z.pow_lt_mono_r_iff 2); lia).
  rewrite Zle_Qle, <- pow2_Z in L1 by lia.
  rewrite Zlt_Qlt, <- pow2_Z in L2 by lia.
  pose proof (pow2_pos t) as Pt.
  assert (B : (pow2 (lm + t) <= inject_Z m * pow2 t < pow2 (lm + t + 1))%Q).
  { replace (lm + t + 1) with (Z.succ lm + t) by lia. rewrite !pow2_add. split.
    - apply Qmult_le_compat_r; lra.
    - apply Qmult_lt_compat_r; lra. }
  rewrite (roundPos_eq _ _ B).
  pose proof (pow2_pos (lm + t - 52)) as Pu.
  assert (Q : (inject_Z m * pow2 t / pow2 (lm + t - 52)
               == inject_Z (m * 2 ^ (52 - lm)))%Q).
  { rewrite inject_Z_mult, <- pow2_Z by lia.
    replace t with ((lm + t - 52) + (52 - lm)) at 1 by lia.
    rewrite (pow2_add (lm + t - 52) (52 - lm)). field. lra. }
  rewrite (nearestEven_int _ _ Q).
  rewrite inject_Z_mult, <- pow2_Z by lia.
  replace t with ((lm + t - 52) + (52 - lm)) at 2 by lia.
  rewrite (pow2_add (lm + t - 52) (52 - lm)). ring.
Qed.

Lemma roundPos_exact m t :
  0 < m <= 2 ^ 53 -> (roundPos (inject_Z m * pow2 t) == inject_Z m * pow2 t)%Q.
Proof.
  intros [Hm1 Hm2]. destruct (Z.eq_dec m (2 ^ 53)) as [E | N].
  - subst m. pose proof (pow2_pos t). pose proof (pow2_pos (53 + t)).
    assert (E : (inject_Z (2 ^ 53) * pow2 t == inject_Z 1 * pow2 (53 + t))%Q).
    { rewrite pow2_add, <- pow2_Z by lia. change (inject_Z 1) with 1%Q. ring. }
    assert (P : (0 < inject_Z (2 ^ 53) * pow2 t)%Q)
      by (rewrite E; change (inject_Z 1) with 1%Q; lra).
    rewrite (roundPos_comp _ _ P E).
    rewrite roundPos_exact_lt by lia. symmetry. exact E.
  - apply roundPos_exact_lt. lia.
Qed.

Lemma round_exact m t :
  Z.abs m <= 2 ^ 53 -> (round (inject_Z m * pow2 t) == inject_Z m * pow2 t)%Q.
Proof.
  intros Hm. pose proof (pow2_pos t) as Pt.
  destruct (Z.lt_trichotomy m 0) as [L | [L | L]].
  - assert (Lq : (inject_Z m < 0)%Q) by (rewrite Zlt_Qlt in L; exact L).
    assert (N : (inject_Z m * pow2 t < 0)%Q) by nra.
    rewrite (round_neg _ N).
    assert (E : (- (inject_Z m * pow2 t) == inject_Z (- m) * pow2 t)%Q)
      by (rewrite inject_Z_opp; ring).
    assert (P : (0 < - (inject_Z m * pow2 t))%Q) by lra.
    rewrite (roundPos_comp _ _ P E), roundPos_exact by lia.
    rewrite inject_Z_opp. ring.
  - subst m. rewrite round_zero; [ring | ring].
  - assert (Lq : (0 < inject_Z m)%Q) by (rewrite Zlt_Qlt in L; exact L).
    assert (P : (0 < inject_Z m * pow2 t)%Q) by nra.
    rewrite (round_pos _ P). apply roundPos_exact. lia.
Qed.

Lemma round_Z m : Z.abs m <= 2 ^ 53 -> (round (inject_Z m) == inject_Z m)%Q.
Proof.
  intros Hm. pose proof (round_exact m 0 Hm) as E.
  change (pow2 0) with 1%Q in E. rewrite Qmult_1_r in E. exact E.
Qed.

(** Rounding does not cross an integer that doubles represent. *)
Lemma round_le_Z x z :
  Z.abs z <= 2 ^ 53 -> (x <= inject_Z z)%Q -> (round x <= inject_Z z)%Q.
Proof.
  intros Hz Hx. apply round_mono in Hx. rewrite round_Z in Hx; trivial.
Qed.

Lemma round_ge_Z x z :
  Z.abs z <= 2 ^ 53 -> (inject_Z z <= x)%Q -> (inject_Z z <= round x)%Q.
Proof.
  intros Hz Hx. apply round_mono in Hx. rewrite round_Z in Hx; trivial.
Qed.

(** [round _ <= z] or [z <= round _] for an integer numeral [z]. *)
Ltac round_bound z :=
  first [apply (round_ge_Z _ z) | apply (round_le_Z _ z)];
  [simpl; lia | change (inject_Z z) with (z # 1)%Q; lra].

Lemma round_idem x : (round (round x) == round x)%Q.
Proof.
  assert (P : forall a, (0 < a)%Q -> (round (roundPos a) == roundPos a)%Q).
  { intros a Ha. pose proof (ilog2_spec a Ha) as S.
    rewrite (roundPos_eq a _ S).
    apply round_exact. pose proof (roundPos_mantissa a _ S). lia. }
  destruct (Qlt_le_dec 0 x) as [H | H].
  - rewrite (round_pos x H). apply P, H.
  - destruct (Qlt_le_dec x 0) as [H' | H'].
    + rewrite (round_neg x H'), round_opp, P by lra. reflexivity.
    + rewrite (round_zero x) by lra. rewrite round_zero; reflexivity.
Qed.

(** Just above a power of two the value rounds down to it. *)
Lemma round_above_pow2 y k :
  (pow2 k <= y <= pow2 k + pow2 (k - 53))%Q -> (round y == pow2 k)%Q.
Proof.
  intros [H1 H2]. pose proof (pow2_pos k) as Pk.
  assert (E53 : (pow2 k == pow2 53 * pow2 (k - 53))%Q)
    by (rewrite <- pow2_add; replace (53 + (k - 53)) with k by lia; reflexivity).
  assert (E52 : (pow2 (k - 52) == 2 * pow2 (k - 53))%Q)
    by (rewrite <- pow2_succ; replace (k - 53 + 1) with (k - 52) by lia; reflexivity).
  pose proof (pow2_pos (k - 53)) as P53. pose proof (pow2_pos (k - 52)) as P52.
  assert (B : (pow2 k <= y < pow2 (k + 1))%Q).
  { split; trivial. rewrite pow2_succ. rewrite (pow2_Z 53) in E53 by lia.
    change (inject_Z (2 ^ 53)) with 9007199254740992%Q in E53. lra. }
  rewrite round_pos by lra. rewrite (roundPos_eq y k B).
  set (q := (y / pow2 (k - 52))%Q).
  assert (Hq : (inject_Z (2 ^ 52) <= q <= inject_Z (2 ^ 52) + (1 # 2))%Q).
  { rewrite <- pow2_Z by lia. unfold q. split.
    - apply Qle_shift_div_l; trivial. rewrite <- pow2_add.
      replace (52 + (k - 52)) with k by lia. trivial.
    - apply Qle_shift_div_r; trivial.
      assert (E : ((pow2 52 + (1 # 2)) * pow2 (k - 52) == pow2 k + pow2 (k - 53))%Q).
      { rewrite Qmult_plus_distr_l, <- pow2_add.
        replace (52 + (k - 52)) with k by lia. rewrite E52. ring. }
      rewrite E. exact H2. }
  assert (Hz : nearestEven q = 2 ^ 52).
  { destruct (nearestEven_cases q) as [[F1 F2] C]. cbv zeta in *.
    assert (Hf : Qfloor q = 2 ^ 52).
    { assert (2 ^ 52 <= Qfloor q)
        by (rewrite <- (Qfloor_Z (2 ^ 52)); apply Qfloor_resp_le; tauto).
      assert (Qfloor q < 2 ^ 52 + 1).
      { rewrite Zlt_Qlt, inject_Z_plus. change (inject_Z 1) with 1%Q. lra. }
      lia. }
    rewrite Hf in *.
    destruct C as [[A B'] | [[A B'] | [A [Ev [B' | B']]]]]; trivial.
    - exfalso. lra.
    - rewrite B' in Ev. discriminate Ev. }
  rewrite Hz, <- pow2_Z, <- pow2_add by lia.
  replace (52 + (k - 52)) with k by lia. reflexivity.
Qed.

Lemma round_binade x e :
  (pow2 e <= x <= pow2 (e + 1))%Q ->
  (x - pow2 (e - 53) <= round x <= x + pow2 (e - 53))%Q.
Proof.
  intros [H1 H2]. pose proof (pow2_pos e). pose proof (pow2_pos (e - 53)).
  destruct (Qlt_le_dec x (pow2 (e + 1))) as [L | G].
  - rewrite (round_pos x) by lra. apply roundPos_error. tauto.
  - assert (Ex : (x == inject_Z 1 * pow2 (e + 1))%Q)
      by (change (inject_Z 1) with 1%Q; lra).
    rewrite (round_comp _ _ Ex), round_exact by (simpl; lia). lra.
Qed.

(** * Arithmetic of floors and ceilings *)

Lemma Qceiling_ceilDiv (a b : Z) :
  Qceiling (inject_Z a / inject_Z b) = ceilDiv a b.
Proof.
  unfold Qceiling, ceilDiv. f_equal. rewrite Zdiv_Qdiv.
  apply Qfloor_comp. rewrite inject_Z_opp. unfold Qdiv. ring.
Qed.

Lemma Qfloor_half (a : Z) : Qfloor (inject_Z a / 2) = a / 2.
Proof. symmetry. exact (Zdiv_Qdiv a 2). Qed.

Lemma ceilDiv_bounds (a b : Z) :
  0 < b -> (ceilDiv a b - 1) * b < a <= ceilDiv a b * b.
Proof.
  intros Hb. unfold ceilDiv.
  pose proof (Z.mul_div_le (- a) b Hb).
  pose proof (Z.mul_succ_div_gt (- a) b Hb).
  nia.
Qed.

Lemma ceilDiv_le (a b c : Z) : 0 < b -> (ceilDiv a b <= c <-> a <= c * b).
Proof.
  intros Hb. pose proof (ceilDiv_bounds a b Hb). split; intros; nia.
Qed.

Lemma ceilDiv_mono (a a' b : Z) : 0 < b -> a <= a' -> ceilDiv a b <= ceilDiv a' b.
Proof.
  intros Hb Ha. apply ceilDiv_le; trivial.
  pose proof (ceilDiv_bounds a' b Hb). lia.
Qed.

Lemma ceilDiv_pos (a b : Z) : 0 < b -> 0 < a -> 0 < ceilDiv a b.
Proof.
  intros Hb Ha. pose proof (ceilDiv_bounds a b Hb). nia.
Qed.

(** [s * (s - 1) / 2] is an exact division: the integer quotient of the
    embedding is the value the source computes. *)
Lemma mesh_pairs_exact (s : Z) : 2 * (s * (s - 1) / 2) = s * (s - 1).
Proof.
  destruct (Z.Even_or_Odd s) as [[k Hk]|[k Hk]]; subst s.
  - replace (2 * k * (2 * k - 1)) with (k * (2 * k - 1) * 2) by ring.
    rewrite Z.div_mul by lia. ring.
  - replace ((2 * k + 1) * (2 * k + 1 - 1)) with ((2 * k + 1) * k * 2) by ring.
    rewrite Z.div_mul by lia. ring.
Qed.

Lemma Qltb_lt (a b : Q) : Qltb a b = true <-> (a < b)%Q.
Proof.
  unfold Qltb. rewrite negb_true_iff, <- not_true_iff_false, Qle_bool_iff.
  split; [apply Qnot_le_lt | apply Qlt_not_le].
Qed.

Lemma Qltb_ge (a b : Q) : Qltb a b = false <-> (b <= a)%Q.
Proof.
  unfold Qltb. rewrite negb_false_iff. apply Qle_bool_iff.
Qed.

Lemma toFixed2_comp (x y : Q) : (x == y)%Q -> (toFixed2 x == toFixed2 y)%Q.
Proof.
  intros E. unfold toFixed2, Qltb.
  assert (Ef : Qfloor (Qabs x * 100 + (1 # 2)) = Qfloor (Qabs y * 100 + (1 # 2)))
    by (apply Qfloor_comp; rewrite E; reflexivity).
  rewrite <- Ef.
  assert (Eb : Qle_bool (inject_Z (10 ^ 21)) (Qabs x)
               = Qle_bool (inject_Z (10 ^ 21)) (Qabs y))
    by (rewrite E; reflexivity).
  assert (Es : Qle_bool 0 x = Qle_bool 0 y) by (rewrite E; reflexivity).
  rewrite <- Eb, <- Es.
  destruct (Qle_bool (inject_Z (10 ^ 21)) (Qabs x)); trivial.
  reflexivity.
Qed.

(** The unit roundoff as a numeral, for linear arithmetic. *)
Lemma eps_value : (eps == 1 # 9007199254740992)%Q.
Proof. reflexivity. Qed.

Lemma hundredths_near (x : Q) :
  (x - (1 # 200) <= hundredths x <= x + (1 # 200))%Q.
Proof.
  unfold hundredths.
  pose proof (Qfloor_le (x * 100 + (1 # 2))) as Hfl.
  pose proof (Qlt_floor (x * 100 + (1 # 2))) as Hlt.
  rewrite inject_Z_plus in Hlt. change (inject_Z 1) with 1%Q in Hlt.
  set (n := inject_Z (Qfloor (x * 100 + (1 # 2)))) in *.
  assert (En : (n / 100 == n * (1 # 100))%Q) by (unfold Qdiv; reflexivity).
  rewrite En. split; lra.
Qed.

(** Between two integers, the hundredth stays between them. *)
Lemma hundredths_between (x : Q) (a b : Z) :
  (inject_Z a <= x <= inject_Z b)%Q ->
  (inject_Z a <= hundredths x <= inject_Z b)%Q.
Proof.
  intros [Hlo Hhi]. unfold hundredths.
  assert (Hna : 100 * a <= Qfloor (x * 100 + (1 # 2))).
  { rewrite <- (Qfloor_Z (100 * a)). apply Qfloor_resp_le.
    rewrite inject_Z_mult. change (inject_Z 100) with 100%Q. lra. }
  assert (Hnb : Qfloor (x * 100 + (1 # 2)) <= 100 * b).
  { assert (Hlt : (inject_Z (Qfloor (x * 100 + (1 # 2))) < inject_Z (100 * b + 1))%Q).
    { eapply Qle_lt_trans; [apply Qfloor_le|].
      rewrite inject_Z_plus, inject_Z_mult.
      change (inject_Z 100) with 100%Q. change (inject_Z 1) with 1%Q. lra. }
    rewrite <- Zlt_Qlt in Hlt. lia. }
  rewrite Zle_Qle, inject_Z_mult in Hna, Hnb.
  change (inject_Z 100) with 100%Q in Hna, Hnb.
  set (n := inject_Z (Qfloor (x * 100 + (1 # 2)))) in *.
  assert (En : (n / 100 == n * (1 # 100))%Q) by (unfold Qdiv; reflexivity).
  rewrite En. lra.
Qed.

(** Below [10^21], [toFixed2] reads back the nearest hundredth. *)
Lemma toFixed2_hundredths (x : Q) :
  (0 <= x)%Q -> (x < inject_Z (10 ^ 21))%Q ->
  toFixed2 x = literal (hundredths x).
Proof.
  intros H0 Hbig. unfold toFixed2. cbv zeta.
  assert (E1 : Qle_bool (inject_Z (10 ^ 21)) (Qabs x) = false).
  { destruct (Qle_bool (inject_Z (10 ^ 21)) (Qabs x)) eqn:E; trivial.
    apply Qle_bool_iff in E. rewrite (Qabs_pos x H0) in E.
    exfalso. exact (Qlt_not_le _ _ Hbig E). }
  assert (E2 : Qltb x 0 = false) by (apply Qltb_ge; exact H0).
  rewrite E1, E2. unfold hundredths, literal.
  apply f_equal. f_equal. f_equal. apply Qfloor_comp.
  rewrite (Qabs_pos x H0). reflexivity.
Qed.

(** Between two integers that doubles represent, [toFixed2] stays
    between them. *)
Lemma toFixed2_between (x : Q) (a b : Z) :
  0 <= a -> b <= 2 ^ 53 -> (inject_Z a <= x <= inject_Z b)%Q ->
  (inject_Z a <= toFixed2 x <= inject_Z b)%Q.
Proof.
  intros Ha Hb Hx.
  assert (H0 : (0 <= inject_Z a)%Q)
    by (change 0%Q with (inject_Z 0); rewrite <- Zle_Qle; exact Ha).
  assert (Hab : (inject_Z a <= inject_Z b)%Q) by lra.
  rewrite <- Zle_Qle in Hab.
  assert (Hbig : (inject_Z b < inject_Z (10 ^ 21))%Q) by (rewrite <- Zlt_Qlt; lia).
  rewrite toFixed2_hundredths by lra. unfold literal.
  destruct (hundredths_between x a b Hx) as [Hlo Hhi].
  apply round_mono in Hlo. apply round_mono in Hhi.
  rewrite round_Z in Hlo by lia. rewrite round_Z in Hhi by lia.
  split; assumption.
Qed.

Lemma toFixed2_two : (toFixed2 2 == 2)%Q.
Proof. vm_compute. reflexivity. Qed.

(** * The Clos sizer *)

Section ClosProperties.

Variable toString : number -> string.

Lemma userPortsPerLeaf_half (config : NetworkConfig) :
  userPortsPerLeaf config = radix config / 2.
Proof. apply Qfloor_half. Qed.

Lemma numLeafs_ceilDiv (config : NetworkConfig) :
  numLeafs config = ceilDiv (numUsers config) (radix config / 2).
Proof.
  unfold numLeafs. rewrite userPortsPerLeaf_half. apply Qceiling_ceilDiv.
Qed.

Lemma upperTier_ceilDiv (config : NetworkConfig) (uplinks : Z) :
  upperTier config uplinks = ceilDiv uplinks (radix config).
Proof. apply Qceiling_ceilDiv. Qed.

Lemma userPortsPerLeaf_pos (config : NetworkConfig) :
  2 <= radix config -> 1 <= userPortsPerLeaf config <= radix config.
Proof.
  intros Hr. rewrite userPortsPerLeaf_half.
  pose proof (Z.mul_div_le (radix config) 2 eq_refl).
  pose proof (Z.mul_succ_div_gt (radix config) 2 eq_refl). lia.
Qed.

(** The early return guards a non-negative radix below 2. *)
Lemma userPortsPerLeaf_guard (config : NetworkConfig) :
  0 <= radix config -> userPortsPerLeaf config <> 0 -> 2 <= radix config.
Proof.
  rewrite userPortsPerLeaf_half. intros H0 Hne.
  destruct (Z_lt_le_dec (radix config) 2) as [Hlt|]; trivial.
  exfalso. apply Hne. apply Z.div_small. lia.
Qed.

Lemma numLeafs_covers (config : NetworkConfig) :
  2 <= radix config ->
  numUsers config <= numLeafs config * userPortsPerLeaf config.
Proof.
  intros Hr. pose proof (userPortsPerLeaf_pos config Hr) as Hu.
  rewrite numLeafs_ceilDiv, userPortsPerLeaf_half in *.
  apply (ceilDiv_bounds (numUsers config) (radix config / 2)). lia.
Qed.

Lemma numLeafs_pos (config : NetworkConfig) :
  2 <= radix config -> 1 <= numUsers config -> 1 <= numLeafs config.
Proof.
  intros Hr Hn. pose proof (userPortsPerLeaf_pos config Hr) as Hu.
  rewrite numLeafs_ceilDiv. rewrite userPortsPerLeaf_half in Hu.
  pose proof (ceilDiv_pos (numUsers config) (radix config / 2)). lia.
Qed.

Lemma numLeafs_mono (config : NetworkConfig) (u' : Z) :
  2 <= radix config -> numUsers config <= u' ->
  numLeafs config <= numLeafs (withNumUsers config u').
Proof.
  intros Hr Hn. pose proof (userPortsPerLeaf_pos config Hr) as Hu.
  rewrite userPortsPerLeaf_half in Hu.
  rewrite !numLeafs_ceilDiv. simpl. apply ceilDiv_mono; lia.
Qed.

Lemma maxUsers3Tier_ge (config : NetworkConfig) (n : Z) :
  (inject_Z n <= maxUsers3Tier config)%Q <-> 4 * n <= radix config ^ 3.
Proof.
  replace (radix config ^ 3) with (radix config * radix config * radix config)
    by ring.
  unfold maxUsers3Tier, Qle, Qdiv, Qmult, Qinv.
  cbn [Qnum Qden inject_Z Pos.mul]. lia.
Qed.

(** The three ways through [calculateClos] after the radix guard. *)
Ltac clos_paths config :=
  let Hups := fresh "Hups" in
  let Htier := fresh "Htier" in
  let Hmax := fresh "Hmax" in
  unfold calculateClos;
  destruct (Z.eqb_spec (userPortsPerLeaf config) 0) as [Hups|Hups];
  [ | destruct (Z.leb_spec (numLeafs config) (radix config)) as [Htier|Htier];
      [ | destruct (Qltb (maxUsers3Tier config) (inject_Z (numUsers config)))
            eqn:Hmax ] ].


(** C6.  Radix 64 with 1024 users is the 2-tier design with 32 user
    ports per leaf, 32 leaves, 1024 uplinks (one cable each), 16 spines,
    48 switches, average and maximum hop count 2; and whenever
    [numLeafs <= radix] (past the radix guard) the result is the
    feasible 2-tier one with [ceil(numLeafs*userPortsPerLeaf / radix)]
    spines, leaves plus spines switches and one cable per uplink. *)
Theorem clos_two_tier (config : NetworkConfig) :
  let r := calculateClos toString config in
  (radix config = 64 -> numUsers config = 1024 ->
   userPortsPerLeaf config = 32 /\ numLeafs config = 32
   /\ switchConfig r = mkSwitchConfig (Some 32) (Some 16) None None (Some 32)
   /\ totalSwitches r = 48 /\ totalCables r = 1024
   /\ (avgHops r == 2)%Q /\ maxHops r = 2 /\ userCapacity r = 1024
   /\ possible r = true)
  /\ (userPortsPerLeaf config <> 0 -> numLeafs config <= radix config ->
      let totalUplinks := numLeafs config * userPortsPerLeaf config in
      let numSpines := Qceiling (inject_Z totalUplinks / inject_Z (radix config)) in
      possible r = true
      /\ switchConfig r
         = mkSwitchConfig (Some (numLeafs config)) (Some numSpines) None None
             (Some (userPortsPerLeaf config))
      /\ totalSwitches r = numLeafs config + numSpines
      /\ totalCables r = totalUplinks
      /\ (avgHops r == 2)%Q /\ maxHops r = 2).
Proof.
  assert (General :
    userPortsPerLeaf config <> 0 -> numLeafs config <= radix config ->
    let r := calculateClos toString config in
    let totalUplinks := numLeafs config * userPortsPerLeaf config in
    let numSpines := Qceiling (inject_Z totalUplinks / inject_Z (radix config)) in
    possible r = true
    /\ switchConfig r
       = mkSwitchConfig (Some (numLeafs config)) (Some numSpines) None None
           (Some (userPortsPerLeaf config))
    /\ totalSwitches r = numLeafs config + numSpines
    /\ totalCables r = totalUplinks
    /\ (avgHops r == 2)%Q /\ maxHops r = 2).
  { intros Hne Hle. clos_paths config; try lia.
    simpl. repeat split; apply toFixed2_two. }
  split; [|exact General].
  intros Hr Hn.
  assert (Hu : userPortsPerLeaf config = 32)
    by (rewrite userPortsPerLeaf_half, Hr; reflexivity).
  assert (Hl : numLeafs config = 32)
    by (rewrite numLeafs_ceilDiv, Hr, Hn; reflexivity).
  destruct General as (Hp & Hsc & Hts & Htc & Hah & Hmh); [lia | lia |].
  assert (Hcap : userCapacity (calculateClos toString config) = 1024).
  { clos_paths config; try lia. simpl. rewrite Hu, Hl. reflexivity. }
  rewrite Hu, Hl, Hr in *. auto 10.
Qed.

(** What a feasible Clos result holds, in integer arithmetic. *)
Lemma clos_feasible_shape (config : NetworkConfig) :
  let r := calculateClos toString config in
  let l := numLeafs config in
  let u := userPortsPerLeaf config in
  possible r = true ->
  u <> 0 /\ userCapacity r = l * u
  /\ ((l <= radix config
       /\ totalSwitches r = l + ceilDiv (l * u) (radix config)
       /\ totalCables r = l * u
       /\ core (switchConfig r) = None)
      \/ (radix config < l
          /\ totalSwitches r = l + l + ceilDiv (l * u) (radix config)
          /\ totalCables r = l * u + l * u
          /\ core (switchConfig r) <> None)).
Proof.
  clos_paths config; simpl; try discriminate; intros _;
    rewrite ?Qfloor_half, <- ?userPortsPerLeaf_half, ?upperTier_ceilDiv.
  - repeat split; trivial. left. auto.
  - repeat split; trivial. right. repeat split; trivial. discriminate.
Qed.

(** C7.  For a fixed radix of at least 2, raising [numUsers] (from at
    least 1) never lowers [userCapacity] or [totalSwitches] between two
    feasible results, within a tier and across the change of tier. *)
Theorem clos_monotone (config : NetworkConfig) (u' : Z) :
  1 <= numUsers config -> numUsers config <= u' -> 2 <= radix config ->
  possible (calculateClos toString config) = true ->
  possible (calculateClos toString (withNumUsers config u')) = true ->
  userCapacity (calculateClos toString config)
  <= userCapacity (calculateClos toString (withNumUsers config u'))
  /\ totalSwitches (calculateClos toString config)
     <= totalSwitches (calculateClos toString (withNumUsers config u')).
Proof.
  intros Hn Hle Hr Hp Hp'.
  pose proof (userPortsPerLeaf_pos config Hr) as Hu.
  pose proof (numLeafs_mono config u' Hr Hle) as Hmono.
  pose proof (numLeafs_pos config Hr Hn) as Hl.
  destruct (clos_feasible_shape config Hp) as (_ & Hc & Hs).
  destruct (clos_feasible_shape (withNumUsers config u') Hp') as (_ & Hc' & Hs').
  change (userPortsPerLeaf (withNumUsers config u'))
    with (userPortsPerLeaf config) in *.
  change (radix (withNumUsers config u')) with (radix config) in *.
  set (l := numLeafs config) in *.
  set (l' := numLeafs (withNumUsers config u')) in *.
  set (u := userPortsPerLeaf config) in *.
  assert (Hup : ceilDiv (l * u) (radix config) <= ceilDiv (l' * u) (radix config))
    by (apply ceilDiv_mono; nia).
  rewrite Hc, Hc'. split; [nia|].
  destruct Hs as [(Ht & -> & _)|(Ht & -> & _)];
    destruct Hs' as [(Ht' & -> & _)|(Ht' & -> & _)]; lia.
Qed.

(** Past the radix guard the 3-tier branch has at least 3 leaves. *)
Lemma three_tier_numLeafs (config : NetworkConfig) :
  0 <= radix config ->
  userPortsPerLeaf config <> 0 -> radix config < numLeafs config ->
  2 <= radix config /\ 1 <= userPortsPerLeaf config <= radix config
  /\ 3 <= numLeafs config.
Proof.
  intros H0 Hne Hgt.
  pose proof (userPortsPerLeaf_guard config H0 Hne) as Hr.
  pose proof (userPortsPerLeaf_pos config Hr) as Hu. lia.
Qed.

Lemma closAvgHops_remote (config : NetworkConfig) :
  1 < numLeafs config -> closAvgHops config 3 = remoteLeafHops config.
Proof.
  intros Hl. apply Z.ltb_lt in Hl.
  unfold closAvgHops, remoteLeafHops. simpl. rewrite Hl. reflexivity.
Qed.

(** C10.  On the 3-tier branch of a switch with a non-negative port
    count, the radix guard gives [radix >= 2], so [numLeafs > radix]
    gives [numLeafs >= 3]: the test [numLeafs > 1] succeeds, the
    [avgHops = 0] fallback is not taken, and the divisor
    [totalRemoteLeaves = numLeafs - 1] is positive. *)
Theorem clos_three_tier_leaves (config : NetworkConfig) :
  0 <= radix config ->
  userPortsPerLeaf config <> 0 -> radix config < numLeafs config ->
  2 <= radix config /\ 1 <= userPortsPerLeaf config
  /\ 3 <= numLeafs config /\ 0 < numLeafs config - 1
  /\ (1 <? numLeafs config) = true
  /\ closAvgHops config 3 = remoteLeafHops config.
Proof.
  intros H0 Hne Hgt.
  destruct (three_tier_numLeafs config H0 Hne Hgt) as (Hr & Hu & Hl).
  repeat split; try lia.
  apply closAvgHops_remote. lia.
Qed.

(** The hop blend of lines 128-135 evaluated in doubles, against the
    exact quotient: the four roundings stay within 18 units of
    roundoff. *)
Lemma hop_blend_error (a b d : Z) :
  0 <= a -> 0 <= b -> 0 < d -> d = a + b ->
  let h := fadd (fmul (fdiv (inject_Z a) (inject_Z d)) 2)
                (fmul (fdiv (inject_Z b) (inject_Z d)) 4) in
  let exact := ((inject_Z a * 2 + inject_Z b * 4) / inject_Z d)%Q in
  (exact - 18 * eps <= h <= exact + 18 * eps)%Q /\ (0 <= h <= 6)%Q.
Proof.
  intros Ha Hb Hd Hsum h exact. subst h exact. unfold fadd, fmul, fdiv.
  assert (HD : (0 < inject_Z d)%Q)
    by (change 0%Q with (inject_Z 0); rewrite <- Zlt_Qlt; exact Hd).
  assert (HA : (0 <= inject_Z a)%Q)
    by (change 0%Q with (inject_Z 0); rewrite <- Zle_Qle; exact Ha).
  assert (HB : (0 <= inject_Z b)%Q)
    by (change 0%Q with (inject_Z 0); rewrite <- Zle_Qle; exact Hb).
  assert (HS : (inject_Z d == inject_Z a + inject_Z b)%Q)
    by (rewrite Hsum, inject_Z_plus; reflexivity).
  set (x := (inject_Z a / inject_Z d)%Q).
  set (y := (inject_Z b / inject_Z d)%Q).
  assert (Hx : (0 <= x <= 1)%Q).
  { unfold x. split; [apply Qle_shift_div_l | apply Qle_shift_div_r]; lra. }
  assert (Hy : (0 <= y <= 1)%Q).
  { unfold y. split; [apply Qle_shift_div_l | apply Qle_shift_div_r]; lra. }
  assert (Hex : ((inject_Z a * 2 + inject_Z b * 4) / inject_Z d == x * 2 + y * 4)%Q)
    by (unfold x, y; field; lra).
  rewrite Hex.
  pose proof eps_value as Heps.
  pose proof (round_within x 1 Hx) as Ex.
  pose proof (round_within y 1 Hy) as Ey.
  assert (Px : (0 <= round x <= 1)%Q)
    by (split; [round_bound 0 | round_bound 1]).
  assert (Py : (0 <= round y <= 1)%Q)
    by (split; [round_bound 0 | round_bound 1]).
  set (p := round x) in *. set (q := round y) in *.
  assert (H1 : (0 <= p * 2 <= 2)%Q) by lra.
  assert (H2 : (0 <= q * 4 <= 4)%Q) by lra.
  pose proof (round_within _ 2 H1) as E1.
  pose proof (round_within _ 4 H2) as E2.
  assert (P1 : (0 <= round (p * 2) <= 2)%Q)
    by (split; [round_bound 0 | round_bound 2]).
  assert (P2 : (0 <= round (q * 4) <= 4)%Q)
    by (split; [round_bound 0 | round_bound 4]).
  set (t1 := round (p * 2)) in *. set (t2 := round (q * 4)) in *.
  assert (H3 : (0 <= t1 + t2 <= 6)%Q) by lra.
  pose proof (round_within _ 6 H3) as E3.
  assert (P3 : (0 <= round (t1 + t2) <= 6)%Q)
    by (split; [round_bound 0 | round_bound 6]).
  rewrite Heps in *. split; [split; lra | exact P3].
Qed.

(** For at most [2^40] remote leaves the hundredth that [toFixed]
    picks on the double blend is a hundredth nearest to the exact
    quotient: the roundoff is too small to reach the next one. *)
Lemma nearest_hundredth (N d : Z) (h : Q) :
  0 < d <= 2 ^ 40 ->
  (inject_Z N / inject_Z d - 18 * eps <= h
   <= inject_Z N / inject_Z d + 18 * eps)%Q ->
  (inject_Z N / inject_Z d - (1 # 200) <= hundredths h
   <= inject_Z N / inject_Z d + (1 # 200))%Q.
Proof.
  intros [Hd1 Hd2] Hh. unfold hundredths.
  pose proof (Qfloor_le (h * 100 + (1 # 2))) as Hfl.
  pose proof (Qlt_floor (h * 100 + (1 # 2))) as Hlt.
  rewrite inject_Z_plus in Hlt. change (inject_Z 1) with 1%Q in Hlt.
  set (n := Qfloor (h * 100 + (1 # 2))) in *.
  assert (HD : (1 <= inject_Z d <= inject_Z (2 ^ 40))%Q)
    by (change 1%Q with (inject_Z 1); rewrite <- !Zle_Qle; lia).
  change (inject_Z (2 ^ 40)) with 1099511627776%Q in HD.
  set (D := inject_Z d) in *. set (Nq := inject_Z N) in *.
  set (nq := inject_Z n) in *.
  set (X := (Nq / D)%Q) in *.
  assert (HX : (X * D == Nq)%Q) by (unfold X; field; lra).
  rewrite eps_value in Hh.
  assert (U1 : (nq * D <= (100 * X + (1800 # 9007199254740992) + (1 # 2)) * D)%Q)
    by (apply Qmult_le_compat_r; lra).
  assert (L1 : ((100 * X - (1800 # 9007199254740992) - (1 # 2)) * D <= nq * D)%Q)
    by (apply Qmult_le_compat_r; lra).
  assert (EU : ((100 * X + (1800 # 9007199254740992) + (1 # 2)) * D
                == 100 * (X * D) + (1800 # 9007199254740992) * D + (1 # 2) * D)%Q)
    by ring.
  assert (EL : ((100 * X - (1800 # 9007199254740992) - (1 # 2)) * D
                == 100 * (X * D) - (1800 # 9007199254740992) * D - (1 # 2) * D)%Q)
    by ring.
  rewrite EU, HX in U1. rewrite EL, HX in L1.
  assert (ZU : 2 * (n * d) <= 200 * N + d).
  { assert (G : (inject_Z (2 * (n * d)) < inject_Z (200 * N + d + 1))%Q).
    { rewrite !inject_Z_plus, !inject_Z_mult. fold D Nq nq.
      change (inject_Z 2) with 2%Q. change (inject_Z 200) with 200%Q.
      change (inject_Z 1) with 1%Q. lra. }
    rewrite <- Zlt_Qlt in G. lia. }
  assert (ZL : 200 * N <= 2 * (n * d) + d).
  { assert (G : (inject_Z (200 * N) < inject_Z (2 * (n * d) + d + 1))%Q).
    { rewrite !inject_Z_plus, !inject_Z_mult. fold D Nq nq.
      change (inject_Z 2) with 2%Q. change (inject_Z 200) with 200%Q.
      change (inject_Z 1) with 1%Q. lra. }
    rewrite <- Zlt_Qlt in G. lia. }
  rewrite Zle_Qle in ZU, ZL.
  rewrite !inject_Z_plus, !inject_Z_mult in ZU, ZL.
  fold D Nq nq in ZU, ZL.
  change (inject_Z 2) with 2%Q in ZU, ZL. change (inject_Z 200) with 200%Q in ZU, ZL.
  assert (En : (nq / 100 == nq * (1 # 100))%Q) by (unfold Qdiv; reflexivity).
  rewrite En. split.
  - assert (G : (X - (1 # 200) <= nq * (1 # 100))%Q); [|exact G].
    assert (G' : ((X - (1 # 200)) * D <= nq * (1 # 100) * D)%Q).
    { assert (E : ((X - (1 # 200)) * D == X * D - (1 # 200) * D)%Q) by ring.
      rewrite E, HX. lra. }
    apply (Qmult_le_r _ _ D); lra.
  - assert (G' : (nq * (1 # 100) * D <= (X + (1 # 200)) * D)%Q).
    { assert (E : ((X + (1 # 200)) * D == X * D + (1 # 200) * D)%Q) by ring.
      rewrite E, HX. lra. }
    apply (Qmult_le_r _ _ D); lra.
Qed.

(** A feasible 3-tier design for a request that a double counts
    exactly has at most [2^40] remote leaves. *)
Lemma three_tier_remote_leaves (config : NetworkConfig) :
  2 <= radix config -> numUsers config <= 2 ^ 53 ->
  4 * numUsers config <= radix config ^ 3 ->
  numLeafs config - 1 <= 2 ^ 40.
Proof.
  intros Hr Hn Hc.
  pose proof (userPortsPerLeaf_pos config Hr) as Hu.
  assert (Hb : (numLeafs config - 1) * userPortsPerLeaf config < numUsers config).
  { rewrite numLeafs_ceilDiv, userPortsPerLeaf_half in *.
    apply ceilDiv_bounds. lia. }
  assert (H2u : radix config <= 2 * userPortsPerLeaf config + 1).
  { rewrite userPortsPerLeaf_half.
    pose proof (Z.mul_succ_div_gt (radix config) 2 eq_refl). lia. }
  replace (radix config ^ 3) with (radix config * radix config * radix config)
    in Hc by ring.
  set (l := numLeafs config) in *. set (u := userPortsPerLeaf config) in *.
  set (R := radix config) in *.
  change (2 ^ 53) with 9007199254740992 in Hn.
  change (2 ^ 40) with 1099511627776.
  destruct (Z_le_gt_dec (l - 1) 1099511627776) as [|Hgt]; trivial. exfalso.
  assert (Hu13 : u < 8192) by nia.
  assert (HR : R <= 16384) by lia.
  assert (HR3 : R * R * R <= 16384 * 16384 * 16384).
  { assert (R * R <= 16384 * 16384) by nia. nia. }
  nia.
Qed.

(** C8.  For a non-negative port count, a feasible 3-tier result (the
    one that reports a core tier) has [maxHops = 4], and its [avgHops]
    is [toFixed(2)] of the blend that lines 128-135 compute in doubles.
    With [leavesPerPod = floor(radix/2)] and the exact quotient
    [(max(0, leavesPerPod-1)*2 + max(0, numLeafs-leavesPerPod)*4) / (numLeafs-1)],
    [avgHops] is within [0.005 + 2^-48] of that quotient; and for a
    request of at most [2^53] users it is the double that reads as a
    hundredth nearest to the quotient, either neighbour on a tie.  A
    feasible 2-tier result has [avgHops = 2] and [maxHops = 2]. *)
Theorem clos_hops (config : NetworkConfig) :
  let r := calculateClos toString config in
  let exact := statedHops config in
  0 <= radix config -> possible r = true ->
  (core (switchConfig r) <> None ->
   maxHops r = 4
   /\ avgHops r = toFixed2 (remoteLeafHops config)
   /\ (exact - (1 # 200) - 32 * eps <= avgHops r <= exact + (1 # 200) + 32 * eps)%Q
   /\ (numUsers config <= 2 ^ 53 ->
       exists n : Z,
         (avgHops r == literal (inject_Z n / 100))%Q
         /\ (exact - (1 # 200) <= inject_Z n / 100 <= exact + (1 # 200))%Q))
  /\ (core (switchConfig r) = None -> (avgHops r == 2)%Q /\ maxHops r = 2).
Proof.
  intros r exact Hr. subst r.
  clos_paths config; simpl; try discriminate; intros _.
  - split; [congruence|]. intros _. split; [apply toFixed2_two | reflexivity].
  - split; [|discriminate]. intros _.
    destruct (three_tier_numLeafs config) as (Hr2 & Hu & Hl3); try lia.
    rewrite closAvgHops_remote by lia.
    split; [reflexivity|]. split; [reflexivity|].
    set (lpp := Qfloor (inject_Z (radix config) / 2)).
    assert (Hlpp : lpp = userPortsPerLeaf config) by reflexivity.
    set (a := Z.max 0 (Z.min lpp (numLeafs config) - 1)).
    set (b := Z.max 0 (numLeafs config - lpp)).
    set (d := numLeafs config - 1).
    assert (Hh : remoteLeafHops config
                 = fadd (fmul (fdiv (inject_Z a) (inject_Z d)) 2)
                        (fmul (fdiv (inject_Z b) (inject_Z d)) 4)) by reflexivity.
    assert (Hex : (exact == (inject_Z a * 2 + inject_Z b * 4) / inject_Z d)%Q).
    { unfold exact, statedHops. fold lpp. fold d. fold b.
      replace (Z.max 0 (lpp - 1)) with a by (unfold a; lia). reflexivity. }
    destruct (hop_blend_error a b d) as [Herr Hrange]; try (unfold a, b, d; lia).
    rewrite <- Hh, <- Hex in Herr. rewrite <- Hh in Hrange.
    set (h := remoteLeafHops config) in *.
    assert (Hfix : toFixed2 h = literal (hundredths h)).
    { apply toFixed2_hundredths; [lra|].
      apply Qle_lt_trans with 6%Q; [lra | reflexivity]. }
    rewrite Hfix.
    pose proof (hundredths_near h) as Hnear.
    pose proof (hundredths_between h 0 6 Hrange) as Hbetween.
    change (inject_Z 0) with 0%Q in Hbetween.
    change (inject_Z 6) with 6%Q in Hbetween.
    assert (Hlit : (hundredths h - 8 * eps <= literal (hundredths h)
                    <= hundredths h + 8 * eps)%Q).
    { apply round_within. lra. }
    pose proof eps_value as Heps.
    split.
    + rewrite Heps in *. split; lra.
    + intros Hsafe. exists (Qfloor (h * 100 + (1 # 2))).
      split; [reflexivity|].
      assert (E1 : (exact == inject_Z (a * 2 + b * 4) / inject_Z d)%Q).
      { rewrite Hex, inject_Z_plus, !inject_Z_mult. reflexivity. }
      rewrite E1 in Herr |- *.
      apply (nearest_hundredth (a * 2 + b * 4) d h); [|exact Herr].
      split; [unfold d; lia|].
      apply three_tier_remote_leaves; trivial.
      apply maxUsers3Tier_ge, Qltb_ge. exact Hmax.
Qed.

End ClosProperties.

(** * The mesh sizer *)

Section MeshProperties.

Variable toString : number -> string.

Lemma meshIteration_Found (config : NetworkConfig) (target : number)
    (mfp : ext Z) (s : Z) (m : TopologyMetrics) :
  meshIteration toString config target mfp s = Found m ->
  exists l, meshFits config target mfp s l
    /\ totalSwitches m = s
    /\ totalCables m = s * (s - 1) / 2 * l
    /\ userCapacity m = s * (radix config - l * (s - 1))
    /\ possible m = true
    /\ userPortsPerSwitch (switchConfig m) = Some (radix config - l * (s - 1)).
Proof.
  unfold meshIteration, meshFits.
  destruct (linksPerPeer mfp s) as [ | | | l]; try discriminate.
  destruct (Z.leb_spec (radix config - l * (s - 1)) 0) as [Hle|Hgt].
  - destruct (l =? 1); discriminate.
  - destruct (geb _ target) eqn:Hge; [|discriminate].
    intros [= <-]. exists l. simpl. auto 10.
Qed.

Lemma meshIteration_rejects (config : NetworkConfig) (target : number)
    (mfp : ext Z) (s : Z) :
  (forall m, meshIteration toString config target mfp s <> Found m) ->
  forall l, ~ meshFits config target mfp s l.
Proof.
  unfold meshIteration, meshFits. intros Hno l (Hl & Hpos & Hge).
  rewrite Hl in Hno.
  destruct (Z.leb_spec (radix config - l * (s - 1)) 0) as [Hle|Hgt]; [lia|].
  rewrite Hge in Hno. eapply Hno. reflexivity.
Qed.

(** A successful search stops at the first switch count the body accepts. *)
Lemma meshSearch_Some (config : NetworkConfig) (target : number) (mfp : ext Z)
    (n : nat) :
  forall (s0 : Z) (m : TopologyMetrics),
  meshSearch toString config target mfp n s0 = Some m ->
  exists s, s0 <= s < s0 + Z.of_nat n
    /\ meshIteration toString config target mfp s = Found m
    /\ forall s', s0 <= s' < s ->
         meshIteration toString config target mfp s' = Continue.
Proof.
  induction n as [|n IH]; intros s0 m; [discriminate|].
  cbn [meshSearch].
  destruct (meshIteration toString config target mfp s0) as [ | |m0] eqn:Hit.
  - discriminate.
  - intros Hs. destruct (IH _ _ Hs) as (s & Hrange & Hfound & Hbefore).
    exists s. split; [lia|]. split; [exact Hfound|].
    intros s' Hs'. destruct (Z.eq_dec s' s0) as [->|Hne]; [exact Hit|].
    apply Hbefore. lia.
  - intros [= ->]. exists s0. split; [lia|]. split; [exact Hit|].
    intros s' Hs'. lia.
Qed.

(** Every result of the search is marked possible. *)
Lemma meshSearch_possible (config : NetworkConfig) (target : number) (mfp : ext Z)
    (n : nat) (s0 : Z) (m : TopologyMetrics) :
  meshSearch toString config target mfp n s0 = Some m -> possible m = true.
Proof.
  intros Hs. destruct (meshSearch_Some _ _ _ _ _ _ Hs) as (s & _ & Hf & _).
  destruct (meshIteration_Found _ _ _ _ _ Hf) as (l & _ & _ & _ & _ & Hp & _).
  exact Hp.
Qed.

(** A feasible mesh result is the first acceptance of the loop. *)
Lemma calculateFullMesh_possible (config : NetworkConfig)
    (requiredUserPorts : option number) :
  let r := calculateFullMesh toString config requiredUserPorts in
  let target := targetUsers config requiredUserPorts in
  let mfp := minFabricPorts config in
  possible r = true ->
  exists s, 2 <= s <= 500
    /\ meshIteration toString config target mfp s = Found r
    /\ forall s', 2 <= s' < s ->
         meshIteration toString config target mfp s' = Continue.
Proof.
  unfold calculateFullMesh.
  destruct (meshSearch toString config (targetUsers config requiredUserPorts)
              (minFabricPorts config) 499 2) as [m|] eqn:Hs; [|discriminate].
  cbv zeta. intros _.
  destruct (meshSearch_Some _ _ _ _ _ _ Hs) as (s & Hrange & Hf & Hb).
  exists s. split; [lia|]. auto.
Qed.

Lemma calculateFullMesh_impossible (config : NetworkConfig)
    (requiredUserPorts : option number) :
  let r := calculateFullMesh toString config requiredUserPorts in
  possible r = false ->
  meshSearch toString config (targetUsers config requiredUserPorts)
    (minFabricPorts config) 499 2 = None
  /\ zeroed r.
Proof.
  unfold calculateFullMesh.
  destruct (meshSearch toString config (targetUsers config requiredUserPorts)
              (minFabricPorts config) 499 2) as [m|] eqn:Hs; cbv zeta.
  - rewrite (meshSearch_possible _ _ _ _ _ _ Hs). discriminate.
  - intros _. split; [reflexivity|]. unfold zeroed. simpl.
    repeat split; discriminate.
Qed.

(** The divisor [1 + meshFabricRatio] of line 166 is at least 1 for a
    positive ratio, so the budget is finite. *)
Lemma minFabricPorts_Fin (config : NetworkConfig) :
  (0 < meshFabricRatio config)%Q ->
  minFabricPorts config = Fin (ratioFabricPorts config).
Proof.
  intros Hpos. unfold minFabricPorts, JS.div.
  destruct (Qeq_bool (fadd 1 (meshFabricRatio config)) 0) eqn:E; [|reflexivity].
  apply Qeq_bool_eq in E. exfalso.
  assert (H1 : (1 <= fadd 1 (meshFabricRatio config))%Q)
    by (unfold fadd; round_bound 1).
  lra.
Qed.

Lemma linksPerPeer_Fin (m s : Z) :
  linksPerPeer (Fin m) s = Fin (peerLinks m s).
Proof.
  unfold linksPerPeer, peerLinks. f_equal.
  destruct (Z.ltb_spec (Qceiling (inject_Z m / inject_Z (s - 1))) 1); lia.
Qed.

Lemma meshFits_admits (config : NetworkConfig) (m : Z) (T : Q) (s l : Z) :
  meshFits config (Fin T) (Fin m) s l
  <-> l = peerLinks m s /\ meshAdmits config m T s.
Proof.
  unfold meshFits, meshAdmits, meshUserPorts. rewrite linksPerPeer_Fin.
  cbn [geb]. rewrite Qle_bool_iff. split.
  - intros (E & Hpos & Hge). injection E as <-. auto.
  - intros (-> & Hpos & Hge). auto.
Qed.

(** The fabric ports of [s >= 2] switches cover the budget. *)
Lemma peerLinks_cover (m s : Z) : 2 <= s -> m <= peerLinks m s * (s - 1).
Proof.
  intros Hs. unfold peerLinks. rewrite Qceiling_ceilDiv.
  pose proof (ceilDiv_bounds m (s - 1)). nia.
Qed.

(** What three roundings can take from the ratio: a share
    [3 * eps * (1 + rho)] of it. *)
Lemma ratio_slack (rho U F u : Q) :
  (0 < rho)%Q -> (0 < U)%Q -> (0 <= F)%Q -> (0 <= u)%Q -> (u <= 1 # 4)%Q ->
  (rho * (U + F) * ((1 - u) * (1 - u)) <= F * ((1 + rho) * (1 + u)))%Q ->
  ((rho - 3 * u * rho * (1 + rho)) * U <= F)%Q.
Proof.
  intros Hr HU HF Hu0 Hu1 K.
  set (B := (1 + u + rho * (3 * u - u * u))%Q).
  set (c := (1 - 3 * u * (1 + rho))%Q).
  set (D := (4 * (u * u) + rho * (13 * (u * u) - 3 * (u * u * u))
             + 3 * (u * u) * (3 - u) * (rho * rho))%Q).
  assert (HB : (0 < B)%Q).
  { unfold B.
    assert (0 <= rho * (3 * u - u * u))%Q by (apply Qmult_le_0_compat; nra).
    lra. }
  assert (K' : (rho * U * ((1 - u) * (1 - u)) <= F * B)%Q) by (unfold B; lra).
  assert (M1 : (0 <= rho * U)%Q) by (apply Qmult_le_0_compat; lra).
  assert (HD : (0 <= D)%Q).
  { unfold D.
    assert (0 <= u * u)%Q by (apply Qmult_le_0_compat; lra).
    assert (0 <= 13 * (u * u) - 3 * (u * u * u))%Q.
    { assert (E : (13 * (u * u) - 3 * (u * u * u) == (u * u) * (13 - 3 * u))%Q)
        by ring.
      rewrite E. apply Qmult_le_0_compat; lra. }
    assert (0 <= rho * (13 * (u * u) - 3 * (u * u * u)))%Q
      by (apply Qmult_le_0_compat; lra).
    assert (0 <= 3 * (u * u) * (3 - u))%Q by (apply Qmult_le_0_compat; lra).
    assert (0 <= rho * rho)%Q by (apply Qmult_le_0_compat; lra).
    assert (0 <= 3 * (u * u) * (3 - u) * (rho * rho))%Q
      by (apply Qmult_le_0_compat; lra).
    lra. }
  assert (P : (0 <= rho * U * D)%Q) by (apply Qmult_le_0_compat; assumption).
  assert (E : (rho * U * ((1 - u) * (1 - u)) == rho * U * c * B + rho * U * D)%Q)
    by (unfold B, c, D; ring).
  assert (G : (rho * U * c * B <= F * B)%Q) by lra.
  apply Qmult_le_r in G; trivial.
  assert (E2 : ((rho - 3 * u * rho * (1 + rho)) * U == rho * U * c)%Q)
    by (unfold c; ring).
  rewrite E2. exact G.
Qed.

(** The budget of line 166 against the exact ratio: the product, the
    sum and the quotient are each rounded once. *)
Lemma ratioFabricPorts_bound (config : NetworkConfig) (f : Z) :
  (0 < meshFabricRatio config)%Q -> 0 < radix config ->
  ratioFabricPorts config <= f ->
  (meshFabricRatio config * inject_Z (radix config) * ((1 - eps) * (1 - eps))
   <= inject_Z f * ((1 + meshFabricRatio config) * (1 + eps)))%Q.
Proof.
  intros Hpos HR Hf. unfold ratioFabricPorts, fdiv, fmul, fadd in Hf.
  set (rho := meshFabricRatio config) in *.
  assert (HRq : (0 < inject_Z (radix config))%Q)
    by (change 0%Q with (inject_Z 0); rewrite <- Zlt_Qlt; exact HR).
  set (R := inject_Z (radix config)) in *.
  assert (Hprod : (0 <= rho * R)%Q) by (apply Qmult_le_0_compat; lra).
  pose proof (round_relative (rho * R) Hprod) as [Ea _].
  assert (Hsum : (0 <= 1 + rho)%Q) by lra.
  pose proof (round_relative (1 + rho) Hsum) as [_ Eb].
  assert (Hb1 : (1 <= round (1 + rho))%Q) by round_bound 1.
  assert (Ha0 : (0 <= round (rho * R))%Q) by (apply round_nonneg; exact Hprod).
  set (a := round (rho * R)) in *. set (b := round (1 + rho)) in *.
  assert (Hq : (0 <= a / b)%Q) by (apply Qle_shift_div_l; lra).
  pose proof (round_relative (a / b) Hq) as [Ec _].
  assert (HF : (round (a / b) <= inject_Z f)%Q).
  { eapply Qle_trans; [apply Qle_ceiling|]. rewrite <- Zle_Qle. exact Hf. }
  set (F := inject_Z f) in *.
  pose proof eps_value as Heps.
  assert (He : (0 < eps)%Q /\ (eps < 1)%Q) by (rewrite Heps; split; reflexivity).
  (* F >= (a/b)(1-eps), so F*b >= a(1-eps) *)
  assert (G1 : (a / b * (1 - eps) <= F)%Q)
    by (assert (E : (a / b * (1 - eps) == a / b - a / b * eps)%Q) by ring;
        rewrite E; lra).
  assert (G2 : (a * (1 - eps) <= F * b)%Q).
  { assert (E : (a * (1 - eps) == a / b * (1 - eps) * b)%Q) by (field; lra).
    rewrite E. apply Qmult_le_compat_r; lra. }
  assert (HF0 : (0 <= F)%Q).
  { assert (0 <= a / b * (1 - eps))%Q by (apply Qmult_le_0_compat; lra). lra. }
  assert (G3 : (F * b <= F * ((1 + rho) * (1 + eps)))%Q).
  { rewrite (Qmult_comm F b), (Qmult_comm F ((1 + rho) * (1 + eps))).
    apply Qmult_le_compat_r; trivial.
    assert (E : ((1 + rho) * (1 + eps) == 1 + rho + (1 + rho) * eps)%Q) by ring.
    rewrite E. exact Eb. }
  assert (G4 : (rho * R * ((1 - eps) * (1 - eps)) <= a * (1 - eps))%Q).
  { assert (E : (rho * R * ((1 - eps) * (1 - eps))
                 == (rho * R - rho * R * eps) * (1 - eps))%Q) by ring.
    rewrite E. apply Qmult_le_compat_r; lra. }
  lra.
Qed.

(** C1.  With a positive ratio, the fabric-port budget is the ceiling
    of the quotient [(meshFabricRatio * radix) / (1 + meshFabricRatio)]
    as line 166 evaluates it in doubles, and a feasible mesh result for
    the target [T] that the search uses (the argument when it is
    supplied and neither zero nor [NaN], else [numUsers]) reports the
    smallest [S] in [[2, 500]] whose user ports
    [radix - linksPerPeer*(S-1)] are positive and give
    [S * userPorts >= T], with
    [linksPerPeer = max(1, ceil(minFabricPorts / (S-1)))]; no smaller [S]
    in the range does, and [userCapacity] is [S * userPorts]. *)
Theorem mesh_minimal (config : NetworkConfig) (requiredUserPorts : option number)
    (T : Q) :
  (0 < meshFabricRatio config)%Q ->
  targetUsers config requiredUserPorts = Fin T ->
  possible (calculateFullMesh toString config requiredUserPorts) = true ->
  minFabricPorts config = Fin (ratioFabricPorts config)
  /\ meshMinimalFor config (ratioFabricPorts config) T
       (calculateFullMesh toString config requiredUserPorts).
Proof.
  intros Hpos HT Hp. split; [apply minFabricPorts_Fin; exact Hpos|].
  destruct (calculateFullMesh_possible config requiredUserPorts Hp)
    as (s & Hrange & Hfound & Hbefore).
  rewrite HT, (minFabricPorts_Fin config Hpos) in Hfound, Hbefore.
  destruct (meshIteration_Found _ _ _ _ _ Hfound)
    as (l & Hfit & Hts & _ & Hcap & _).
  apply meshFits_admits in Hfit. destruct Hfit as (-> & Hadm).
  unfold meshMinimalFor. rewrite Hts. repeat split; try lia; try apply Hadm.
  - intros S' HS' Hadm'.
    apply (meshIteration_rejects config (Fin T) (Fin (ratioFabricPorts config)) S')
      with (l := peerLinks (ratioFabricPorts config) S').
    + intros m. rewrite (Hbefore S' HS'). discriminate.
    + apply meshFits_admits. auto.
  - exact Hcap.
Qed.

(** C2.  With a positive ratio, the partition a feasible mesh result
    reports, [U = userPortsPerSwitch] user ports and [F = radix - U]
    fabric ports, has [U > 0] and
    [F / U >= meshFabricRatio - epsilon] for
    [epsilon = 3 * 2^-53 * meshFabricRatio * (1 + meshFabricRatio)],
    the share of the ratio that the three roundings of line 166 can
    take. *)
Theorem mesh_ratio (config : NetworkConfig) (requiredUserPorts : option number)
    (U : Z) :
  let r := calculateFullMesh toString config requiredUserPorts in
  let rho := meshFabricRatio config in
  (0 < rho)%Q ->
  possible r = true ->
  userPortsPerSwitch (switchConfig r) = Some U ->
  0 < U
  /\ (rho - 3 * eps * rho * (1 + rho)
      <= inject_Z (radix config - U) / inject_Z U)%Q.
Proof.
  intros r rho Hpos Hp HU. subst r.
  destruct (calculateFullMesh_possible config requiredUserPorts Hp)
    as (s & Hrange & Hfound & _).
  rewrite (minFabricPorts_Fin config Hpos) in Hfound.
  destruct (meshIteration_Found _ _ _ _ _ Hfound)
    as (l & (Hl & HUpos & _) & _ & _ & _ & _ & Hsc).
  rewrite linksPerPeer_Fin in Hl. injection Hl as <-.
  rewrite Hsc in HU. injection HU as <-.
  split; [exact HUpos|].
  set (m := ratioFabricPorts config) in *.
  pose proof (peerLinks_cover m s ltac:(lia)) as Hcover.
  assert (Hl1 : 1 <= peerLinks m s) by (unfold peerLinks; lia).
  set (F := peerLinks m s * (s - 1)) in *.
  assert (HR : 0 < radix config) by nia.
  pose proof (ratioFabricPorts_bound config F Hpos HR Hcover) as K.
  fold rho in K.
  assert (HUq : (0 < inject_Z (radix config - F))%Q)
    by (change 0%Q with (inject_Z 0); rewrite <- Zlt_Qlt; exact HUpos).
  assert (HFq : (0 <= inject_Z F)%Q)
    by (change 0%Q with (inject_Z 0); rewrite <- Zle_Qle; nia).
  replace (radix config - (radix config - F)) with F by ring.
  apply Qle_shift_div_l; [exact HUq|].
  apply ratio_slack; trivial.
  - rewrite eps_value. discriminate.
  - rewrite eps_value. discriminate.
  - assert (E : (inject_Z (radix config - F) + inject_Z F
                 == inject_Z (radix config))%Q).
    { rewrite <- inject_Z_plus. replace (radix config - F + F) with (radix config)
        by ring. reflexivity. }
    rewrite E. exact K.
Qed.

Lemma linksPerPeer_ge1 (mfp : ext Z) (s l : Z) :
  linksPerPeer mfp s = Fin l -> 1 <= l.
Proof.
  destruct mfp as [ | | | m]; cbn [linksPerPeer]; try discriminate.
  - intros [= <-]. lia.
  - destruct (Z.ltb_spec (Qceiling (inject_Z m / inject_Z (s - 1))) 1);
      intros [= <-]; lia.
Qed.

Lemma calculateClos_impossible (config : NetworkConfig) :
  possible (calculateClos toString config) = false ->
  zeroed (calculateClos toString config).
Proof.
  unfold calculateClos, zeroed.
  destruct (userPortsPerLeaf config =? 0); [|destruct (numLeafs config <=? radix config);
    [|destruct (Qltb (maxUsers3Tier config) (inject_Z (numUsers config)))]];
    simpl; try discriminate; intros _; repeat split; discriminate.
Qed.

(** C3.  For [numUsers >= 1] and [radix >= 2]: a feasible Clos result
    has [userCapacity >= numUsers], a positive switch count and a
    non-negative cable count; a feasible mesh result has [userCapacity]
    at least the target of the search and at least the target read off
    the call, a positive switch count and a non-negative cable count. *)
Theorem capacity_sufficient (config : NetworkConfig)
    (requiredUserPorts : option number) :
  let clos := calculateClos toString config in
  let mesh := calculateFullMesh toString config requiredUserPorts in
  1 <= numUsers config -> 2 <= radix config ->
  (possible clos = true ->
   numUsers config <= userCapacity clos
   /\ 0 < totalSwitches clos /\ 0 <= totalCables clos)
  /\ (possible mesh = true ->
      geb (inject_Z (userCapacity mesh)) (targetUsers config requiredUserPorts) = true
      /\ (forall T : Q, suppliedTarget config requiredUserPorts = Fin T ->
            (T <= inject_Z (userCapacity mesh))%Q)
      /\ 0 < totalSwitches mesh /\ 0 <= totalCables mesh).
Proof.
  intros clos mesh Hn Hr. subst clos mesh. split; intros Hp.
  - pose proof (userPortsPerLeaf_pos config Hr) as Hu.
    pose proof (numLeafs_pos config Hr Hn) as Hl.
    pose proof (numLeafs_covers config Hr) as Hcov.
    destruct (clos_feasible_shape toString config Hp) as (_ & -> & Hs).
    assert (Hup : 0 < ceilDiv (numLeafs config * userPortsPerLeaf config)
                         (radix config))
      by (apply ceilDiv_pos; nia).
    split; [exact Hcov|].
    destruct Hs as [(_ & -> & -> & _)|(_ & -> & -> & _)]; split; nia.
  - destruct (calculateFullMesh_possible config requiredUserPorts Hp)
      as (s & Hrange & Hfound & _).
    destruct (meshIteration_Found _ _ _ _ _ Hfound)
      as (l & (Hl & HUpos & Hge) & -> & -> & -> & _).
    apply linksPerPeer_ge1 in Hl.
    assert (Hcap : 0 < s * (radix config - l * (s - 1))) by nia.
    split; [exact Hge|]. split; [|split; [lia|]].
    + intros T HT. unfold targetUsers in Hge.
      destruct requiredUserPorts as [x|]; cbn [suppliedTarget or_else] in HT, Hge.
      * subst x. cbn [truthy] in Hge.
        destruct (Qeq_bool T 0) eqn:E; cbn [negb] in Hge.
        -- apply Qeq_bool_eq in E. rewrite E.
           change 0%Q with (inject_Z 0). rewrite <- Zle_Qle. lia.
        -- apply Qle_bool_iff. exact Hge.
      * injection HT as <-. apply Qle_bool_iff. exact Hge.
    + apply Z.mul_nonneg_nonneg; [|lia].
      apply Z.div_pos; [nia|lia].
Qed.

(** C4.  Neither sizer has a failing path: each is a total function
    whose infeasible outcomes are returned records.  A Clos or mesh
    result with [possible = false] has every numeric field zero, the
    empty [switchConfig] and a non-empty [details]; a radix whose half
    rounds to zero, a request above the 3-tier ceiling, and a mesh
    search that ends without a result each give [possible = false]; in
    particular radix 1 makes [calculateClos] return such a record. *)
Theorem infeasible_zeroed (config : NetworkConfig)
    (requiredUserPorts : option number) :
  let clos := calculateClos toString config in
  let mesh := calculateFullMesh toString config requiredUserPorts in
  (possible clos = false -> zeroed clos)
  /\ (possible mesh = false -> zeroed mesh)
  /\ (userPortsPerLeaf config = 0 -> possible clos = false)
  /\ (userPortsPerLeaf config <> 0 -> radix config < numLeafs config ->
      (maxUsers3Tier config < inject_Z (numUsers config))%Q ->
      possible clos = false)
  /\ (meshSearch toString config (targetUsers config requiredUserPorts)
        (minFabricPorts config) 499 2 = None -> possible mesh = false)
  /\ (radix config = 1 -> possible clos = false /\ zeroed clos).
Proof.
  intros clos mesh. subst clos mesh.
  assert (Hsmall : userPortsPerLeaf config = 0 ->
                   possible (calculateClos toString config) = false).
  { intros E. unfold calculateClos. rewrite E. reflexivity. }
  split; [apply calculateClos_impossible|].
  split; [apply calculateFullMesh_impossible|].
  split; [exact Hsmall|].
  split.
  { intros Hne Hgt Hover. unfold calculateClos.
    destruct (Z.eqb_spec (userPortsPerLeaf config) 0); [reflexivity|].
    destruct (Z.leb_spec (numLeafs config) (radix config)); [lia|].
    apply Qltb_lt in Hover. rewrite Hover. reflexivity. }
  split.
  { intros E. unfold calculateFullMesh. rewrite E. reflexivity. }
  intros Hr.
  assert (Hu : userPortsPerLeaf config = 0)
    by (rewrite userPortsPerLeaf_half, Hr; reflexivity).
  split; [|apply calculateClos_impossible]; auto.
Qed.

(** C9.  An argument that is zero or [NaN] (any falsy number) gives the
    same target, [numUsers], and the same result as no argument at all;
    a target of zero can only come from [numUsers] itself, never from
    the argument. *)
Theorem mesh_falsy_target (config : NetworkConfig) :
  (forall x : number, truthy x = false ->
     targetUsers config (Some x) = targetUsers config None
     /\ calculateFullMesh toString config (Some x)
        = calculateFullMesh toString config None)
  /\ targetUsers config None = ofZ (numUsers config)
  /\ calculateFullMesh toString config (Some (ofZ 0))
     = calculateFullMesh toString config None
  /\ calculateFullMesh toString config (Some NaN)
     = calculateFullMesh toString config None
  /\ (forall (requiredUserPorts : option number) (T : Q),
        targetUsers config requiredUserPorts = Fin T -> (T == 0)%Q ->
        numUsers config = 0).
Proof.
  assert (Hfalsy : forall x : number, truthy x = false ->
            targetUsers config (Some x) = targetUsers config None
            /\ calculateFullMesh toString config (Some x)
               = calculateFullMesh toString config None).
  { intros x Hx.
    assert (E : targetUsers config (Some x) = targetUsers config None)
      by (unfold targetUsers; cbn [or_else]; rewrite Hx; reflexivity).
    split; [exact E|]. unfold calculateFullMesh. rewrite E. reflexivity. }
  split; [exact Hfalsy|]. split; [reflexivity|].
  split; [apply Hfalsy; reflexivity|]. split; [apply Hfalsy; reflexivity|].
  intros arg T HT HT0. unfold targetUsers in HT.
  assert (Hnum : forall q : Q, ofZ (numUsers config) = Fin q -> (q == 0)%Q ->
                               numUsers config = 0).
  { intros q [= <-] E. unfold Qeq in E. simpl in E. lia. }
  destruct arg as [x|]; cbn [or_else] in HT; [|eauto].
  destruct (truthy x) eqn:Hx; [|eauto].
  subst x. cbn [truthy] in Hx. apply Qeq_bool_iff in HT0.
  rewrite HT0 in Hx. discriminate.
Qed.

End MeshProperties.

(** * The sizers on concrete configurations *)

(** Ratio 0.36 on 34 ports: the double quotient is just above 9, so
    the budget is 10 fabric ports, and 50 users need 3 switches. *)
Lemma mesh_minimal_witness :
  let config := sampleConfig 50 34 (literal (36 # 100)) in
  minFabricPorts config = Fin 10
  /\ meshMinimalFor config 10 50 (calculateFullMesh showNumber config None).
Proof.
  exact (mesh_minimal showNumber (sampleConfig 50 34 (literal (36 # 100))) None 50
           ltac:(vm_compute; reflexivity) ltac:(reflexivity)
           ltac:(vm_compute; reflexivity)).
Defined.

(** The minimality of the design fails twice.  With the argument 0
    read as the target, 2 switches already reach it (32 user ports
    each), yet the search reports 33.  With the budget of exact
    arithmetic, ratio 0.36 on 34 ports asks for 9 fabric ports, and 2
    switches with 25 user ports each reach 50 users, yet the search
    reports 3. *)
Lemma mesh_minimal_as_stated :
  ~ meshMinimalAsStated showNumber (sampleConfig 1024 64 1) (Some (ofZ 0))
  /\ ~ meshMinimalAsStated showNumber (sampleConfig 50 34 (literal (36 # 100))) None.
Proof.
  split; intros H.
  - destruct (H 0%Q) as (_ & _ & Hmin & _);
      [reflexivity | simpl; lia | reflexivity | vm_compute; reflexivity | ].
    apply (Hmin 2).
    + vm_compute. split; [discriminate | reflexivity].
    + vm_compute. split; [reflexivity | discriminate].
  - destruct (H 50%Q) as (_ & _ & Hmin & _);
      [reflexivity | simpl; lia | vm_compute; reflexivity
      | vm_compute; reflexivity | ].
    apply (Hmin 2).
    + vm_compute. split; [discriminate | reflexivity].
    + vm_compute. split; [reflexivity | discriminate].
Qed.

(** Ratio 1.6 on 52 ports: 33 switches with 20 user and 32 fabric
    ports each. *)
Lemma mesh_ratio_witness :
  let rho := literal (16 # 10) in
  0 < 20 /\ (rho - 3 * eps * rho * (1 + rho) <= inject_Z (52 - 20) / inject_Z 20)%Q.
Proof.
  exact (mesh_ratio showNumber (sampleConfig 650 52 (literal (16 # 10))) None 20
           ltac:(vm_compute; reflexivity) ltac:(vm_compute; reflexivity)
           ltac:(vm_compute; reflexivity)).
Defined.

(** There the reported partition misses the ratio itself: the double
    1.6 is above 32/20. *)
Lemma mesh_ratio_without_slack :
  ~ meshRatioAsStated showNumber (sampleConfig 650 52 (literal (16 # 10))) None.
Proof.
  intros H.
  specialize (H 20 ltac:(vm_compute; reflexivity) ltac:(vm_compute; reflexivity)
                ltac:(vm_compute; reflexivity)).
  vm_compute in H. apply H. reflexivity.
Qed.

Lemma capacity_sufficient_witness :
  let config := sampleConfig 1000 64 1 in
  let clos := calculateClos showNumber config in
  let mesh := calculateFullMesh showNumber config (Some (ofZ (userCapacity clos))) in
  (1000 <= userCapacity clos /\ 0 < totalSwitches clos /\ 0 <= totalCables clos)
  /\ ((1024 <= inject_Z (userCapacity mesh))%Q
      /\ 0 < totalSwitches mesh /\ 0 <= totalCables mesh).
Proof.
  intros config clos mesh.
  destruct (capacity_sufficient showNumber config (Some (ofZ (userCapacity clos))))
    as [Hclos Hmesh]; [simpl; lia | simpl; lia | ].
  split.
  - apply Hclos. vm_compute. reflexivity.
  - destruct Hmesh as (_ & Hcap & Hsw & Hcb); [vm_compute; reflexivity | ].
    split; [apply Hcap; reflexivity | split; assumption].
Defined.

Lemma infeasible_zeroed_witness :
  possible (calculateClos showNumber (sampleConfig 5 1 1)) = false
  /\ zeroed (calculateClos showNumber (sampleConfig 5 1 1))
  /\ zeroed (calculateFullMesh showNumber (sampleConfig 100000 64 1) None).
Proof.
  destruct (infeasible_zeroed showNumber (sampleConfig 5 1 1) None)
    as (_ & _ & _ & _ & _ & Hone).
  destruct (infeasible_zeroed showNumber (sampleConfig 100000 64 1) None)
    as (_ & Hmesh & _).
  destruct Hone as [Hp Hz]; [reflexivity | ].
  split; [exact Hp | split; [exact Hz | ]].
  apply Hmesh. vm_compute. reflexivity.
Defined.


Lemma clos_two_tier_witness :
  totalSwitches (calculateClos showNumber (sampleConfig 1024 64 1)) = 48
  /\ totalCables (calculateClos showNumber (sampleConfig 1024 64 1)) = 1024.
Proof.
  destruct (clos_two_tier showNumber (sampleConfig 1024 64 1)) as [Hinst _].
  destruct Hinst as (_ & _ & _ & Hs & Hc & _); [reflexivity | reflexivity | ].
  split; assumption.
Defined.

(** 1024 users fit two tiers of radix 64, 4096 users need three. *)
Lemma clos_monotone_witness :
  userCapacity (calculateClos showNumber (sampleConfig 1024 64 1))
  <= userCapacity (calculateClos showNumber (sampleConfig 4096 64 1))
  /\ totalSwitches (calculateClos showNumber (sampleConfig 1024 64 1))
     <= totalSwitches (calculateClos showNumber (sampleConfig 4096 64 1)).
Proof.
  apply (clos_monotone showNumber (sampleConfig 1024 64 1) 4096);
    [simpl; lia | simpl; lia | simpl; lia
    | vm_compute; reflexivity | vm_compute; reflexivity].
Defined.

Lemma clos_three_tier_leaves_witness :
  3 <= numLeafs (sampleConfig 1000 16 1)
  /\ closAvgHops (sampleConfig 1000 16 1) 3 = remoteLeafHops (sampleConfig 1000 16 1).
Proof.
  destruct (clos_three_tier_leaves (sampleConfig 1000 16 1))
    as (_ & _ & Hl & _ & _ & Hh);
    [simpl; lia | vm_compute; discriminate | vm_compute; reflexivity | ].
  split; assumption.
Defined.

(** Radix 16 with 641 users: 81 leaves, 7 of the 80 remote ones in the
    pod, the exact quotient is 3.825 and the result reads 3.82. *)
Lemma clos_hops_witness :
  let r := calculateClos showNumber (sampleConfig 641 16 1) in
  maxHops r = 4
  /\ (avgHops r == literal (382 # 100))%Q
  /\ exists n : Z,
       (avgHops r == literal (inject_Z n / 100))%Q
       /\ (statedHops (sampleConfig 641 16 1) - (1 # 200) <= inject_Z n / 100
           <= statedHops (sampleConfig 641 16 1) + (1 # 200))%Q.
Proof.
  destruct (clos_hops showNumber (sampleConfig 641 16 1)) as [H3 _];
    [simpl; lia | vm_compute; reflexivity | ].
  destruct H3 as (Hm & Ha & _ & Hn); [vm_compute; discriminate | ].
  split; [exact Hm|]. split; [rewrite Ha; vm_compute; reflexivity|].
  apply Hn. simpl. lia.
Defined.

(** There the quotient rounded to two decimals reads 3.83. *)
Lemma clos_hops_tie :
  ~ closHopsAsStated showNumber (sampleConfig 641 16 1).
Proof.
  intros H.
  specialize (H ltac:(simpl; lia) ltac:(vm_compute; reflexivity)
                ltac:(vm_compute; discriminate)).
  vm_compute in H. discriminate H.
Qed.

Lemma mesh_falsy_target_witness :
  calculateFullMesh showNumber (sampleConfig 1024 64 1) (Some (Fin (0 # 3)))
  = calculateFullMesh showNumber (sampleConfig 1024 64 1) None.
Proof.
  destruct (mesh_falsy_target showNumber (sampleConfig 1024 64 1)) as [Hfalsy _].
  apply Hfalsy. reflexivity.
Defined.

(** Outside the data model: a negative radix passes the radix guard,
    and radix -1 with -1 users runs the 3-tier branch with one leaf. *)
Example clos_negative_radix :
  let config := sampleConfig (-1) (-1) 1 in
  userPortsPerLeaf config = -1 /\ numLeafs config = 1
  /\ closAvgHops config 3 = 0%Q
  /\ possible (calculateClos showNumber config) = true
  /\ core (switchConfig (calculateClos showNumber config)) = Some 1.
Proof. vm_compute. auto. Qed.

(** * Further properties of the two sizers *)

(** Case analysis along the tests of [calculateClos]. *)
Ltac clos_split config :=
  let Hups := fresh "Hups" in
  let Htier := fresh "Htier" in
  let Hmax := fresh "Hmax" in
  unfold calculateClos;
  destruct (Z.eqb_spec (userPortsPerLeaf config) 0) as [Hups|Hups];
  [ | destruct (Z.leb_spec (numLeafs config) (radix config)) as [Htier|Htier];
      [ | destruct (Qltb (maxUsers3Tier config) (inject_Z (numUsers config)))
            eqn:Hmax ] ].

Section SizingProperties.

Variable toString : number -> string.

Lemma clos_within_ceiling (config : NetworkConfig) :
  0 <= radix config -> 1 <= numUsers config ->
  4 * numUsers config <= radix config ^ 3 ->
  possible (calculateClos toString config) = true.
Proof.
  intros H0 Hn Hle.
  clos_split config; cbn [possible closResult]; trivial; exfalso.
  - rewrite userPortsPerLeaf_half in Hups.
    assert (Hcases : radix config = 0 \/ radix config = 1).
    { pose proof (Z.mul_succ_div_gt (radix config) 2 eq_refl). lia. }
    destruct Hcases as [E|E]; rewrite E in Hle; lia.
  - apply Qltb_lt in Hmax.
    apply (Qlt_not_le _ _ Hmax), maxUsers3Tier_ge, Hle.
Qed.


(** X2.  The 2-tier design is chosen exactly up to [radix * floor(radix/2)]
    users: for [radix >= 2] the result is feasible without a core tier
    if and only if [numUsers <= radix * userPortsPerLeaf]. *)
Theorem clos_two_tier_iff (config : NetworkConfig) :
  let r := calculateClos toString config in
  2 <= radix config ->
  (possible r = true /\ core (switchConfig r) = None
   <-> numUsers config <= radix config * userPortsPerLeaf config).
Proof.
  intros r Hr. subst r.
  pose proof (userPortsPerLeaf_pos config Hr) as Hu.
  assert (Htier : numLeafs config <= radix config
                  <-> numUsers config <= radix config * userPortsPerLeaf config).
  { rewrite numLeafs_ceilDiv, userPortsPerLeaf_half in *.
    apply ceilDiv_le. lia. }
  clos_split config; cbn [possible closResult core switchConfig]; [lia | | | ].
  - split; [intros _; apply Htier; assumption | auto].
  - split; [intros [Hp _]; discriminate | intros Hle; apply Htier in Hle; lia].
  - split; [intros [_ Hc]; discriminate | intros Hle; apply Htier in Hle; lia].
Qed.

(** X3.  Rounding up to whole leaves overshoots by less than one leaf: for
    [radix >= 2] a feasible Clos result has
    [numUsers <= userCapacity < numUsers + userPortsPerLeaf], and
    [userCapacity] is a whole number of leaves. *)
Theorem clos_capacity_tight (config : NetworkConfig) :
  let r := calculateClos toString config in
  2 <= radix config -> possible r = true ->
  numUsers config <= userCapacity r < numUsers config + userPortsPerLeaf config
  /\ userCapacity r = numLeafs config * userPortsPerLeaf config
  /\ leafs (switchConfig r) = Some (numLeafs config).
Proof.
  intros r Hr Hp. subst r.
  pose proof (userPortsPerLeaf_pos config Hr) as Hu.
  destruct (clos_feasible_shape toString config Hp) as (_ & Hc & _).
  rewrite Hc.
  assert (Hb : (numLeafs config - 1) * userPortsPerLeaf config < numUsers config
               <= numLeafs config * userPortsPerLeaf config).
  { rewrite numLeafs_ceilDiv, userPortsPerLeaf_half in *.
    apply ceilDiv_bounds. lia. }
  split; [lia|]. split; [reflexivity|].
  revert Hp. clos_split config; simpl; try discriminate; reflexivity.
Qed.

(** X4.  The port budget of a feasible Clos result for [radix >= 2]: a leaf
    has room for its user ports and as many uplinks; the reported
    switch count is the sum of the reported tiers; the upper tier
    (spines, or cores above as many aggregation switches as leaves) is
    the least number of switches whose ports take all uplinks; and the
    fabric cables are one per user port in two tiers, two in three. *)
Theorem clos_port_budget (config : NetworkConfig) :
  let r := calculateClos toString config in
  let u := userPortsPerLeaf config in
  let l := numLeafs config in
  2 <= radix config -> possible r = true ->
  userPortsPerSwitch (switchConfig r) = Some u /\ 2 * u <= radix config
  /\ ((core (switchConfig r) = None
       /\ exists sp, spines (switchConfig r) = Some sp
            /\ totalSwitches r = l + sp
            /\ totalCables r = userCapacity r
            /\ (sp - 1) * radix config < l * u <= sp * radix config)
      \/ (exists c, core (switchConfig r) = Some c
            /\ spines (switchConfig r) = Some l
            /\ totalSwitches r = l + l + c
            /\ totalCables r = 2 * userCapacity r
            /\ (c - 1) * radix config < l * u <= c * radix config)).
Proof.
  intros r u l Hr. subst r u l.
  pose proof (userPortsPerLeaf_pos config Hr) as Hu.
  assert (H2u : 2 * userPortsPerLeaf config <= radix config).
  { rewrite userPortsPerLeaf_half.
    pose proof (Z.mul_div_le (radix config) 2 eq_refl). lia. }
  assert (Hup : forall a, (ceilDiv a (radix config) - 1) * radix config < a
                          <= ceilDiv a (radix config) * radix config)
    by (intros a; apply ceilDiv_bounds; lia).
  clos_split config;
    cbn [possible closResult core spines switchConfig userPortsPerSwitch
         totalSwitches totalCables userCapacity];
    try discriminate; intros _; (split; [reflexivity|]); (split; [exact H2u|]).
  - left. split; [reflexivity|]. eexists. split; [reflexivity|].
    rewrite upperTier_ceilDiv. auto.
  - right. eexists. split; [reflexivity|]. split; [reflexivity|].
    change (Qfloor (inject_Z (radix config) / 2)) with (userPortsPerLeaf config).
    rewrite upperTier_ceilDiv. split; [reflexivity|]. split; [ring|]. apply Hup.
Qed.

Lemma meshIteration_Found_fields (config : NetworkConfig) (target : number)
    (mfp : ext Z) (s : Z) (m : TopologyMetrics) :
  meshIteration toString config target mfp s = Found m ->
  avgHops m
  = toFixed2 (fadd (fmul (fdiv (meshOneHopTraffic config) 100) 1)
                   (fmul (fsub 1 (fdiv (meshOneHopTraffic config) 100)) 2))
  /\ maxHops m = 2
  /\ name m = "Full Mesh"%string
  /\ meshSwitches (switchConfig m) = Some (totalSwitches m).
Proof.
  unfold meshIteration.
  destruct (linksPerPeer mfp s) as [ | | | l]; try discriminate.
  destruct (radix config - l * (s - 1) <=? 0).
  - destruct (l =? 1); discriminate.
  - destruct (geb _ target); [|discriminate].
    intros [= <-]. cbn. repeat split; reflexivity.
Qed.

(** Every result found by the search was accepted by the loop body. *)
Lemma calculateFullMesh_cases (config : NetworkConfig)
    (requiredUserPorts : option number) :
  let r := calculateFullMesh toString config requiredUserPorts in
  (possible r = false /\ zeroed r)
  \/ (possible r = true
      /\ exists s, 2 <= s <= 500
           /\ meshIteration toString config
                (targetUsers config requiredUserPorts) (minFabricPorts config) s
              = Found r).
Proof.
  intros r. destruct (possible r) eqn:Hp.
  - right. split; trivial.
    destruct (calculateFullMesh_possible toString config requiredUserPorts Hp)
      as (s & Hs & Hf & _). eauto.
  - left. split; trivial.
    apply (calculateFullMesh_impossible toString config requiredUserPorts Hp).
Qed.

(** The power of a feasible Clos result, as line 101 computes it. *)
Lemma clos_power_eq (config : NetworkConfig) :
  let clos := calculateClos toString config in
  possible clos = true ->
  totalPower clos
  = fadd (fmul (inject_Z (totalSwitches clos)) (powerPerSwitch config))
         (fmul (fmul (inject_Z (totalCables clos)) (cablePowerClos config)) 2).
Proof.
  clos_split config;
    cbn [possible totalPower totalSwitches totalCables closResult];
    try discriminate; reflexivity.
Qed.

(** X6.  With non-negative unit powers, raising [numUsers] (from at least
    1, at a fixed radix of at least 2) never lowers the fabric cable
    count or the total power between two feasible Clos results. *)
Theorem clos_cost_monotone (config : NetworkConfig) (u' : Z) :
  1 <= numUsers config -> numUsers config <= u' -> 2 <= radix config ->
  (0 <= powerPerSwitch config)%Q -> (0 <= cablePowerClos config)%Q ->
  possible (calculateClos toString config) = true ->
  possible (calculateClos toString (withNumUsers config u')) = true ->
  totalCables (calculateClos toString config)
  <= totalCables (calculateClos toString (withNumUsers config u'))
  /\ (totalPower (calculateClos toString config)
      <= totalPower (calculateClos toString (withNumUsers config u')))%Q.
Proof.
  intros Hn Hle Hr Hps Hpc Hp Hp'.
  pose proof (userPortsPerLeaf_pos config Hr) as Hu.
  pose proof (numLeafs_mono config u' Hr Hle) as Hmono.
  pose proof (numLeafs_pos config Hr Hn) as Hl.
  pose proof (clos_power_eq config Hp) as Hpow.
  pose proof (clos_power_eq (withNumUsers config u') Hp') as Hpow'.
  cbv zeta in Hpow, Hpow'.
  change (powerPerSwitch (withNumUsers config u')) with (powerPerSwitch config) in *.
  change (cablePowerClos (withNumUsers config u')) with (cablePowerClos config) in *.
  destruct (clos_feasible_shape toString config Hp) as (_ & _ & Hs).
  destruct (clos_feasible_shape toString (withNumUsers config u') Hp') as (_ & _ & Hs').
  change (userPortsPerLeaf (withNumUsers config u'))
    with (userPortsPerLeaf config) in *.
  change (radix (withNumUsers config u')) with (radix config) in *.
  set (l := numLeafs config) in *.
  set (l' := numLeafs (withNumUsers config u')) in *.
  set (u := userPortsPerLeaf config) in *.
  assert (Hup : ceilDiv (l * u) (radix config) <= ceilDiv (l' * u) (radix config))
    by (apply ceilDiv_mono; nia).
  assert (Hsw : totalSwitches (calculateClos toString config)
                <= totalSwitches (calculateClos toString (withNumUsers config u'))
                /\ totalCables (calculateClos toString config)
                   <= totalCables (calculateClos toString (withNumUsers config u'))).
  { destruct Hs as [(Ht & -> & -> & _)|(Ht & -> & -> & _)];
      destruct Hs' as [(Ht' & -> & -> & _)|(Ht' & -> & -> & _)]; split; nia. }
  destruct Hsw as [Hsw Hcb]. split; [exact Hcb|].
  rewrite Hpow, Hpow'.
  rewrite Zle_Qle in Hsw, Hcb.
  unfold fadd, fmul. apply round_mono, Qplus_le_compat; apply round_mono.
  - apply Qmult_le_compat_r; assumption.
  - apply Qmult_le_compat_r; [|discriminate].
    apply round_mono, Qmult_le_compat_r; assumption.
Qed.

(** ** The mesh search *)

Lemma meshIteration_Break (config : NetworkConfig) (target : number)
    (mfp : ext Z) (s : Z) :
  meshIteration toString config target mfp s = Break ->
  radix config - (s - 1) <= 0.
Proof.
  unfold meshIteration.
  destruct (linksPerPeer mfp s) as [ | | | l]; try discriminate.
  destruct (Z.leb_spec (radix config - l * (s - 1)) 0) as [Hle|Hgt].
  - destruct (Z.eqb_spec l 1) as [->|]; [|discriminate]. intros _. lia.
  - destruct (geb _ target); discriminate.
Qed.

(** Once a single link per peer leaves no user port, no larger switch
    count is accepted: the [break] of line 182 loses nothing. *)
Lemma meshFits_beyond (config : NetworkConfig) (target : number) (mfp : ext Z)
    (s s' l : Z) :
  1 <= s -> radix config - (s - 1) <= 0 -> s <= s' ->
  ~ meshFits config target mfp s' l.
Proof.
  intros Hs Hfull Hle (Hl & Hpos & _).
  apply linksPerPeer_ge1 in Hl. nia.
Qed.

Lemma meshSearch_None (config : NetworkConfig) (target : number) (mfp : ext Z)
    (n : nat) :
  forall s0 : Z, 1 <= s0 ->
  meshSearch toString config target mfp n s0 = None ->
  forall s l, s0 <= s < s0 + Z.of_nat n -> ~ meshFits config target mfp s l.
Proof.
  induction n as [|n IH]; intros s0 Hs0 Hnone s l Hrange; [lia|].
  cbn [meshSearch] in Hnone.
  destruct (meshIteration toString config target mfp s0) as [ | |m] eqn:Hit.
  - apply meshIteration_Break in Hit.
    apply (meshFits_beyond config target mfp s0); lia.
  - destruct (Z.eq_dec s s0) as [->|Hne].
    + apply (meshIteration_rejects toString). intros m. rewrite Hit. discriminate.
    + apply (IH (s0 + 1)); trivial; lia.
  - discriminate.
Qed.

(** X7.  The search is complete: with a positive ratio, the fabric-port
    budget [minFabricPorts] that line 166 computes and a finite target
    [T], [calculateFullMesh] is feasible exactly when some switch count
    in [[2, 500]] leaves user ports and reaches [T] under that budget;
    neither the early exit nor the skipped counts hide a solution. *)
Theorem mesh_feasible_iff (config : NetworkConfig)
    (requiredUserPorts : option number) (T : Q) :
  (0 < meshFabricRatio config)%Q ->
  targetUsers config requiredUserPorts = Fin T ->
  minFabricPorts config = Fin (ratioFabricPorts config)
  /\ (possible (calculateFullMesh toString config requiredUserPorts) = true
      <-> exists S, 2 <= S <= 500
            /\ meshAdmits config (ratioFabricPorts config) T S).
Proof.
  intros Hpos HT. split; [apply minFabricPorts_Fin; exact Hpos|]. split.
  - intros Hp.
    destruct (calculateFullMesh_possible toString config requiredUserPorts Hp)
      as (s & Hrange & Hfound & _).
    rewrite HT, (minFabricPorts_Fin config Hpos) in Hfound.
    destruct (meshIteration_Found _ _ _ _ _ _ Hfound) as (l & Hfit & _).
    apply meshFits_admits in Hfit. exists s. split; [lia | apply Hfit].
  - intros (S & HS & Hadm).
    destruct (possible (calculateFullMesh toString config requiredUserPorts))
      eqn:Hp; trivial.
    destruct (calculateFullMesh_impossible toString config requiredUserPorts Hp)
      as [Hnone _].
    rewrite HT, (minFabricPorts_Fin config Hpos) in Hnone.
    exfalso.
    apply (meshSearch_None _ _ _ _ 2 ltac:(lia) Hnone S
             (peerLinks (ratioFabricPorts config) S));
      [lia|].
    apply meshFits_admits. auto.
Qed.

(** What the accepted pass of the search leaves in the result. *)
Lemma mesh_possible_shape (config : NetworkConfig)
    (requiredUserPorts : option number) :
  let r := calculateFullMesh toString config requiredUserPorts in
  possible r = true ->
  exists s l, 2 <= s <= 500 /\ 1 <= l /\ 0 < radix config - l * (s - 1)
    /\ totalSwitches r = s
    /\ meshSwitches (switchConfig r) = Some s
    /\ userPortsPerSwitch (switchConfig r) = Some (radix config - l * (s - 1))
    /\ userCapacity r = s * (radix config - l * (s - 1)).
Proof.
  intros r Hp. subst r.
  destruct (calculateFullMesh_possible toString config requiredUserPorts Hp)
    as (s & Hrange & Hfound & _).
  destruct (meshIteration_Found_fields _ _ _ _ _ Hfound) as (_ & _ & _ & Hms).
  destruct (meshIteration_Found _ _ _ _ _ _ Hfound)
    as (l & (Hl & HUpos & _) & Hts & _ & Hcap & _ & Hsc).
  apply linksPerPeer_ge1 in Hl. rewrite Hts in Hms.
  exists s, l. auto 10.
Qed.

(** A full mesh of [s] switches with [l] links per peer on [r] ports. *)
Lemma mesh_capacity_square (r s l : Z) :
  2 <= s -> 1 <= l -> 0 < r - l * (s - 1) ->
  s <= r /\ r - l * (s - 1) <= r - (s - 1)
  /\ 4 * (s * (r - l * (s - 1))) <= (r + 1) ^ 2.
Proof.
  intros Hs Hl Hpos.
  replace ((r + 1) ^ 2) with ((r + 1) * (r + 1)) by ring.
  assert (Hu : r - l * (s - 1) <= r + 1 - s) by nia.
  assert (Hsu : s * (r - l * (s - 1)) <= s * (r + 1 - s))
    by (apply Z.mul_le_mono_nonneg_l; lia).
  pose proof (Z.square_nonneg (r + 1 - 2 * s)).
  split; [nia|]. split; [lia | nia].
Qed.

(** X8.  A feasible mesh never has more switches than ports per switch:
    whatever the ratio and the target, it reports between 2 and
    [min(500, radix)] switches, between 1 and [radix - (S - 1)] user
    ports on each, a capacity of [S] times that, and so at most
    [(radix + 1)^2 / 4] user ports in all. *)
Theorem mesh_bounds (config : NetworkConfig) (requiredUserPorts : option number) :
  let r := calculateFullMesh toString config requiredUserPorts in
  let S := totalSwitches r in
  possible r = true ->
  2 <= S <= 500 /\ S <= radix config
  /\ meshSwitches (switchConfig r) = Some S
  /\ exists U, userPortsPerSwitch (switchConfig r) = Some U
       /\ 1 <= U <= radix config - (S - 1)
       /\ userCapacity r = S * U
       /\ 4 * userCapacity r <= (radix config + 1) ^ 2.
Proof.
  intros r S Hp. subst r S.
  destruct (mesh_possible_shape config requiredUserPorts Hp)
    as (s & l & Hs & Hl & Hpos & -> & Hms & Hsc & Hcap).
  destruct (mesh_capacity_square (radix config) s l) as (Hsr & HU & Hsq);
    try lia.
  split; [exact Hs|]. split; [exact Hsr|]. split; [exact Hms|].
  exists (radix config - l * (s - 1)).
  split; [exact Hsc|]. split; [lia|]. split; [exact Hcap|].
  rewrite Hcap. exact Hsq.
Qed.

(** X9.  Every fabric cable of a feasible mesh ends in two fabric ports:
    each of the [S] switches gives [radix - U = linksPerPeer * (S - 1)]
    ports to the fabric, the cables are [linksPerPeer] per pair of
    switches, and twice the cable count is [S * (radix - U)]. *)
Theorem mesh_cables (config : NetworkConfig) (requiredUserPorts : option number)
    (U : Z) :
  let r := calculateFullMesh toString config requiredUserPorts in
  let S := totalSwitches r in
  possible r = true ->
  userPortsPerSwitch (switchConfig r) = Some U ->
  exists l, 1 <= l
    /\ radix config - U = l * (S - 1)
    /\ totalCables r = S * (S - 1) / 2 * l
    /\ 2 * totalCables r = S * (radix config - U).
Proof.
  intros r S Hp HU. subst r S.
  destruct (calculateFullMesh_possible toString config requiredUserPorts Hp)
    as (s & Hrange & Hfound & _).
  destruct (meshIteration_Found _ _ _ _ _ _ Hfound)
    as (l & (Hl & HUpos & _) & Hts & Hcb & _ & _ & Hsc).
  apply linksPerPeer_ge1 in Hl.
  rewrite Hsc in HU. injection HU as <-.
  rewrite Hts, Hcb. exists l. repeat split; try lia.
  pose proof (mesh_pairs_exact s). nia.
Qed.

(** The one-hop blend of lines 197-198 evaluated in doubles, for a
    share between 0 and 100 percent. *)
Lemma one_hop_blend (p : Q) :
  (0 <= p <= 100)%Q ->
  let h := fadd (fmul (fdiv p 100) 1) (fmul (fsub 1 (fdiv p 100)) 2) in
  (1 <= h <= 2)%Q /\ (2 - p / 100 - 9 * eps <= h <= 2 - p / 100 + 9 * eps)%Q.
Proof.
  intros Hp h. subst h. unfold fadd, fmul, fsub, fdiv.
  set (x := (p / 100)%Q).
  assert (Hx : (0 <= x <= 1)%Q).
  { unfold x. split; [apply Qle_shift_div_l | apply Qle_shift_div_r];
      solve [reflexivity | lra]. }
  pose proof eps_value as Heps.
  assert (E54 : (pow2 (-1 - 53) == 1 # 18014398509481984)%Q) by reflexivity.
  assert (E53 : (pow2 (0 - 53) == 1 # 9007199254740992)%Q) by reflexivity.
  assert (E52 : (pow2 (1 - 53) == 1 # 4503599627370496)%Q) by reflexivity.
  assert (Ehalf : (pow2 (-1) == 1 # 2)%Q) by reflexivity.
  assert (Eone : (pow2 0 == 1)%Q) by reflexivity.
  assert (Etwo : (pow2 1 == 2)%Q) by reflexivity.
  assert (Rhalf : (round (1 # 2) == 1 # 2)%Q) by (vm_compute; reflexivity).
  pose proof (round_within x 1 Hx) as Ex.
  assert (Pr : (0 <= round x <= 1)%Q) by (split; [round_bound 0 | round_bound 1]).
  assert (EA : (round (round x * 1) == round x)%Q).
  { rewrite (round_comp (round x * 1) (round x)) by ring. apply round_idem. }
  rewrite EA. set (r1 := round x) in *.
  set (y := (1 - r1)%Q).
  assert (Hy : (0 <= y <= 1)%Q) by (unfold y; lra).
  pose proof (round_within y 1 Hy) as Ey.
  pose proof (round_relative y (proj1 Hy)) as Ry.
  assert (Pc : (0 <= round y <= 1)%Q) by (split; [round_bound 0 | round_bound 1]).
  set (c := round y) in *.
  assert (Hc2 : (0 <= c * 2 <= 2)%Q) by lra.
  pose proof (round_within (c * 2) 2 Hc2) as EB.
  pose proof (round_relative (c * 2) (proj1 Hc2)) as RB.
  assert (PB : (0 <= round (c * 2) <= 2)%Q)
    by (split; [round_bound 0 | round_bound 2]).
  set (B := round (c * 2)) in *.
  assert (HS : (0 <= r1 + B <= 3)%Q) by lra.
  pose proof (round_within (r1 + B) 3 HS) as ES.
  rewrite Heps in *.
  split; [|unfold y in *; split; lra].
  split.
  - assert (G : (1 <= r1 + B)%Q) by (unfold y in *; lra).
    round_bound 1.
  - destruct (Qlt_le_dec r1 (1 # 2)) as [Lo | Hi].
    + assert (Hyb : (pow2 (-1) <= y <= pow2 (-1 + 1))%Q)
        by (change (-1 + 1)%Z with 0%Z; rewrite Ehalf, Eone; unfold y; lra).
      pose proof (round_binade y (-1) Hyb) as By. fold c in By.
      assert (Hc' : (1 # 2 <= c)%Q).
      { rewrite <- Rhalf. apply round_mono. unfold y. lra. }
      assert (Hcb : (pow2 0 <= c * 2 <= pow2 (0 + 1))%Q)
        by (change (0 + 1)%Z with 1%Z; rewrite Eone, Etwo; lra).
      pose proof (round_binade (c * 2) 0 Hcb) as Bc. fold B in Bc.
      rewrite E54 in By. rewrite E53 in Bc.
      destruct (Qlt_le_dec (r1 + B) 2) as [Lt2 | Ge2].
      * round_bound 2.
      * assert (Habove : (pow2 1 <= r1 + B <= pow2 1 + pow2 (1 - 53))%Q)
          by (rewrite Etwo, E52; unfold y in *; lra).
        rewrite (round_above_pow2 _ 1 Habove), Etwo. apply Qle_refl.
    + assert (Hc' : (c <= 1 # 2)%Q).
      { rewrite <- Rhalf. apply round_mono. unfold y. lra. }
      assert (HB1 : (B <= 1)%Q) by (unfold B; round_bound 1).
      assert (G : (r1 + B <= 2)%Q) by lra.
      round_bound 2.
Qed.

(** X10.  The hop blend of a feasible mesh: at most 2 hops, and on average
    [toFixed(2)] of the blend of lines 197-198, [1] hop for the share
    [meshOneHopTraffic] percent of the traffic and [2] for the rest,
    evaluated in doubles; for a share between 0 and 100 that is between
    1 and 2 and within [0.005 + 2^-49] of
    [2 - meshOneHopTraffic / 100]. *)
Theorem mesh_hops (config : NetworkConfig) (requiredUserPorts : option number) :
  let r := calculateFullMesh toString config requiredUserPorts in
  let p := meshOneHopTraffic config in
  possible r = true ->
  maxHops r = 2
  /\ avgHops r = toFixed2 (fadd (fmul (fdiv p 100) 1) (fmul (fsub 1 (fdiv p 100)) 2))
  /\ ((0 <= p <= 100)%Q ->
      (1 <= avgHops r <= 2)%Q
      /\ (2 - p / 100 - (1 # 200) - 16 * eps <= avgHops r
          <= 2 - p / 100 + (1 # 200) + 16 * eps)%Q).
Proof.
  intros r p Hp. subst r.
  destruct (calculateFullMesh_possible toString config requiredUserPorts Hp)
    as (s & _ & Hfound & _).
  destruct (meshIteration_Found_fields _ _ _ _ _ Hfound)
    as (Hav & Hmax & _).
  fold p in Hav.
  split; [exact Hmax|]. split; [exact Hav|].
  intros Hrange. rewrite Hav.
  destruct (one_hop_blend p Hrange) as [Hh Herr]. cbv zeta in Hh, Herr.
  set (h := fadd (fmul (fdiv p 100) 1) (fmul (fsub 1 (fdiv p 100)) 2)) in *.
  split.
  - apply (toFixed2_between h 1 2); [lia | lia | exact Hh].
  - rewrite toFixed2_hundredths
      by first [lra | apply Qle_lt_trans with 2%Q; [lra | reflexivity]].
    pose proof (hundredths_near h) as Hnear.
    pose proof (hundredths_between h 1 2 Hh) as Hbetween.
    change (inject_Z 1) with 1%Q in Hbetween.
    change (inject_Z 2) with 2%Q in Hbetween.
    assert (Hlit : (hundredths h - 2 * eps <= literal (hundredths h)
                    <= hundredths h + 2 * eps)%Q)
      by (apply round_within; lra).
    rewrite eps_value in *. split; lra.
Qed.

(** The first acceptance of the search, in the terms of the design. *)
Lemma mesh_first_admitted (config : NetworkConfig)
    (requiredUserPorts : option number) (T : Q) :
  let r := calculateFullMesh toString config requiredUserPorts in
  let m := ratioFabricPorts config in
  (0 < meshFabricRatio config)%Q ->
  targetUsers config requiredUserPorts = Fin T ->
  possible r = true ->
  2 <= totalSwitches r <= 500
  /\ meshAdmits config m T (totalSwitches r)
  /\ (forall S', 2 <= S' < totalSwitches r -> ~ meshAdmits config m T S')
  /\ userCapacity r = totalSwitches r * meshUserPorts config m (totalSwitches r).
Proof.
  intros r m Hpos HT Hp. subst r m.
  destruct (calculateFullMesh_possible toString config requiredUserPorts Hp)
    as (s & Hrange & Hfound & Hbefore).
  rewrite HT, (minFabricPorts_Fin config Hpos) in Hfound, Hbefore.
  destruct (meshIteration_Found _ _ _ _ _ _ Hfound)
    as (l & Hfit & Hts & _ & Hcap & _).
  apply meshFits_admits in Hfit. destruct Hfit as (-> & Hadm).
  rewrite Hts. split; [lia|]. split; [exact Hadm|]. split; [|exact Hcap].
  intros S' HS' Hadm'.
  apply (meshIteration_rejects toString config (Fin T)
           (Fin (ratioFabricPorts config)) S')
    with (l := peerLinks (ratioFabricPorts config) S').
  - intros m. rewrite (Hbefore S' HS'). discriminate.
  - apply meshFits_admits. auto.
Qed.

(** X11.  A larger target never gets a smaller mesh: with a positive ratio,
    of two feasible results for the targets [T1 <= T2] the second has
    at least the switches and at least the capacity of the first. *)
Theorem mesh_monotone (config : NetworkConfig) (a1 a2 : option number) (T1 T2 : Q) :
  (0 < meshFabricRatio config)%Q ->
  targetUsers config a1 = Fin T1 -> targetUsers config a2 = Fin T2 ->
  (T1 <= T2)%Q ->
  possible (calculateFullMesh toString config a1) = true ->
  possible (calculateFullMesh toString config a2) = true ->
  totalSwitches (calculateFullMesh toString config a1)
  <= totalSwitches (calculateFullMesh toString config a2)
  /\ userCapacity (calculateFullMesh toString config a1)
     <= userCapacity (calculateFullMesh toString config a2).
Proof.
  intros Hpos H1 H2 Hle Hp1 Hp2.
  destruct (mesh_first_admitted config a1 T1 Hpos H1 Hp1)
    as (Hr1 & (Hu1 & Hc1) & Hmin1 & Hcap1).
  destruct (mesh_first_admitted config a2 T2 Hpos H2 Hp2)
    as (Hr2 & (Hu2 & Hc2) & Hmin2 & Hcap2).
  remember (totalSwitches (calculateFullMesh toString config a1)) as S1 eqn:E1.
  remember (totalSwitches (calculateFullMesh toString config a2)) as S2 eqn:E2.
  clear E1 E2.
  assert (HS : S1 <= S2).
  { destruct (Z_le_gt_dec S1 S2) as [|Hgt]; trivial.
    exfalso. apply (Hmin1 S2); [lia|]. split; [exact Hu2|].
    apply Qle_trans with T2; assumption. }
  split; [exact HS|]. rewrite Hcap1, Hcap2.
  destruct (Z.eq_dec S1 S2) as [->|Hne]; [lia|].
  destruct (Z_le_gt_dec (S1 * meshUserPorts config (ratioFabricPorts config) S1)
              (S2 * meshUserPorts config (ratioFabricPorts config) S2))
    as [|Hgt]; trivial.
  exfalso. apply (Hmin2 S1); [lia|]. split; [exact Hu1|].
  eapply Qle_trans; [exact Hc2|]. rewrite <- Zle_Qle. lia.
Qed.

Lemma meshSearch_withNumUsers (config : NetworkConfig) (u : Z) (target : number)
    (mfp : ext Z) (n : nat) :
  forall s : Z,
  meshSearch toString (withNumUsers config u) target mfp n s
  = meshSearch toString config target mfp n s.
Proof.
  induction n as [|n IH]; intros s; [reflexivity|].
  cbn [meshSearch]. rewrite IH. reflexivity.
Qed.

(** X12.  With an argument that is neither zero nor [NaN], [numUsers] plays
    no part in the mesh result. *)
Theorem mesh_ignores_numUsers (config : NetworkConfig) (u : Z) (x : number) :
  truthy x = true ->
  calculateFullMesh toString (withNumUsers config u) (Some x)
  = calculateFullMesh toString config (Some x).
Proof.
  intros Hx. unfold calculateFullMesh, targetUsers. cbn [or_else].
  rewrite Hx, meshSearch_withNumUsers. reflexivity.
Qed.

(** The 3-tier hop blend evaluated in doubles stays between 2 and 4
    when at least half of the remote leaves are outside the pod. *)
Lemma hop_blend_range (a b d : Z) :
  0 <= a -> a <= b -> 0 < d -> d = a + b ->
  let h := fadd (fmul (fdiv (inject_Z a) (inject_Z d)) 2)
                (fmul (fdiv (inject_Z b) (inject_Z d)) 4) in
  (2 <= h <= 4)%Q.
Proof.
  intros Ha Hab Hd Hsum h. subst h. unfold fadd, fmul, fdiv.
  assert (HD : (0 < inject_Z d)%Q)
    by (change 0%Q with (inject_Z 0); rewrite <- Zlt_Qlt; exact Hd).
  assert (HA : (0 <= inject_Z a)%Q)
    by (change 0%Q with (inject_Z 0); rewrite <- Zle_Qle; exact Ha).
  assert (HAB : (inject_Z a <= inject_Z b)%Q) by (rewrite <- Zle_Qle; exact Hab).
  assert (HS : (inject_Z d == inject_Z a + inject_Z b)%Q)
    by (rewrite Hsum, inject_Z_plus; reflexivity).
  set (x := (inject_Z a / inject_Z d)%Q).
  set (y := (inject_Z b / inject_Z d)%Q).
  assert (Hxy : (x + y == 1)%Q) by (unfold x, y; field_simplify_eq; lra).
  assert (Hx : (0 <= x)%Q) by (unfold x; apply Qle_shift_div_l; lra).
  assert (Hy : (x <= y)%Q).
  { unfold x, y. apply Qmult_le_compat_r; [exact HAB|].
    apply Qlt_le_weak, Qinv_lt_0_compat, HD. }
  pose proof eps_value as Heps.
  assert (E54 : (pow2 (-1 - 53) == 1 # 18014398509481984)%Q) by reflexivity.
  assert (E52 : (pow2 (1 - 53) == 1 # 4503599627370496)%Q) by reflexivity.
  assert (E51 : (pow2 (2 - 53) == 1 # 2251799813685248)%Q) by reflexivity.
  assert (Ehalf : (pow2 (-1) == 1 # 2)%Q) by reflexivity.
  assert (Eone : (pow2 0 == 1)%Q) by reflexivity.
  assert (Etwo : (pow2 1 == 2)%Q) by reflexivity.
  assert (Efour : (pow2 2 == 4)%Q) by reflexivity.
  assert (Rhalf : (round (1 # 2) == 1 # 2)%Q) by (vm_compute; reflexivity).
  assert (Hyb : (pow2 (-1) <= y <= pow2 (-1 + 1))%Q)
    by (change (-1 + 1)%Z with 0%Z; rewrite Ehalf, Eone; lra).
  pose proof (round_binade y (-1) Hyb) as By.
  assert (Pq : (1 # 2 <= round y <= 1)%Q).
  { split; [rewrite <- Rhalf; apply round_mono; lra | round_bound 1]. }
  set (q := round y) in *.
  assert (Hqb : (pow2 1 <= q * 4 <= pow2 (1 + 1))%Q)
    by (change (1 + 1)%Z with 2%Z; rewrite Etwo, Efour; lra).
  pose proof (round_binade (q * 4) 1 Hqb) as Bq.
  assert (P2 : (2 <= round (q * 4))%Q) by round_bound 2.
  set (t2 := round (q * 4)) in *.
  pose proof (round_relative x Hx) as Rx.
  assert (Pp : (0 <= round x)%Q) by round_bound 0.
  set (p := round x) in *.
  assert (Hp2 : (0 <= p * 2)%Q) by lra.
  pose proof (round_relative (p * 2) Hp2) as Rp.
  assert (P1 : (0 <= round (p * 2))%Q) by round_bound 0.
  set (t1 := round (p * 2)) in *.
  rewrite Heps, ?E54, ?E52 in *.
  split.
  - assert (G : (2 <= t1 + t2)%Q) by lra. round_bound 2.
  - destruct (Qlt_le_dec (t1 + t2) 4) as [Lt4 | Ge4].
    + round_bound 4.
    + assert (Habove : (pow2 2 <= t1 + t2 <= pow2 2 + pow2 (2 - 53))%Q)
        by (rewrite Efour, E51; lra).
      rewrite (round_above_pow2 _ 2 Habove), Efour. apply Qle_refl.
Qed.

(** X27.  The 3-tier hop estimate is a weighted mean of 2 and 4: for a
    non-negative radix, in a feasible 3-tier result the leaves in the
    pod and the leaves outside it are all the [numLeafs - 1] remote
    leaves, and [avgHops] lies between 2 and 4. *)
Theorem clos_hops_range (config : NetworkConfig) :
  let r := calculateClos toString config in
  let leavesPerPod := Qfloor (inject_Z (radix config) / 2) in
  0 <= radix config -> possible r = true -> core (switchConfig r) <> None ->
  Z.max 0 (Z.min leavesPerPod (numLeafs config) - 1)
  + Z.max 0 (numLeafs config - leavesPerPod) = numLeafs config - 1
  /\ (2 <= avgHops r <= 4)%Q.
Proof.
  intros r leavesPerPod H0. subst r.
  clos_split config; cbn [possible closResult core switchConfig avgHops];
    try discriminate; intros _ Hcore; [contradiction|].
  destruct (three_tier_numLeafs config H0) as (Hr & Hu & Hl3); trivial.
  assert (Hlpp : leavesPerPod = userPortsPerLeaf config) by reflexivity.
  assert (H2u : 2 * leavesPerPod <= radix config).
  { rewrite Hlpp, userPortsPerLeaf_half.
    pose proof (Z.mul_div_le (radix config) 2 eq_refl). lia. }
  assert (Hsum : Z.max 0 (Z.min leavesPerPod (numLeafs config) - 1)
                 + Z.max 0 (numLeafs config - leavesPerPod)
                 = numLeafs config - 1) by lia.
  split; [exact Hsum|].
  apply (toFixed2_between _ 2 4); [lia | lia |].
  rewrite closAvgHops_remote by lia. unfold remoteLeafHops. fold leavesPerPod.
  apply hop_blend_range; lia.
Qed.

End SizingProperties.

(** * The callers: the application and the chart *)

Section CallerProperties.

Variable toString : number -> string.

Lemma truthy_ofZ (z : Z) : truthy (ofZ z) = negb (z =? 0).
Proof.
  unfold truthy, ofZ. f_equal.
  destruct (Z.eqb_spec z 0) as [->|Hne]; [reflexivity|].
  destruct (Qeq_bool (inject_Z z) 0) eqn:E; trivial.
  apply Qeq_bool_eq in E. unfold Qeq in E. simpl in E. lia.
Qed.

Lemma geb_ofZ (a b : Z) : geb (inject_Z a) (ofZ b) = true <-> b <= a.
Proof.
  unfold geb, ofZ. rewrite Qle_bool_iff, <- Zle_Qle. reflexivity.
Qed.

(** A feasible Clos result for a sensible request has a positive capacity. *)
Lemma clos_possible_capacity (config : NetworkConfig) :
  0 <= radix config -> 1 <= numUsers config ->
  possible (calculateClos toString config) = true ->
  2 <= radix config
  /\ numUsers config <= userCapacity (calculateClos toString config).
Proof.
  intros H0 Hn Hp.
  destruct (clos_feasible_shape toString config Hp) as (Hu & -> & _).
  pose proof (userPortsPerLeaf_guard config H0 Hu) as Hr.
  split; [exact Hr | apply numLeafs_covers; exact Hr].
Qed.

Lemma mesh_possible_capacity (config : NetworkConfig)
    (requiredUserPorts : option number) :
  let r := calculateFullMesh toString config requiredUserPorts in
  possible r = true ->
  0 < userCapacity r
  /\ geb (inject_Z (userCapacity r)) (targetUsers config requiredUserPorts) = true.
Proof.
  intros r Hp. subst r.
  destruct (calculateFullMesh_possible toString config requiredUserPorts Hp)
    as (s & Hrange & Hfound & _).
  destruct (meshIteration_Found _ _ _ _ _ _ Hfound)
    as (l & (_ & HUpos & Hge) & _ & _ & -> & _).
  split; [nia | exact Hge].
Qed.

(** X13.  The application compares the designs at equal scale: when the Clos
    design is feasible (non-negative radix, at least one user) its
    capacity is the target of the mesh search, and a feasible mesh
    offers at least the Clos capacity, which covers the request. *)
Theorem app_equal_scale (config : NetworkConfig) :
  let d := App.derived toString config in
  0 <= radix config -> 1 <= numUsers config ->
  possible (App.closMetrics d) = true ->
  targetUsers config (Some (ofZ (userCapacity (App.closMetrics d))))
  = ofZ (userCapacity (App.closMetrics d))
  /\ (possible (App.meshMetrics d) = true ->
      numUsers config <= userCapacity (App.closMetrics d)
      /\ userCapacity (App.closMetrics d) <= userCapacity (App.meshMetrics d)).
Proof.
  intros d H0 Hn Hp. subst d. cbn [App.derived App.closMetrics App.meshMetrics] in *.
  destruct (clos_possible_capacity config H0 Hn Hp) as [Hr Hcap].
  assert (Ht : targetUsers config
                 (Some (ofZ (userCapacity (calculateClos toString config))))
               = ofZ (userCapacity (calculateClos toString config))).
  { unfold targetUsers. cbn [or_else]. rewrite truthy_ofZ.
    destruct (Z.eqb_spec (userCapacity (calculateClos toString config)) 0);
      [lia | reflexivity]. }
  split; [exact Ht|]. intros Hm.
  destruct (mesh_possible_capacity config _ Hm) as [_ Hge].
  rewrite Ht in Hge. apply geb_ofZ in Hge. lia.
Qed.

(** X14.  In the application the mesh is never feasible where the Clos
    design is not: an infeasible Clos result hands the mesh search the
    capacity 0, the search falls back to [numUsers], and a request
    above the 3-tier ceiling is beyond every mesh of that radix. *)
Theorem app_infeasible_together (config : NetworkConfig) :
  let d := App.derived toString config in
  0 <= radix config -> 1 <= numUsers config ->
  possible (App.closMetrics d) = false ->
  possible (App.meshMetrics d) = false.
Proof.
  intros d H0 Hn Hp. subst d. cbn [App.derived App.closMetrics App.meshMetrics] in *.
  destruct (calculateClos_impossible toString config Hp)
    as (_ & _ & _ & _ & _ & Hcap & _).
  rewrite Hcap.
  destruct (possible (calculateFullMesh toString config (Some (ofZ 0)))) eqn:Hm;
    trivial.
  exfalso.
  destruct (mesh_possible_capacity config _ Hm) as [_ Hge].
  change (targetUsers config (Some (ofZ 0))) with (ofZ (numUsers config)) in Hge.
  apply geb_ofZ in Hge.
  destruct (mesh_possible_shape toString config _ Hm)
    as (s & l & HS & Hl & Hpos & _ & _ & _ & Hcapm).
  destruct (mesh_capacity_square (radix config) s l) as (HSr & _ & Hsq);
    [lia | exact Hl | exact Hpos |].
  rewrite <- Hcapm in Hsq.
  assert (Hcube : ~ 4 * numUsers config <= radix config ^ 3).
  { intros Hle. apply (clos_within_ceiling toString config H0 Hn) in Hle. congruence. }
  apply Hcube.
  replace (radix config ^ 3) with (radix config * radix config * radix config)
    by ring.
  replace ((radix config + 1) ^ 2) with ((radix config + 1) * (radix config + 1))
    in Hsq by ring.
  destruct (Z.eq_dec (radix config) 2) as [E|Hne].
  - rewrite E in *. lia.
  - assert (H3 : 3 <= radix config) by lia.
    assert (H3r : 3 * (radix config * radix config)
                  <= radix config * radix config * radix config) by nia.
    nia.
Qed.

(** X15.  The per-port power of the application loses nothing to its guard
    against a zero capacity, and at most one rounding to its division:
    for a non-negative radix and at least one user, per-port power
    times capacity is within the share [2^-53] of the total power, for
    both designs, feasible or not. *)
Theorem app_power_per_port (config : NetworkConfig) :
  let d := App.derived toString config in
  0 <= radix config -> 1 <= numUsers config ->
  (Qabs (App.closPowerPerPort d * inject_Z (userCapacity (App.closMetrics d))
         - totalPower (App.closMetrics d))
   <= eps * Qabs (totalPower (App.closMetrics d)))%Q
  /\ (Qabs (App.meshPowerPerPort d * inject_Z (userCapacity (App.meshMetrics d))
            - totalPower (App.meshMetrics d))
      <= eps * Qabs (totalPower (App.meshMetrics d)))%Q.
Proof.
  intros d H0 Hn. subst d.
  cbn [App.derived App.closMetrics App.meshMetrics App.closPowerPerPort
       App.meshPowerPerPort].
  assert (Hdiv : forall (P : Q) (c : Z), 0 < c ->
            (Qabs (fdiv P (inject_Z c) * inject_Z c - P) <= eps * Qabs P)%Q).
  { intros P c Hc. unfold fdiv.
    assert (Hcq : (0 < inject_Z c)%Q)
      by (change 0%Q with (inject_Z 0); rewrite <- Zlt_Qlt; exact Hc).
    set (C := inject_Z c) in *.
    assert (E1 : (round (P / C) * C - P == (round (P / C) - P / C) * C)%Q)
      by (field; lra).
    assert (E2 : (P == P / C * C)%Q) by (field; lra).
    rewrite E1, Qabs_Qmult. rewrite E2 at 3.
    rewrite Qabs_Qmult, (Qabs_pos C) by lra.
    rewrite Qmult_assoc. apply Qmult_le_compat_r; [|lra].
    apply round_relative_abs. }
  assert (Hzero : forall m, zeroed m ->
            (Qabs (App.powerPerPort m * inject_Z (userCapacity m) - totalPower m)
             <= eps * Qabs (totalPower m))%Q).
  { intros m (_ & _ & _ & _ & Hpow & Hcap & _).
    unfold App.powerPerPort. rewrite Hcap, Hpow. vm_compute. discriminate. }
  split.
  - destruct (possible (calculateClos toString config)) eqn:Hp.
    + destruct (clos_possible_capacity config H0 Hn Hp) as [_ Hcap].
      unfold App.powerPerPort.
      destruct (Z.ltb_spec 0 (userCapacity (calculateClos toString config)));
        [apply Hdiv; assumption | lia].
    + apply Hzero, calculateClos_impossible, Hp.
  - set (arg := Some (ofZ (userCapacity (calculateClos toString config)))).
    destruct (possible (calculateFullMesh toString config arg)) eqn:Hp.
    + destruct (mesh_possible_capacity config arg Hp) as [Hcap _].
      unfold App.powerPerPort.
      destruct (Z.ltb_spec 0 (userCapacity (calculateFullMesh toString config arg)));
        [apply Hdiv; assumption | lia].
    + apply Hzero. apply (calculateFullMesh_impossible toString config arg Hp).
Qed.

(** ** The capacity sweep of the chart *)

Lemma clos_counts_monotone (config : NetworkConfig) (u1 u2 : Z) :
  1 <= u1 -> u1 <= u2 -> 2 <= radix config ->
  possible (calculateClos toString (withNumUsers config u1)) = true ->
  possible (calculateClos toString (withNumUsers config u2)) = true ->
  totalSwitches (calculateClos toString (withNumUsers config u1))
  <= totalSwitches (calculateClos toString (withNumUsers config u2))
  /\ totalCables (calculateClos toString (withNumUsers config u1))
     <= totalCables (calculateClos toString (withNumUsers config u2)).
Proof.
  intros H1 Hle Hr Hp1 Hp2.
  set (c1 := withNumUsers config u1) in *.
  assert (Hr1 : 2 <= radix c1) by exact Hr.
  pose proof (userPortsPerLeaf_pos c1 Hr1) as Hu.
  pose proof (numLeafs_mono c1 u2 Hr1 Hle) as Hmono.
  pose proof (numLeafs_pos c1 Hr1 H1) as Hl.
  change (withNumUsers c1 u2) with (withNumUsers config u2) in Hmono.
  destruct (clos_feasible_shape toString c1 Hp1) as (_ & _ & Hs).
  destruct (clos_feasible_shape toString (withNumUsers config u2) Hp2)
    as (_ & _ & Hs').
  change (userPortsPerLeaf (withNumUsers config u2)) with (userPortsPerLeaf c1) in *.
  change (radix (withNumUsers config u2)) with (radix c1) in *.
  remember (numLeafs c1) as l eqn:El.
  remember (numLeafs (withNumUsers config u2)) as l' eqn:El'.
  remember (userPortsPerLeaf c1) as u eqn:Eu.
  assert (Hup : ceilDiv (l * u) (radix c1) <= ceilDiv (l' * u) (radix c1))
    by (apply ceilDiv_mono; nia).
  destruct Hs as [(Ht & -> & -> & _)|(Ht & -> & -> & _)];
    destruct Hs' as [(Ht' & -> & -> & _)|(Ht' & -> & -> & _)]; split; nia.
Qed.

Lemma chart_powerPerPort_round (m : TopologyMetrics) :
  MetricsChart.powerPerPort m = Math_round (App.powerPerPort m).
Proof.
  unfold MetricsChart.powerPerPort, App.powerPerPort.
  destruct (0 <? userCapacity m); reflexivity.
Qed.

(** What the body of the sweep pushes at [u]. *)
Lemma pointsAt_In (config : NetworkConfig) (u : Z) (p : MetricsChart.Point) :
  In p (MetricsChart.pointsAt toString config u) ->
  let clos := calculateClos toString (withNumUsers config u) in
  let mesh :=
    calculateFullMesh toString (withNumUsers config u)
      (Some (ofZ (userCapacity clos))) in
  possible clos = true /\ possible mesh = true
  /\ p = {| MetricsChart.x := u;
            MetricsChart.closSwitches := totalSwitches clos;
            MetricsChart.meshSwitches := totalSwitches mesh;
            MetricsChart.closCables := totalCables clos;
            MetricsChart.meshCables := totalCables mesh;
            MetricsChart.closPower := totalPower clos;
            MetricsChart.meshPower := totalPower mesh;
            MetricsChart.closPowerPerPort := MetricsChart.powerPerPort clos;
            MetricsChart.meshPowerPerPort := MetricsChart.powerPerPort mesh |}.
Proof.
  unfold MetricsChart.pointsAt, MetricsChart.targetCapacity.
  destruct (possible (calculateClos toString (withNumUsers config u))) eqn:Hc;
    cbn [andb]; [|intros []].
  destruct (possible (calculateFullMesh toString (withNumUsers config u) _))
    eqn:Hm; [|intros []].
  intros [<-|[]]. auto.
Qed.

Lemma sweep_In (config : NetworkConfig) (n : nat) :
  forall (u0 : Z) (p : MetricsChart.Point),
  In p (MetricsChart.sweep toString config n u0) ->
  exists k : Z, 0 <= k < Z.of_nat n
    /\ u0 + MetricsChart.step * k <= MetricsChart.maxUsers
    /\ In p (MetricsChart.pointsAt toString config (u0 + MetricsChart.step * k)).
Proof.
  induction n as [|n IH]; intros u0 p; [intros []|].
  cbn [MetricsChart.sweep].
  destruct (Z.leb_spec u0 MetricsChart.maxUsers) as [Hle|]; [|intros []].
  intros Hin. apply in_app_or in Hin. destruct Hin as [Hin|Hin].
  - exists 0. rewrite Z.mul_0_r, Z.add_0_r. split; [lia | auto].
  - destruct (IH _ _ Hin) as (k & Hk & Hmax & Hp).
    exists (k + 1).
    replace (u0 + MetricsChart.step * (k + 1))
      with (u0 + MetricsChart.step + MetricsChart.step * k) by ring.
    split; [lia | auto].
Qed.

Lemma sweep_incl (config : NetworkConfig) (n : nat) :
  forall (u0 k : Z) (p : MetricsChart.Point),
  0 <= k < Z.of_nat n ->
  u0 + MetricsChart.step * k <= MetricsChart.maxUsers ->
  In p (MetricsChart.pointsAt toString config (u0 + MetricsChart.step * k)) ->
  In p (MetricsChart.sweep toString config n u0).
Proof.
  induction n as [|n IH]; intros u0 k p Hk Hmax Hin; [lia|].
  cbn [MetricsChart.sweep].
  assert (Hstep : MetricsChart.step = 128) by reflexivity.
  destruct (Z.leb_spec u0 MetricsChart.maxUsers) as [Hle|Hgt]; [|lia].
  apply in_or_app.
  destruct (Z.eq_dec k 0) as [->|Hne].
  - left. rewrite Z.mul_0_r, Z.add_0_r in Hin. exact Hin.
  - right. apply (IH _ (k - 1)); [lia | | ];
      replace (u0 + MetricsChart.step + MetricsChart.step * (k - 1))
        with (u0 + MetricsChart.step * k) by ring; assumption.
Qed.

(** X16.  The curve runs from left to right over the sweep: the points of
    the chart are in strictly increasing [x], and every [x] is one of
    128, 256, ..., 1024. *)
Theorem chart_sorted (config : NetworkConfig) :
  StronglySorted (fun p q => MetricsChart.x p < MetricsChart.x q)
    (MetricsChart.data toString config)
  /\ forall p, In p (MetricsChart.data toString config) ->
       exists k, 1 <= k <= 8 /\ MetricsChart.x p = 128 * k.
Proof.
  assert (Hsorted : forall n u0,
            StronglySorted (fun p q => MetricsChart.x p < MetricsChart.x q)
              (MetricsChart.sweep toString config n u0)).
  { induction n as [|n IH]; intros u0; [constructor|].
    cbn [MetricsChart.sweep].
    destruct (u0 <=? MetricsChart.maxUsers); [|constructor].
    destruct (MetricsChart.pointsAt toString config u0) as [|p0 rest] eqn:E;
      [apply IH|].
    assert (Hp0 : In p0 (MetricsChart.pointsAt toString config u0))
      by (rewrite E; left; reflexivity).
    apply pointsAt_In in Hp0. destruct Hp0 as (Hc & Hm & Ep0).
    assert (Hrest : rest = []).
    { revert E. unfold MetricsChart.pointsAt.
      destruct (_ && _); [intros [= _ <-]; reflexivity | discriminate]. }
    subst rest. cbn [app]. constructor; [apply IH|].
    apply Forall_forall. intros q Hq.
    destruct (sweep_In _ _ _ _ Hq) as (k & Hk & _ & Hqk).
    apply pointsAt_In in Hqk. destruct Hqk as (_ & _ & Eq).
    rewrite Ep0, Eq. cbn [MetricsChart.x].
    assert (Hstep : MetricsChart.step = 128) by reflexivity. lia. }
  split; [apply Hsorted|].
  intros p Hp. unfold MetricsChart.data in Hp.
  destruct (sweep_In _ _ _ _ Hp) as (k & Hk & Hmax & Hpk).
  apply pointsAt_In in Hpk. destruct Hpk as (_ & _ & ->). cbn [MetricsChart.x].
  assert (Hstep : MetricsChart.step = 128) by reflexivity.
  assert (Hmin : MetricsChart.minUsers = 128) by reflexivity.
  assert (Hmx : MetricsChart.maxUsers = 1024) by reflexivity.
  exists (k + 1). split; lia.
Qed.

(** X17.  Every point of the chart is what the application shows for
    [numUsers = x]: both designs are feasible there, the point carries
    their switch, cable and power figures and the rounded per-port
    powers; and for a non-negative radix the mesh of the point offers
    at least the capacity of its Clos, which covers [x]. *)
Theorem chart_point_is_app (config : NetworkConfig) (p : MetricsChart.Point) :
  let d := App.derived toString (withNumUsers config (MetricsChart.x p)) in
  In p (MetricsChart.data toString config) ->
  possible (App.closMetrics d) = true /\ possible (App.meshMetrics d) = true
  /\ MetricsChart.closSwitches p = totalSwitches (App.closMetrics d)
  /\ MetricsChart.meshSwitches p = totalSwitches (App.meshMetrics d)
  /\ MetricsChart.closCables p = totalCables (App.closMetrics d)
  /\ MetricsChart.meshCables p = totalCables (App.meshMetrics d)
  /\ MetricsChart.closPower p = totalPower (App.closMetrics d)
  /\ MetricsChart.meshPower p = totalPower (App.meshMetrics d)
  /\ MetricsChart.closPowerPerPort p = Math_round (App.closPowerPerPort d)
  /\ MetricsChart.meshPowerPerPort p = Math_round (App.meshPowerPerPort d)
  /\ (0 <= radix config ->
      MetricsChart.x p <= userCapacity (App.closMetrics d)
      /\ userCapacity (App.closMetrics d) <= userCapacity (App.meshMetrics d)).
Proof.
  intros d Hin. unfold MetricsChart.data in Hin.
  destruct (sweep_In _ _ _ _ Hin) as (k & Hk & Hmax & Hpk).
  apply pointsAt_In in Hpk. cbv zeta in Hpk. destruct Hpk as (Hc & Hm & Ep).
  assert (Hx : MetricsChart.x p = MetricsChart.minUsers + MetricsChart.step * k)
    by (rewrite Ep; reflexivity).
  subst d. rewrite Hx.
  cbn [App.derived App.closMetrics App.meshMetrics App.closPowerPerPort
       App.meshPowerPerPort].
  rewrite <- !chart_powerPerPort_round, Ep.
  cbn [MetricsChart.closSwitches MetricsChart.meshSwitches MetricsChart.closCables
       MetricsChart.meshCables MetricsChart.closPower MetricsChart.meshPower
       MetricsChart.closPowerPerPort MetricsChart.meshPowerPerPort].
  repeat (split; [first [assumption | reflexivity]|]).
  intros H0.
  assert (Hstep : MetricsChart.step = 128) by reflexivity.
  assert (Hmin : MetricsChart.minUsers = 128) by reflexivity.
  set (u := MetricsChart.minUsers + MetricsChart.step * k) in *.
  destruct (clos_possible_capacity (withNumUsers config u)) as [_ Hcap];
    [exact H0 | cbn [withNumUsers numUsers]; lia | exact Hc |].
  cbn [withNumUsers numUsers] in Hcap. split; [exact Hcap|].
  destruct (mesh_possible_capacity (withNumUsers config u) _ Hm) as [_ Hge].
  unfold targetUsers in Hge. cbn [or_else] in Hge. rewrite truthy_ofZ in Hge.
  destruct (Z.eqb_spec (userCapacity (calculateClos toString (withNumUsers config u))) 0)
    as [E|_]; [lia|].
  cbn [negb] in Hge. apply geb_ofZ in Hge. exact Hge.
Qed.

(** X18.  The Clos curves of the chart never fall: for a non-negative radix,
    of two points the one further right has at least as many Clos
    switches and Clos fabric cables. *)
Theorem chart_clos_monotone (config : NetworkConfig) (p q : MetricsChart.Point) :
  0 <= radix config ->
  In p (MetricsChart.data toString config) ->
  In q (MetricsChart.data toString config) ->
  MetricsChart.x p <= MetricsChart.x q ->
  MetricsChart.closSwitches p <= MetricsChart.closSwitches q
  /\ MetricsChart.closCables p <= MetricsChart.closCables q.
Proof.
  intros H0 Hp Hq Hle. unfold MetricsChart.data in Hp, Hq.
  destruct (sweep_In _ _ _ _ Hp) as (k & Hk & _ & Hpk).
  destruct (sweep_In _ _ _ _ Hq) as (k' & Hk' & _ & Hqk).
  apply pointsAt_In in Hpk. apply pointsAt_In in Hqk. cbv zeta in Hpk, Hqk.
  destruct Hpk as (Hc & _ & Ep). destruct Hqk as (Hc' & _ & Eq).
  assert (Hstep : MetricsChart.step = 128) by reflexivity.
  assert (Hmin : MetricsChart.minUsers = 128) by reflexivity.
  rewrite Ep, Eq in Hle |- *.
  cbn [MetricsChart.x MetricsChart.closSwitches MetricsChart.closCables] in *.
  destruct (clos_possible_capacity
              (withNumUsers config (MetricsChart.minUsers + MetricsChart.step * k)))
    as [Hr _]; [exact H0 | cbn [withNumUsers numUsers]; lia | exact Hc |].
  apply clos_counts_monotone; trivial; lia.
Qed.

Lemma withNumUsers_same (config : NetworkConfig) :
  withNumUsers config (numUsers config) = config.
Proof. destruct config. reflexivity. Qed.

(** X19.  The highlighted dot lies on the curve: when [numUsers] is one of
    the swept sizes and both designs are feasible for it, the chart has
    a point at [x = numUsers] with exactly the highlighted values. *)
Theorem chart_highlight_on_curve (config : NetworkConfig) (k : Z) :
  let h := MetricsChart.highlightValues toString config in
  1 <= k <= 8 -> numUsers config = 128 * k ->
  MetricsChart.Highlight.possible h = true ->
  exists p, In p (MetricsChart.data toString config)
    /\ MetricsChart.x p = numUsers config
    /\ MetricsChart.closSwitches p = MetricsChart.Highlight.closSwitches h
    /\ MetricsChart.meshSwitches p = MetricsChart.Highlight.meshSwitches h
    /\ MetricsChart.closCables p = MetricsChart.Highlight.closCables h
    /\ MetricsChart.meshCables p = MetricsChart.Highlight.meshCables h
    /\ MetricsChart.closPower p = MetricsChart.Highlight.closPower h
    /\ MetricsChart.meshPower p = MetricsChart.Highlight.meshPower h
    /\ MetricsChart.closPowerPerPort p = MetricsChart.Highlight.closPowerPerPort h
    /\ MetricsChart.meshPowerPerPort p = MetricsChart.Highlight.meshPowerPerPort h.
Proof.
  intros h Hk Hn Hposs. subst h.
  unfold MetricsChart.highlightValues in *.
  cbn [MetricsChart.Highlight.possible MetricsChart.Highlight.closSwitches
       MetricsChart.Highlight.meshSwitches MetricsChart.Highlight.closCables
       MetricsChart.Highlight.meshCables MetricsChart.Highlight.closPower
       MetricsChart.Highlight.meshPower MetricsChart.Highlight.closPowerPerPort
       MetricsChart.Highlight.meshPowerPerPort] in *.
  set (u := numUsers config) in *.
  assert (Hpts : MetricsChart.pointsAt toString config u
    = [ {| MetricsChart.x := u;
           MetricsChart.closSwitches := totalSwitches (calculateClos toString config);
           MetricsChart.meshSwitches :=
             totalSwitches (calculateFullMesh toString config
               (Some (ofZ (MetricsChart.targetCapacity
                             (calculateClos toString config) u))));
           MetricsChart.closCables := totalCables (calculateClos toString config);
           MetricsChart.meshCables :=
             totalCables (calculateFullMesh toString config
               (Some (ofZ (MetricsChart.targetCapacity
                             (calculateClos toString config) u))));
           MetricsChart.closPower := totalPower (calculateClos toString config);
           MetricsChart.meshPower :=
             totalPower (calculateFullMesh toString config
               (Some (ofZ (MetricsChart.targetCapacity
                             (calculateClos toString config) u))));
           MetricsChart.closPowerPerPort :=
             MetricsChart.powerPerPort (calculateClos toString config);
           MetricsChart.meshPowerPerPort :=
             MetricsChart.powerPerPort (calculateFullMesh toString config
               (Some (ofZ (MetricsChart.targetCapacity
                             (calculateClos toString config) u)))) |} ]).
  { unfold MetricsChart.pointsAt. subst u. rewrite withNumUsers_same.
    rewrite Hposs. reflexivity. }
  eexists. split.
  - unfold MetricsChart.data.
    apply (sweep_incl config 9 MetricsChart.minUsers (k - 1)); [lia | | ].
    + assert (Hmx : MetricsChart.maxUsers = 1024) by reflexivity.
      assert (Hstep : MetricsChart.step = 128) by reflexivity.
      assert (Hmin : MetricsChart.minUsers = 128) by reflexivity. lia.
    + replace (MetricsChart.minUsers + MetricsChart.step * (k - 1)) with u
        by (assert (Hstep : MetricsChart.step = 128) by reflexivity;
            assert (Hmin : MetricsChart.minUsers = 128) by reflexivity; lia).
      rewrite Hpts. left. reflexivity.
  - cbn. repeat split; reflexivity.
Qed.

End CallerProperties.

(** * The drawing of a topology *)

Section VisualizerProperties.

Import JSMath.

Variable toString : number -> string.
Variables Math_cos Math_sin : Q -> Q.

Local Abbreviation drawing := (TopologyVisualizer.data Math_cos Math_sin).

Lemma decimal_inj (i j : nat) : decimal i = decimal j -> i = j.
Proof.
  assert (Hnil : forall n, Nat.to_uint n <> Decimal.Nil).
  { intros n E. pose proof (f_equal Nat.of_uint E) as E'.
    rewrite DecimalNat.Unsigned.of_to in E'. cbn in E'. subst n.
    discriminate E. }
  unfold decimal. intros E.
  apply (f_equal NilZero.uint_of_string) in E.
  rewrite !NilZero.usu in E by apply Hnil.
  injection E as E. apply DecimalNat.Unsigned.to_uint_inj. exact E.
Qed.

Lemma append_inv_head (p a b : string) : (p ++ a = p ++ b)%string -> a = b.
Proof.
  induction p as [|c p IH]; cbn [String.append]; [trivial|].
  intros [= E]. auto.
Qed.

Lemma upTo_In (from : nat) (bound : Z) (i : nat) :
  In i (upTo from bound) <-> (from <= i)%nat /\ Z.of_nat i < bound.
Proof.
  unfold upTo. rewrite in_seq. lia.
Qed.

(** Ids built from one prefix and distinct counters are distinct. *)
Lemma prefixed_NoDup (prefix : string) (make : nat -> Node.t) (l : list nat) :
  (forall i, Node.id (make i) = (prefix ++ decimal i)%string) ->
  NoDup l -> NoDup (map Node.id (map make l)).
Proof.
  intros Hid Hl. rewrite map_map.
  apply NoDup_map_NoDup_ForallPairs; [|exact Hl].
  intros i j _ _ E. rewrite !Hid in E.
  apply decimal_inj. exact (append_inv_head _ _ _ E).
Qed.

Lemma prefixed_In (prefix : string) (make : nat -> Node.t) (l : list nat)
    (id : string) :
  (forall i, Node.id (make i) = (prefix ++ decimal i)%string) ->
  In id (map Node.id (map make l)) ->
  exists i, In i l /\ id = (prefix ++ decimal i)%string.
Proof.
  intros Hid Hin. rewrite map_map in Hin. apply in_map_iff in Hin.
  destruct Hin as (i & E & Hi). exists i. rewrite Hid in E. auto.
Qed.

Lemma closData_NoDup (metrics : TopologyMetrics) :
  NoDup (map Node.id
           (TopologyVisualizer.nodes (TopologyVisualizer.closData metrics))).
Proof.
  unfold TopologyVisualizer.closData. cbn [TopologyVisualizer.nodes].
  rewrite !map_app.
  apply NoDup_app; [ | apply NoDup_app | ].
  - apply (prefixed_NoDup "leaf-"); [reflexivity | apply seq_NoDup].
  - apply (prefixed_NoDup "spine-"); [reflexivity | apply seq_NoDup].
  - destruct (0 <? _); [|constructor].
    apply (prefixed_NoDup "core-"); [reflexivity | apply seq_NoDup].
  - intros id Hs Hc.
    apply (prefixed_In "spine-") in Hs; [|reflexivity].
    destruct Hs as (i & _ & ->).
    destruct (0 <? _); [|destruct Hc].
    apply (prefixed_In "core-") in Hc; [|reflexivity].
    destruct Hc as (j & _ & E). discriminate.
  - intros id Hl Hrest.
    apply (prefixed_In "leaf-") in Hl; [|reflexivity].
    destruct Hl as (i & _ & ->).
    apply in_app_or in Hrest. destruct Hrest as [Hs|Hc].
    + apply (prefixed_In "spine-") in Hs; [|reflexivity].
      destruct Hs as (j & _ & E). discriminate.
    + destruct (0 <? _); [|destruct Hc].
      apply (prefixed_In "core-") in Hc; [|reflexivity].
      destruct Hc as (j & _ & E). discriminate.
Qed.

Lemma meshData_NoDup (metrics : TopologyMetrics) :
  NoDup (map Node.id
           (TopologyVisualizer.nodes
              (TopologyVisualizer.meshData Math_cos Math_sin metrics))).
Proof.
  unfold TopologyVisualizer.meshData. cbn [TopologyVisualizer.nodes].
  apply (prefixed_NoDup "sw-"); [reflexivity | apply seq_NoDup].
Qed.

(** X20.  No two nodes of a drawing share an id, so [find] by id and the
    React key [node.id] each single out one node. *)
Theorem drawing_ids_unique (metrics : TopologyMetrics)
    (type : TopologyVisualizer.kind) :
  NoDup (map Node.id (TopologyVisualizer.nodes (drawing metrics type))).
Proof.
  unfold TopologyVisualizer.data.
  destruct (possible metrics); cbn [negb]; [|constructor].
  destruct type; [apply closData_NoDup | apply meshData_NoDup].
Qed.

Lemma find_by_id (l : list Node.t) (n : Node.t) :
  NoDup (map Node.id l) -> In n l ->
  find (fun n' => String.eqb (Node.id n') (Node.id n)) l = Some n.
Proof.
  induction l as [|a l IH]; intros Hnd Hin; [destruct Hin|].
  cbn [map] in Hnd. inversion Hnd as [|? ? Hnotin Hnd']; subst.
  cbn [find]. destruct (String.eqb_spec (Node.id a) (Node.id n)) as [E|Hne].
  - destruct Hin as [->|Hin]; [reflexivity|].
    exfalso. apply Hnotin. rewrite E. apply in_map. exact Hin.
  - destruct Hin as [->|Hin]; [congruence|]. apply IH; assumption.
Qed.

Lemma resolves_intro (d : TopologyVisualizer.Data) (link : Link.t)
    (src trg : Node.t) :
  NoDup (map Node.id (TopologyVisualizer.nodes d)) ->
  In src (TopologyVisualizer.nodes d) -> In trg (TopologyVisualizer.nodes d) ->
  Node.id src = Link.source link -> Node.id trg = Link.target link ->
  Node.id src <> Node.id trg ->
  resolves d link src trg.
Proof.
  intros Hnd Hs Ht Es Et Hne. unfold resolves, TopologyVisualizer.findNode.
  rewrite <- Es, <- Et. auto using find_by_id.
Qed.

(** X21.  Every link of a drawing can be drawn: both lookups by id succeed
    and give two different nodes of the drawing.  A Clos link is an
    uplink to a node drawn higher up; a mesh link is a peer link
    between two mesh nodes. *)
Theorem drawing_links_resolve (metrics : TopologyMetrics)
    (type : TopologyVisualizer.kind) (link : Link.t) :
  let d := drawing metrics type in
  In link (TopologyVisualizer.links d) ->
  exists src trg,
    resolves d link src trg
    /\ In src (TopologyVisualizer.nodes d) /\ In trg (TopologyVisualizer.nodes d)
    /\ match type with
       | TopologyVisualizer.clos =>
           Link.type link = Link.uplink /\ (Node.y trg < Node.y src)%Q
       | TopologyVisualizer.mesh =>
           Link.type link = Link.peer
           /\ Node.type src = Node.mesh /\ Node.type trg = Node.mesh
       end.
Proof.
  intros d. subst d. unfold TopologyVisualizer.data.
  destruct (possible metrics); cbn [negb]; [|intros []].
  destruct type.
  - pose proof (closData_NoDup metrics) as Hnd.
    set (d := TopologyVisualizer.closData metrics) in *.
    intros Hin.
    unfold d, TopologyVisualizer.closData in Hin.
    cbn [TopologyVisualizer.links] in Hin.
    set (L := TopologyVisualizer.orZero (leafs (switchConfig metrics))) in *.
    set (Sp := TopologyVisualizer.orZero (spines (switchConfig metrics))) in *.
    set (C := TopologyVisualizer.orZero (core (switchConfig metrics))) in *.
    assert (Hnodes : TopologyVisualizer.nodes d
      = map (fun i => Node.mk ("leaf-" ++ decimal i) Node.leaf
                        (TopologyVisualizer.getX i L) 260%Q) (upTo 0 L)
        ++ map (fun i => Node.mk ("spine-" ++ decimal i) Node.spine
                           (TopologyVisualizer.getX i Sp)
                           (if 0 <? C then 160%Q else 100%Q)) (upTo 0 Sp)
        ++ (if 0 <? C then
              map (fun i => Node.mk ("core-" ++ decimal i) Node.core
                              (TopologyVisualizer.getX i C) 50%Q) (upTo 0 C)
            else [])) by reflexivity.
    apply in_app_or in Hin. destruct Hin as [Hin|Hin].
    + apply in_flat_map in Hin. destruct Hin as (i & Hi & Hin).
      apply in_map_iff in Hin. destruct Hin as (j & <- & Hj).
      exists (Node.mk ("leaf-" ++ decimal i) Node.leaf
                (TopologyVisualizer.getX i L) 260%Q),
             (Node.mk ("spine-" ++ decimal j) Node.spine
                (TopologyVisualizer.getX j Sp) (if 0 <? C then 160%Q else 100%Q)).
      assert (Hs : In (Node.mk ("leaf-" ++ decimal i) Node.leaf
                         (TopologyVisualizer.getX i L) 260%Q)
                      (TopologyVisualizer.nodes d)).
      { rewrite Hnodes. apply in_or_app. left.
        apply in_map_iff. exists i. split; [reflexivity | exact Hi]. }
      assert (Ht : In (Node.mk ("spine-" ++ decimal j) Node.spine
                         (TopologyVisualizer.getX j Sp)
                         (if 0 <? C then 160%Q else 100%Q))
                      (TopologyVisualizer.nodes d)).
      { rewrite Hnodes. apply in_or_app. right. apply in_or_app. left.
        apply in_map_iff. exists j. split; [reflexivity | exact Hj]. }
      split; [apply resolves_intro; trivial; discriminate|].
      split; [exact Hs|]. split; [exact Ht|]. split; [reflexivity|].
      cbn [Node.y]. destruct (0 <? C); reflexivity.
    + destruct (Z.ltb_spec 0 C) as [HC|HC]; [|destruct Hin].
      apply in_flat_map in Hin. destruct Hin as (i & Hi & Hin).
      apply in_map_iff in Hin. destruct Hin as (j & <- & Hj).
      exists (Node.mk ("spine-" ++ decimal i) Node.spine
                (TopologyVisualizer.getX i Sp) 160%Q),
             (Node.mk ("core-" ++ decimal j) Node.core
                (TopologyVisualizer.getX j C) 50%Q).
      assert (Hs : In (Node.mk ("spine-" ++ decimal i) Node.spine
                         (TopologyVisualizer.getX i Sp) 160%Q)
                      (TopologyVisualizer.nodes d)).
      { rewrite Hnodes. apply in_or_app. right. apply in_or_app. left.
        apply in_map_iff. exists i. split; [reflexivity | exact Hi]. }
      assert (Ht : In (Node.mk ("core-" ++ decimal j) Node.core
                         (TopologyVisualizer.getX j C) 50%Q)
                      (TopologyVisualizer.nodes d)).
      { rewrite Hnodes. apply in_or_app. right. apply in_or_app. right.
        apply in_map_iff. exists j. split; [reflexivity | exact Hj]. }
      split; [apply resolves_intro; trivial; discriminate|].
      split; [exact Hs|]. split; [exact Ht|]. split; reflexivity.
  - pose proof (meshData_NoDup metrics) as Hnd.
    set (d := TopologyVisualizer.meshData Math_cos Math_sin metrics) in *.
    intros Hin.
    unfold d, TopologyVisualizer.meshData in Hin.
    cbn [TopologyVisualizer.links] in Hin.
    apply in_flat_map in Hin. destruct Hin as (i & Hi & Hin).
    apply in_map_iff in Hin. destruct Hin as (j & <- & Hj).
    assert (Hnode : forall k,
      In k (upTo 0 (TopologyVisualizer.orZero (meshSwitches (switchConfig metrics)))) ->
      exists n, In n (TopologyVisualizer.nodes d)
        /\ Node.id n = ("sw-" ++ decimal k)%string /\ Node.type n = Node.mesh).
    { intros k Hk. eexists. split.
      - unfold d, TopologyVisualizer.meshData. cbn [TopologyVisualizer.nodes].
        apply in_map_iff. exists k. split; [reflexivity | exact Hk].
      - split; reflexivity. }
    apply upTo_In in Hj.
    destruct (Hnode i Hi) as (src & Hs & Es & Ts).
    destruct (Hnode j) as (trg & Ht & Et & Tt).
    { apply upTo_In. lia. }
    exists src, trg.
    split; [apply resolves_intro; trivial|auto].
    rewrite Es, Et. intros E. apply append_inv_head, decimal_inj in E. lia.
Qed.

(** A row is laid out from [x = 20]; its last node can land one unit
    in the last place, [2^-44], beyond [x = 380]. *)
Lemma getX_bounds (i : nat) (total : Z) :
  Z.of_nat i < total ->
  (20 <= TopologyVisualizer.getX i total <= 380 + (1 # 17592186044416))%Q.
Proof.
  intros Hi. unfold TopologyVisualizer.getX.
  destruct (Z.eqb_spec total 1) as [_|Hne].
  - split; vm_compute; discriminate.
  - assert (Eaw : (TopologyVisualizer.availableWidth == 360)%Q)
      by (vm_compute; reflexivity).
    assert (Exo : (TopologyVisualizer.xOffset == 20)%Q)
      by (vm_compute; reflexivity).
    unfold fadd, fmul, fdiv. rewrite Exo.
    assert (Est : (round (TopologyVisualizer.availableWidth / inject_Z (total - 1))
                   == round (360 / inject_Z (total - 1)))%Q)
      by (apply round_comp; rewrite Eaw; reflexivity).
    assert (Epr : forall idx,
              (round (round (TopologyVisualizer.availableWidth
                             / inject_Z (total - 1)) * idx)
               == round (round (360 / inject_Z (total - 1)) * idx))%Q)
      by (intros idx; apply round_comp; rewrite Est; reflexivity).
    rewrite (round_comp _ _ (Qplus_comp _ _ (Qeq_refl 20) _ _ (Epr _))).
    set (t := inject_Z (total - 1)).
    set (idx := inject_Z (Z.of_nat i)).
    assert (Ht : (0 < t)%Q)
      by (unfold t; change 0%Q with (inject_Z 0); rewrite <- Zlt_Qlt; lia).
    assert (Hidx : (0 <= idx <= t)%Q).
    { unfold idx, t. change 0%Q with (inject_Z 0). rewrite <- !Zle_Qle. lia. }
    assert (Hq : (0 <= 360 / t)%Q) by (apply Qle_shift_div_l; lra).
    pose proof (round_relative (360 / t) Hq) as [_ Rs].
    assert (Ps : (0 <= round (360 / t))%Q) by (apply round_nonneg; exact Hq).
    set (step := round (360 / t)) in *.
    assert (Hprod : (0 <= step * idx <= 360 * (1 + eps))%Q).
    { split; [apply Qmult_le_0_compat; lra|].
      apply Qle_trans with ((360 / t + 360 / t * eps) * idx)%Q.
      - apply Qmult_le_compat_r; lra.
      - assert (E : ((360 / t + 360 / t * eps) * idx
                     == 360 * (1 + eps) * (idx / t))%Q) by (field; lra).
        rewrite E.
        assert (Hr : (idx / t <= 1)%Q) by (apply Qle_shift_div_r; lra).
        rewrite <- (Qmult_1_r (360 * (1 + eps))) at 2.
        rewrite (Qmult_comm (360 * (1 + eps)) (idx / t)),
          (Qmult_comm (360 * (1 + eps)) 1).
        apply Qmult_le_compat_r; [exact Hr|]. rewrite eps_value. discriminate. }
    destruct Hprod as [Hp0 Hp1].
    assert (Pm : (0 <= round (step * idx))%Q) by (apply round_nonneg; exact Hp0).
    apply round_mono in Hp1.
    assert (Ec : (round (360 * (1 + eps)) == 360 + (1 # 17592186044416))%Q)
      by (vm_compute; reflexivity).
    rewrite Ec in Hp1.
    set (m := round (step * idx)) in *.
    split.
    + assert (G : (20 <= 20 + m)%Q) by lra. round_bound 20.
    + assert (G : (20 + m <= 20 + (360 + (1 # 17592186044416)))%Q) by lra.
      apply round_mono in G.
      assert (Ex : (round (20 + (360 + (1 # 17592186044416)))
                    == 380 + (1 # 17592186044416))%Q) by (vm_compute; reflexivity).
      rewrite Ex in G. exact G.
Qed.

(** X22.  A Clos drawing stays inside its 400 x 300 view box: every node has
    [20 <= x <= 380 + 2^-44] (the rounding of the step can push the last
    node of a row one unit in the last place beyond 380) and
    [50 <= y <= 260], the leaves on the bottom row ([y = 260]) and the
    cores on the top row ([y = 50]). *)
Theorem drawing_clos_in_viewbox (metrics : TopologyMetrics) (n : Node.t) :
  In n (TopologyVisualizer.nodes (drawing metrics TopologyVisualizer.clos)) ->
  (20 <= Node.x n <= 380 + (1 # 17592186044416))%Q /\ (50 <= Node.y n <= 260)%Q
  /\ (Node.type n = Node.leaf -> Node.y n = 260%Q)
  /\ (Node.type n = Node.core -> Node.y n = 50%Q).
Proof.
  unfold TopologyVisualizer.data.
  destruct (possible metrics); cbn [negb]; [|intros []].
  unfold TopologyVisualizer.closData. cbn [TopologyVisualizer.nodes].
  intros Hin. apply in_app_or in Hin. destruct Hin as [Hin|Hin];
    [|apply in_app_or in Hin; destruct Hin as [Hin|Hin]].
  - apply in_map_iff in Hin. destruct Hin as (i & <- & Hi).
    apply upTo_In in Hi. cbn [Node.x Node.y Node.type].
    split; [apply getX_bounds; lia|].
    split; [split; vm_compute; discriminate|]. split; [reflexivity|discriminate].
  - apply in_map_iff in Hin. destruct Hin as (i & <- & Hi).
    apply upTo_In in Hi. cbn [Node.x Node.y Node.type].
    split; [apply getX_bounds; lia|].
    split; [|split; discriminate].
    destruct (0 <? _); split; vm_compute; discriminate.
  - destruct (0 <? _); [|destruct Hin].
    apply in_map_iff in Hin. destruct Hin as (i & <- & Hi).
    apply upTo_In in Hi. cbn [Node.x Node.y Node.type].
    split; [apply getX_bounds; lia|].
    split; [split; vm_compute; discriminate|]. split; [discriminate|reflexivity].
Qed.

Lemma clamp_Fin (lo hi : Q) (v : number) :
  (lo <= hi)%Q -> v <> NaN ->
  exists q, Math_max (Fin lo) (Math_min (Fin hi) v) = Fin q /\ (lo <= q <= hi)%Q.
Proof.
  intros Hle Hv. destruct v as [ | | |q]; [congruence | | | ]; cbn.
  - exists lo. split; [reflexivity | split; [apply Qle_refl | exact Hle]].
  - exists (Qmax lo hi). split; [reflexivity|].
    split; [apply Q.le_max_l | apply Q.max_lub; [exact Hle | apply Qle_refl]].
  - exists (Qmax lo (Qmin hi q)). split; [reflexivity|].
    split; [apply Q.le_max_l | apply Q.max_lub; [exact Hle | apply Q.le_min_l]].
Qed.

Lemma scaled_quotient_not_NaN (a b q : Q) :
  ~ (a == 0)%Q -> (0 < q)%Q -> times (JS.div a b) q <> NaN.
Proof.
  intros Ha Hq. unfold JS.div. destruct (Qeq_bool b 0); [|discriminate].
  destruct (Qcompare_spec a 0) as [E| |]; [contradiction | | ]; cbn [times];
    destruct (Qcompare_spec q 0); try discriminate; exfalso; lra.
Qed.

(** X23.  The node size of a drawing is clamped: for a feasible result it is
    a finite number between 2 and 16 (Clos) or 12 (mesh), whatever the
    switch counts, zero included. *)
Theorem drawing_node_size (metrics : TopologyMetrics)
    (type : TopologyVisualizer.kind) :
  possible metrics = true ->
  exists q, TopologyVisualizer.nodeSize (drawing metrics type) = Some (Fin q)
    /\ (2 <= q)%Q
    /\ (q <= match type with
             | TopologyVisualizer.clos => 16
             | TopologyVisualizer.mesh => 12
             end)%Q.
Proof.
  intros Hp. unfold TopologyVisualizer.data. rewrite Hp. cbn [negb].
  destruct type.
  - unfold TopologyVisualizer.closData. cbn [TopologyVisualizer.nodeSize].
    edestruct (clamp_Fin 2 16) as (q & -> & Hq1 & Hq2);
      [discriminate | apply scaled_quotient_not_NaN | eauto];
      vm_compute; solve [discriminate | reflexivity].
  - unfold TopologyVisualizer.meshData. cbn [TopologyVisualizer.nodeSize].
    edestruct (clamp_Fin 2 12) as (q & -> & Hq1 & Hq2);
      [discriminate | apply scaled_quotient_not_NaN | eauto];
      vm_compute; solve [discriminate | reflexivity].
Qed.

Lemma strokeWidth_cases (d : TopologyVisualizer.Data) :
  (TopologyVisualizer.links d = [] ->
   TopologyVisualizer.strokeWidth d = Infinity)
  /\ (TopologyVisualizer.links d <> [] ->
      exists q, TopologyVisualizer.strokeWidth d = Fin q
        /\ (q == Qmax (literal (2 # 10))
                   (fdiv 100 (inject_Z (Z.of_nat
                                          (length (TopologyVisualizer.links d))))))%Q
        /\ (2 # 10 <= q <= 100)%Q).
Proof.
  unfold TopologyVisualizer.strokeWidth. split.
  - intros ->. reflexivity.
  - intros Hne.
    assert (Hlen : 1 <= Z.of_nat (length (TopologyVisualizer.links d))).
    { destruct (TopologyVisualizer.links d); [congruence | cbn [length]; lia]. }
    set (n := Z.of_nat (length (TopologyVisualizer.links d))) in *.
    assert (Hn : (1 <= inject_Z n)%Q)
      by (change 1%Q with (inject_Z 1); rewrite <- Zle_Qle; exact Hlen).
    unfold JS.div.
    destruct (Qeq_bool (inject_Z n) 0) eqn:E; [apply Qeq_bool_eq in E; lra|].
    cbn [Math_max]. eexists. split; [reflexivity|]. split; [reflexivity|].
    assert (Hlo : (2 # 10 <= literal (2 # 10))%Q) by (vm_compute; discriminate).
    assert (Hhi : (literal (2 # 10) <= 100)%Q) by (vm_compute; discriminate).
    split; [eapply Qle_trans; [exact Hlo | apply Q.le_max_l]|].
    apply Q.max_lub; [exact Hhi|].
    assert (Hq : (100 / inject_Z n <= 100)%Q) by (apply Qle_shift_div_r; lra).
    unfold fdiv. round_bound 100.
Qed.

Lemma upTo_length (from : nat) (bound : Z) :
  length (upTo from bound) = (Z.to_nat bound - from)%nat.
Proof. apply length_seq. Qed.

(** The links of all pairs [i < j] below [n], counted twice. *)
Lemma pair_links_length (make : nat -> nat -> Link.t) (n k : nat) :
  (k <= n)%nat ->
  2 * Z.of_nat (length (flat_map (fun i => map (make i) (seq (i + 1) (n - (i + 1))))
                          (seq 0 k)))
  = Z.of_nat k * (2 * Z.of_nat n - Z.of_nat k - 1).
Proof.
  induction k as [|k IH]; intros Hk; [reflexivity|].
  rewrite seq_S, flat_map_app, length_app. cbn [flat_map plus].
  rewrite app_nil_r, length_map, length_seq, Nat2Z.inj_add.
  specialize (IH ltac:(lia)). nia.
Qed.

Lemma clos_switchConfig (config : NetworkConfig) :
  let r := calculateClos toString config in
  let l := numLeafs config in
  let u := userPortsPerLeaf config in
  let up := ceilDiv (l * u) (radix config) in
  possible r = true ->
  (switchConfig r = mkSwitchConfig (Some l) (Some up) None None (Some u)
   /\ totalSwitches r = l + up)
  \/ (switchConfig r = mkSwitchConfig (Some l) (Some l) (Some up) None (Some u)
      /\ totalSwitches r = l + l + up).
Proof.
  clos_split config; cbn [possible closResult switchConfig totalSwitches];
    try discriminate; intros _;
    rewrite ?Qfloor_half, <- ?userPortsPerLeaf_half, ?upperTier_ceilDiv; auto.
Qed.

(** X24.  The Clos drawing matches the sizing: for a non-negative radix and
    at least one user it has one node for each switch of the result
    ([totalSwitches] in all, none when infeasible) and one link for each
    pair of a leaf and a spine and of a spine and a core. *)
Theorem drawing_clos_counts (config : NetworkConfig) :
  let r := calculateClos toString config in
  let d := drawing r TopologyVisualizer.clos in
  let L := TopologyVisualizer.orZero (leafs (switchConfig r)) in
  let Sp := TopologyVisualizer.orZero (spines (switchConfig r)) in
  let C := TopologyVisualizer.orZero (core (switchConfig r)) in
  0 <= radix config -> 1 <= numUsers config ->
  Z.of_nat (length (TopologyVisualizer.nodes d)) = totalSwitches r
  /\ Z.of_nat (length (TopologyVisualizer.links d)) = L * Sp + Sp * C.
Proof.
  intros r d L Sp C H0 Hn. subst d L Sp C.
  unfold TopologyVisualizer.data.
  destruct (possible r) eqn:Hp; cbn [negb].
  - destruct (clos_possible_capacity toString config H0 Hn Hp) as [Hr _].
    pose proof (userPortsPerLeaf_pos config Hr) as Hu.
    pose proof (numLeafs_pos config Hr Hn) as Hl.
    assert (Hup : 0 < ceilDiv (numLeafs config * userPortsPerLeaf config)
                         (radix config))
      by (apply ceilDiv_pos; nia).
    unfold TopologyVisualizer.closData.
    cbn [TopologyVisualizer.nodes TopologyVisualizer.links].
    destruct (clos_switchConfig config Hp) as [(Hsc & Hts)|(Hsc & Hts)];
      fold r in Hsc, Hts; rewrite Hsc, Hts;
      cbn [leafs spines core TopologyVisualizer.orZero].
    + cbn [Z.ltb Z.compare app]. rewrite app_nil_r.
      rewrite !length_app, !length_map, !upTo_length.
      rewrite (flat_map_constant_length (fun i => map _ _) (upTo 0 _))
        by (intros; rewrite length_map, upTo_length; reflexivity).
      rewrite upTo_length. cbn [length]. split; nia.
    + destruct (Z.ltb_spec 0 (ceilDiv (numLeafs config * userPortsPerLeaf config)
                                (radix config))); [|lia].
      rewrite !length_app, !length_map, !upTo_length.
      rewrite !(flat_map_constant_length (fun i => map _ _) (upTo 0 _))
        by (intros; rewrite length_map, upTo_length; reflexivity).
      rewrite !upTo_length. split; nia.
  - destruct (calculateClos_impossible toString config Hp)
      as (Hts & _ & _ & _ & _ & _ & Hsc & _).
    fold r in Hts, Hsc. rewrite Hts, Hsc. split; reflexivity.
Qed.

(** X25.  The mesh drawing matches the sizing: it has one node for each
    switch of the result and one link for each pair of switches,
    [S*(S-1)/2] in all; the fabric cables of a feasible result are those
    links times the links per peer. *)
Theorem drawing_mesh_counts (config : NetworkConfig)
    (requiredUserPorts : option number) :
  let r := calculateFullMesh toString config requiredUserPorts in
  let d := drawing r TopologyVisualizer.mesh in
  let S := totalSwitches r in
  Z.of_nat (length (TopologyVisualizer.nodes d)) = S
  /\ 2 * Z.of_nat (length (TopologyVisualizer.links d)) = S * (S - 1)
  /\ (possible r = true ->
      exists l, 1 <= l
        /\ totalCables r = Z.of_nat (length (TopologyVisualizer.links d)) * l).
Proof.
  intros r d S. subst d S.
  unfold TopologyVisualizer.data.
  destruct (calculateFullMesh_cases toString config requiredUserPorts)
    as [(Hp & Hz)|(Hp & s & Hs & Hfound)]; fold r in Hp, Hz || fold r in Hp, Hfound;
    rewrite Hp; cbn [negb].
  - destruct Hz as (-> & _). cbn [TopologyVisualizer.nodes TopologyVisualizer.links
      length]. split; [reflexivity|]. split; [reflexivity | discriminate].
  - destruct (meshIteration_Found_fields _ _ _ _ _ _ Hfound)
      as (_ & _ & _ & Hms).
    destruct (meshIteration_Found _ _ _ _ _ _ Hfound)
      as (l & (Hl & _ & _) & Hts & Hcb & _).
    apply linksPerPeer_ge1 in Hl.
    unfold TopologyVisualizer.meshData.
    cbn [TopologyVisualizer.nodes TopologyVisualizer.links].
    rewrite Hms, Hts, Hcb. cbn [TopologyVisualizer.orZero].
    rewrite length_map, upTo_length.
    pose proof (pair_links_length
                  (fun i j => Link.mk ("sw-" ++ decimal i) ("sw-" ++ decimal j) Link.peer)
                  (Z.to_nat s) (Z.to_nat s) (Nat.le_refl _)) as Hpairs.
    unfold upTo. rewrite Nat.sub_0_r.
    set (links := flat_map _ _) in *.
    pose proof (mesh_pairs_exact s) as Hex.
    split; [lia|]. split; [nia|]. intros _. exists l. split; [exact Hl | nia].
Qed.

Lemma closData_has_link (metrics : TopologyMetrics) :
  0 < TopologyVisualizer.orZero (leafs (switchConfig metrics)) ->
  0 < TopologyVisualizer.orZero (spines (switchConfig metrics)) ->
  TopologyVisualizer.links (TopologyVisualizer.closData metrics) <> [].
Proof.
  intros HL HS E.
  assert (Hin : In (Link.mk ("leaf-" ++ decimal 0) ("spine-" ++ decimal 0)
                      Link.uplink)
                   (TopologyVisualizer.links (TopologyVisualizer.closData metrics))).
  { unfold TopologyVisualizer.closData. cbn [TopologyVisualizer.links].
    apply in_or_app. left. apply in_flat_map. exists 0%nat.
    split; [apply upTo_In; lia|].
    apply in_map_iff. exists 0%nat. split; [reflexivity | apply upTo_In; lia]. }
  rewrite E in Hin. destruct Hin.
Qed.

Lemma meshData_has_link (metrics : TopologyMetrics) :
  2 <= TopologyVisualizer.orZero (meshSwitches (switchConfig metrics)) ->
  TopologyVisualizer.links (TopologyVisualizer.meshData Math_cos Math_sin metrics)
  <> [].
Proof.
  intros HS E.
  assert (Hin : In (Link.mk ("sw-" ++ decimal 0) ("sw-" ++ decimal 1) Link.peer)
                   (TopologyVisualizer.links
                      (TopologyVisualizer.meshData Math_cos Math_sin metrics))).
  { unfold TopologyVisualizer.meshData. cbn [TopologyVisualizer.links].
    apply in_flat_map. exists 0%nat. split; [apply upTo_In; lia|].
    apply in_map_iff. exists 1%nat. split; [reflexivity | apply upTo_In; lia]. }
  rewrite E in Hin. destruct Hin.
Qed.

(** X26.  The stroke width of the links is [max(0.2, 100 / links)]: with no
    link at all the division gives [Infinity], otherwise a number
    between 0.2 and 100; and every feasible result of a sizer (Clos for
    a non-negative radix and at least one user, mesh always) is drawn
    with at least one link, so with a finite stroke width. *)
Theorem drawing_stroke_width (config : NetworkConfig)
    (requiredUserPorts : option number) (d : TopologyVisualizer.Data) :
  let finite (d : TopologyVisualizer.Data) :=
    exists q, TopologyVisualizer.strokeWidth d = Fin q /\ (2 # 10 <= q <= 100)%Q in
  (TopologyVisualizer.links d = [] -> TopologyVisualizer.strokeWidth d = Infinity)
  /\ (TopologyVisualizer.links d <> [] -> finite d)
  /\ (0 <= radix config -> 1 <= numUsers config ->
      possible (calculateClos toString config) = true ->
      finite (drawing (calculateClos toString config) TopologyVisualizer.clos))
  /\ (possible (calculateFullMesh toString config requiredUserPorts) = true ->
      finite (drawing (calculateFullMesh toString config requiredUserPorts)
                TopologyVisualizer.mesh)).
Proof.
  intros finite.
  assert (Hfin : forall d', TopologyVisualizer.links d' <> [] -> finite d').
  { intros d' Hne. destruct (strokeWidth_cases d') as [_ Hcase].
    destruct (Hcase Hne) as (q & Hq & _ & Hb). exists q. auto. }
  split; [apply strokeWidth_cases|]. split; [apply Hfin|]. split.
  - intros H0 Hn Hp. apply Hfin.
    unfold TopologyVisualizer.data. rewrite Hp. cbn [negb].
    destruct (clos_possible_capacity toString config H0 Hn Hp) as [Hr _].
    pose proof (numLeafs_pos config Hr Hn) as Hl.
    pose proof (userPortsPerLeaf_pos config Hr) as Hu.
    assert (Hup : 0 < ceilDiv (numLeafs config * userPortsPerLeaf config)
                         (radix config))
      by (apply ceilDiv_pos; nia).
    apply closData_has_link;
      destruct (clos_switchConfig config Hp) as [(-> & _)|(-> & _)];
      cbn [leafs spines TopologyVisualizer.orZero]; lia.
  - intros Hp. apply Hfin.
    unfold TopologyVisualizer.data. rewrite Hp. cbn [negb].
    destruct (mesh_possible_shape toString config requiredUserPorts Hp)
      as (s & l & Hs & _ & _ & _ & Hms & _).
    apply meshData_has_link. rewrite Hms. cbn [TopologyVisualizer.orZero]. lia.
Qed.

(** X28.  With a cosine and a sine between -1 and 1, every node of a
    mesh drawing lies on or inside the circle of radius 105 about the
    centre (200, 150) of the view box: [95 <= x <= 305] and
    [45 <= y <= 255]. *)
Theorem drawing_mesh_in_viewbox (metrics : TopologyMetrics) (n : Node.t) :
  (forall a, -1 <= Math_cos a <= 1)%Q -> (forall a, -1 <= Math_sin a <= 1)%Q ->
  In n (TopologyVisualizer.nodes (drawing metrics TopologyVisualizer.mesh)) ->
  (95 <= Node.x n <= 305)%Q /\ (45 <= Node.y n <= 255)%Q
  /\ Node.type n = Node.mesh.
Proof.
  intros Hcos Hsin. unfold TopologyVisualizer.data.
  destruct (possible metrics); cbn [negb]; [|intros []].
  unfold TopologyVisualizer.meshData. cbn [TopologyVisualizer.nodes].
  intros Hin. apply in_map_iff in Hin. destruct Hin as (i & <- & _).
  cbn [Node.x Node.y Node.type].
  unfold fadd.
  assert (Er : (fmul (Qmin TopologyVisualizer.width TopologyVisualizer.height)
                  (literal (35 # 100)) == 105)%Q) by (vm_compute; reflexivity).
  assert (Ecx : (fdiv TopologyVisualizer.width 2 == 200)%Q)
    by (vm_compute; reflexivity).
  assert (Ecy : (fdiv TopologyVisualizer.height 2 == 150)%Q)
    by (vm_compute; reflexivity).
  set (radius := fmul (Qmin TopologyVisualizer.width TopologyVisualizer.height)
                   (literal (35 # 100))) in *.
  assert (Hscaled : forall c, (-1 <= c <= 1)%Q ->
            (inject_Z (-105) <= fmul radius c <= inject_Z 105)%Q).
  { intros c Hc. unfold fmul.
    assert (E : (radius * c == 105 * c)%Q) by (rewrite Er; reflexivity).
    rewrite (round_comp _ _ E).
    split; [apply round_ge_Z | apply round_le_Z]; try (simpl; lia);
      [change (inject_Z (-105)) with (-105 # 1)%Q
      | change (inject_Z 105) with 105%Q]; lra. }
  match goal with
  | |- context [Math_cos ?a] =>
      pose proof (Hscaled _ (Hcos a)) as Hx; pose proof (Hscaled _ (Hsin a)) as Hy
  end.
  change (inject_Z (-105)) with (-105 # 1)%Q in Hx, Hy.
  change (inject_Z 105) with 105%Q in Hx, Hy.
  split; [|split; [|reflexivity]].
  - split; [apply (round_ge_Z _ 95) | apply (round_le_Z _ 305)];
      try (simpl; lia); rewrite Ecx;
      [change (inject_Z 95) with 95%Q | change (inject_Z 305) with 305%Q]; lra.
  - split; [apply (round_ge_Z _ 45) | apply (round_le_Z _ 255)];
      try (simpl; lia); rewrite Ecy;
      [change (inject_Z 45) with 45%Q | change (inject_Z 255) with 255%Q]; lra.
Qed.

End VisualizerProperties.

(** * The further properties on concrete configurations *)


Lemma clos_two_tier_iff_witness :
  possible (calculateClos showNumber (sampleConfig 4096 64 1)) = true
  /\ core (switchConfig (calculateClos showNumber (sampleConfig 4096 64 1))) = None
  <-> numUsers (sampleConfig 4096 64 1)
      <= radix (sampleConfig 4096 64 1) * userPortsPerLeaf (sampleConfig 4096 64 1).
Proof. apply (clos_two_tier_iff showNumber (sampleConfig 4096 64 1)). simpl. lia. Defined.

Lemma clos_capacity_tight_witness :
  1000 <= userCapacity (calculateClos showNumber (sampleConfig 1000 64 1)) < 1000 + 32.
Proof.
  destruct (clos_capacity_tight showNumber (sampleConfig 1000 64 1)) as [H _];
    [simpl; lia | vm_compute; reflexivity | exact H].
Defined.

Lemma clos_port_budget_witness :
  userPortsPerSwitch (switchConfig (calculateClos showNumber (sampleConfig 1000 16 1)))
  = Some 8 /\ 2 * 8 <= 16.
Proof.
  destruct (clos_port_budget showNumber (sampleConfig 1000 16 1)) as (Hu & Hb & _);
    [simpl; lia | vm_compute; reflexivity | split; [exact Hu | exact Hb]].
Defined.

Lemma clos_cost_monotone_witness :
  totalCables (calculateClos showNumber (sampleConfig 1024 64 1))
  <= totalCables (calculateClos showNumber (withNumUsers (sampleConfig 1024 64 1) 4096))
  /\ (totalPower (calculateClos showNumber (sampleConfig 1024 64 1))
      <= totalPower (calculateClos showNumber
                       (withNumUsers (sampleConfig 1024 64 1) 4096)))%Q.
Proof.
  apply (clos_cost_monotone showNumber (sampleConfig 1024 64 1) 4096);
    [simpl; lia | simpl; lia | simpl; lia | vm_compute; discriminate
    | vm_compute; discriminate | vm_compute; reflexivity | vm_compute; reflexivity].
Defined.

(** Ratio 1.6 on 52 ports: the double quotient is exactly 32, one port
    below the budget of exact arithmetic, and 650 users are feasible. *)
Lemma mesh_feasible_iff_witness :
  let config := sampleConfig 650 52 (literal (16 # 10)) in
  minFabricPorts config = Fin 32
  /\ (possible (calculateFullMesh showNumber config None) = true
      <-> exists S, 2 <= S <= 500 /\ meshAdmits config 32 650 S).
Proof.
  exact (mesh_feasible_iff showNumber (sampleConfig 650 52 (literal (16 # 10)))
           None 650 ltac:(vm_compute; reflexivity) ltac:(reflexivity)).
Defined.

Lemma mesh_bounds_witness :
  totalSwitches (calculateFullMesh showNumber (sampleConfig 1024 64 1) None)
  <= radix (sampleConfig 1024 64 1).
Proof.
  destruct (mesh_bounds showNumber (sampleConfig 1024 64 1) None) as (_ & H & _);
    [vm_compute; reflexivity | exact H].
Defined.

Lemma mesh_cables_witness :
  exists l, 1 <= l
    /\ 64 - 32 = l * (totalSwitches
                        (calculateFullMesh showNumber (sampleConfig 1024 64 1) None) - 1).
Proof.
  destruct (mesh_cables showNumber (sampleConfig 1024 64 1) None 32)
    as (l & Hl & Hf & _); [vm_compute; reflexivity | vm_compute; reflexivity | ].
  exists l. split; [exact Hl | exact Hf].
Defined.

(** A one-hop share of 99.5 percent: the blend is just below 1.005 in
    doubles and reads 1. *)
Lemma mesh_hops_witness :
  let config :=
    {| numUsers := 1024; radix := 64; powerPerSwitch := 1700;
       cablePowerClos := 25; cablePowerMesh := 55 # 2; meshFabricRatio := 1;
       meshOneHopTraffic := 995 # 10 |} in
  (1 <= avgHops (calculateFullMesh showNumber config None) <= 2)%Q
  /\ (avgHops (calculateFullMesh showNumber config None) == 1)%Q.
Proof.
  intros config.
  destruct (mesh_hops showNumber config None) as (_ & Ha & H);
    [vm_compute; reflexivity | ].
  destruct H as [Hb _]; [split; vm_compute; discriminate | ].
  split; [exact Hb | rewrite Ha; vm_compute; reflexivity].
Defined.

Lemma mesh_monotone_witness :
  totalSwitches (calculateFullMesh showNumber (sampleConfig 1024 64 1)
                   (Some (ofZ 64)))
  <= totalSwitches (calculateFullMesh showNumber (sampleConfig 1024 64 1) None)
  /\ userCapacity (calculateFullMesh showNumber (sampleConfig 1024 64 1)
                     (Some (ofZ 64)))
     <= userCapacity (calculateFullMesh showNumber (sampleConfig 1024 64 1) None).
Proof.
  apply (mesh_monotone showNumber (sampleConfig 1024 64 1) (Some (ofZ 64)) None
           64 1024);
    [reflexivity | reflexivity | reflexivity | vm_compute; discriminate
    | vm_compute; reflexivity | vm_compute; reflexivity].
Defined.

Lemma mesh_ignores_numUsers_witness :
  calculateFullMesh showNumber (withNumUsers (sampleConfig 1024 64 1) 5)
    (Some (ofZ 256))
  = calculateFullMesh showNumber (sampleConfig 1024 64 1) (Some (ofZ 256)).
Proof. apply mesh_ignores_numUsers. reflexivity. Defined.

Lemma app_equal_scale_witness :
  1000 <= userCapacity (App.closMetrics (App.derived showNumber (sampleConfig 1000 64 1)))
  /\ userCapacity (App.closMetrics (App.derived showNumber (sampleConfig 1000 64 1)))
     <= userCapacity (App.meshMetrics (App.derived showNumber (sampleConfig 1000 64 1))).
Proof.
  destruct (app_equal_scale showNumber (sampleConfig 1000 64 1)) as [_ H];
    [simpl; lia | simpl; lia | vm_compute; reflexivity | ].
  apply H. vm_compute. reflexivity.
Defined.

Lemma app_infeasible_together_witness :
  possible (App.meshMetrics (App.derived showNumber (sampleConfig 2048 16 1))) = false.
Proof.
  apply (app_infeasible_together showNumber (sampleConfig 2048 16 1));
    [simpl; lia | simpl; lia | vm_compute; reflexivity].
Defined.

Lemma app_power_per_port_witness :
  let d := App.derived showNumber (sampleConfig 1024 64 (12 # 10)) in
  (Qabs (App.meshPowerPerPort d * inject_Z (userCapacity (App.meshMetrics d))
         - totalPower (App.meshMetrics d))
   <= eps * Qabs (totalPower (App.meshMetrics d)))%Q.
Proof.
  intros d.
  destruct (app_power_per_port showNumber (sampleConfig 1024 64 (12 # 10)))
    as [_ H]; [simpl; lia | simpl; lia | exact H].
Defined.

Lemma chart_sorted_witness :
  exists k, 1 <= k <= 8
    /\ MetricsChart.x
         (nth 0 (MetricsChart.data showNumber (sampleConfig 1024 64 (12 # 10)))
            (MetricsChart.mkPoint 0 0 0 0 0 0 0 0 0))
       = 128 * k.
Proof.
  destruct (chart_sorted showNumber (sampleConfig 1024 64 (12 # 10))) as [_ H].
  apply H. apply nth_In. vm_compute. lia.
Defined.

Lemma chart_point_is_app_witness :
  let p := nth 4 (MetricsChart.data showNumber (sampleConfig 1024 64 (12 # 10)))
             (MetricsChart.mkPoint 0 0 0 0 0 0 0 0 0) in
  MetricsChart.meshSwitches p
  = totalSwitches
      (App.meshMetrics
         (App.derived showNumber
            (withNumUsers (sampleConfig 1024 64 (12 # 10)) (MetricsChart.x p)))).
Proof.
  intros p.
  destruct (chart_point_is_app showNumber (sampleConfig 1024 64 (12 # 10)) p)
    as (_ & _ & _ & H & _); [apply nth_In; vm_compute; lia | exact H].
Defined.

Lemma chart_clos_monotone_witness :
  let l := MetricsChart.data showNumber (sampleConfig 1024 64 (12 # 10)) in
  let p := nth 0 l (MetricsChart.mkPoint 0 0 0 0 0 0 0 0 0) in
  let q := nth 7 l (MetricsChart.mkPoint 0 0 0 0 0 0 0 0 0) in
  MetricsChart.closSwitches p <= MetricsChart.closSwitches q
  /\ MetricsChart.closCables p <= MetricsChart.closCables q.
Proof.
  intros l p q.
  apply (chart_clos_monotone showNumber (sampleConfig 1024 64 (12 # 10)) p q);
    [simpl; lia | apply nth_In; vm_compute; lia | apply nth_In; vm_compute; lia
    | vm_compute; discriminate].
Defined.

Lemma chart_highlight_on_curve_witness :
  exists p, In p (MetricsChart.data showNumber (sampleConfig 1024 64 (12 # 10)))
    /\ MetricsChart.x p = 1024
    /\ MetricsChart.meshSwitches p
       = MetricsChart.Highlight.meshSwitches
           (MetricsChart.highlightValues showNumber (sampleConfig 1024 64 (12 # 10))).
Proof.
  destruct (chart_highlight_on_curve showNumber (sampleConfig 1024 64 (12 # 10)) 8)
    as (p & Hin & Hx & _ & Hm & _);
    [lia | reflexivity | vm_compute; reflexivity | ].
  exists p. split; [exact Hin | split; [exact Hx | exact Hm]].
Defined.

Lemma drawing_links_resolve_witness :
  let d := TopologyVisualizer.data (fun _ => 0%Q) (fun _ => 0%Q)
             (calculateClos showNumber (sampleConfig 10 4 1))
             TopologyVisualizer.clos in
  let link := nth 30 (TopologyVisualizer.links d)
                (Link.mk EmptyString EmptyString Link.peer) in
  exists src trg, resolves d link src trg /\ (Node.y trg < Node.y src)%Q.
Proof.
  intros d link.
  destruct (drawing_links_resolve (fun _ => 0%Q) (fun _ => 0%Q)
              (calculateClos showNumber (sampleConfig 10 4 1))
              TopologyVisualizer.clos link)
    as (src & trg & Hr & _ & _ & _ & Hy); [apply nth_In; vm_compute; lia | ].
  exists src, trg. split; [exact Hr | exact Hy].
Defined.

Lemma drawing_clos_in_viewbox_witness :
  let d := TopologyVisualizer.data (fun _ => 0%Q) (fun _ => 0%Q)
             (calculateClos showNumber (sampleConfig 10 4 1))
             TopologyVisualizer.clos in
  (20 <= Node.x (nth 12 (TopologyVisualizer.nodes d)
                   (Node.mk EmptyString Node.user 0 0))
   <= 380 + (1 # 17592186044416))%Q.
Proof.
  intros d.
  destruct (drawing_clos_in_viewbox (fun _ => 0%Q) (fun _ => 0%Q)
              (calculateClos showNumber (sampleConfig 10 4 1))
              (nth 12 (TopologyVisualizer.nodes d) (Node.mk EmptyString Node.user 0 0)))
    as [H _]; [apply nth_In; vm_compute; lia | exact H].
Defined.

Lemma drawing_node_size_witness :
  exists q,
    TopologyVisualizer.nodeSize
      (TopologyVisualizer.data (fun _ => 0%Q) (fun _ => 0%Q)
         (calculateFullMesh showNumber (sampleConfig 1024 64 1) None)
         TopologyVisualizer.mesh)
    = Some (Fin q)
    /\ (2 <= q)%Q /\ (q <= 12)%Q.
Proof.
  apply (drawing_node_size (fun _ => 0%Q) (fun _ => 0%Q)
           (calculateFullMesh showNumber (sampleConfig 1024 64 1) None)
           TopologyVisualizer.mesh).
  vm_compute. reflexivity.
Defined.

Lemma drawing_clos_counts_witness :
  Z.of_nat (length (TopologyVisualizer.nodes
                      (TopologyVisualizer.data (fun _ => 0%Q) (fun _ => 0%Q)
                         (calculateClos showNumber (sampleConfig 1000 16 1))
                         TopologyVisualizer.clos)))
  = totalSwitches (calculateClos showNumber (sampleConfig 1000 16 1)).
Proof.
  destruct (drawing_clos_counts showNumber (fun _ => 0%Q) (fun _ => 0%Q)
              (sampleConfig 1000 16 1)) as [H _];
    [simpl; lia | simpl; lia | exact H].
Defined.

Lemma drawing_mesh_counts_witness :
  exists l, 1 <= l
    /\ totalCables (calculateFullMesh showNumber (sampleConfig 64 64 1) None)
       = Z.of_nat (length (TopologyVisualizer.links
                             (TopologyVisualizer.data (fun _ => 0%Q) (fun _ => 0%Q)
                                (calculateFullMesh showNumber (sampleConfig 64 64 1) None)
                                TopologyVisualizer.mesh)))
         * l.
Proof.
  destruct (drawing_mesh_counts showNumber (fun _ => 0%Q) (fun _ => 0%Q)
              (sampleConfig 64 64 1) None) as (_ & _ & H).
  apply H. vm_compute. reflexivity.
Defined.

Lemma drawing_stroke_width_witness :
  exists q,
    TopologyVisualizer.strokeWidth
      (TopologyVisualizer.data (fun _ => 0%Q) (fun _ => 0%Q)
         (calculateClos showNumber (sampleConfig 10 4 1)) TopologyVisualizer.clos)
    = Fin q
    /\ (2 # 10 <= q <= 100)%Q.
Proof.
  destruct (drawing_stroke_width showNumber (fun _ => 0%Q) (fun _ => 0%Q)
              (sampleConfig 10 4 1) None
              (TopologyVisualizer.mkData [] [] None)) as (_ & _ & H & _).
  apply H; [simpl; lia | simpl; lia | vm_compute; reflexivity].
Defined.

Lemma clos_hops_range_witness :
  (2 <= avgHops (calculateClos showNumber (sampleConfig 1000 16 1)) <= 4)%Q.
Proof.
  destruct (clos_hops_range showNumber (sampleConfig 1000 16 1)) as [_ H];
    [simpl; lia | vm_compute; reflexivity | vm_compute; discriminate | exact H].
Defined.

Lemma drawing_mesh_in_viewbox_witness :
  let d := TopologyVisualizer.data (fun _ => 1%Q) (fun _ => 0%Q)
             (calculateFullMesh showNumber (sampleConfig 6 4 1) None)
             TopologyVisualizer.mesh in
  (95 <= Node.x (nth 2 (TopologyVisualizer.nodes d)
                   (Node.mk EmptyString Node.user 0 0)) <= 305)%Q.
Proof.
  intros d.
  destruct (drawing_mesh_in_viewbox (fun _ => 1%Q) (fun _ => 0%Q)
              (calculateFullMesh showNumber (sampleConfig 6 4 1) None)
              (nth 2 (TopologyVisualizer.nodes d) (Node.mk EmptyString Node.user 0 0)))
    as [H _];
    [intros a; split; vm_compute; discriminate
    | intros a; split; vm_compute; discriminate
    | apply nth_In; vm_compute; lia | exact H].
Defined.
